(** * hookmachine: the file-backed task queue and its mutexes

    A shallow embedding of [lib/Mutex.js], [lib/FileMutex.js] and
    [lib/filequeue.js].  JavaScript objects become records, [null] becomes
    [None], thrown exceptions become the [Throw] completion, and every
    asynchronous call (timers, [fs] requests, the worker) becomes an item of
    an explicit event loop whose completion is a separate step. *)

From Stdlib Require Import String Ascii List ZArith Bool Arith Lia.
Import ListNotations.

Local Open Scope string_scope.
Local Open Scope list_scope.

Notation "a ^^ b" := (String.append a b) (at level 60, right associativity).

(** ** JavaScript values, exceptions and completions *)

(** [if (s)] on a string: only the empty string is falsy. *)
Definition str_truthy (s : string) : bool := negb (String.eqb s "").

(** The values a caller may hand over as [params] or a worker as [result]. *)
Inductive jsval : Type :=
| JUndefined
| JNull
| JBool (b : bool)
| JNum (n : Z)
| JStr (s : string)
| JObj (fields : list (string * string)).

(** [if (v)] on a value. *)
Definition truthy (v : jsval) : bool :=
  match v with
  | JUndefined | JNull => false
  | JBool b => b
  | JNum n => negb (Z.eqb n 0)
  | JStr s => str_truthy s
  | JObj _ => true
  end.

(** The exceptions the modelled code raises or meets. *)
Inductive exn : Type :=
| ParamError (message : string)
| InternalError (message detail : string)
| TypeError (message : string)
| SystemError (message : string).

(** How a synchronous call ends: normally, or by a [throw]; both carry the
    state the object is left in. *)
Inductive completion (S : Type) : Type :=
| Return (s : S)
| Throw (e : exn) (s : S).
Arguments Return {S} s.
Arguments Throw {S} e s.

(** An entry of a mutex queue: [{ id: id, callback: callback }]. *)
Record waiter (C : Type) : Type := Waiter {
  waiter_id : string;
  waiter_callback : option C
}.
Arguments Waiter {C} _ _.
Arguments waiter_id {C} _.
Arguments waiter_callback {C} _.

(** [if (callback) setTimeout(function () { callback(); }, 0)]: the timers
    armed for a waiter that was just made the owner. *)
Definition setTimeout0 {C : Type} (grant : option (waiter C)) : list C :=
  match grant with
  | Some w => match waiter_callback w with Some c => [c] | None => [] end
  | None => []
  end.

(** ['' + this.lockedBy] *)
Definition show_owner (o : option string) : string :=
  match o with Some s => s | None => "null" end.

(** [this.lockedBy !== id] for a string [id]. *)
Definition owner_differs (o : option string) (id : string) : bool :=
  match o with Some s => negb (String.eqb s id) | None => true end.

Definition not_owner_error (o : option string) (id : string) : exn :=
  InternalError "Mutex has been locked by someone else and cannot be unlocked"
                ("id=" ^^ id ^^ ", lockedBy=" ^^ show_owner o).

(** ** lib/Mutex.js: the in-memory mutex *)

Module Mutex.
Section WithCallback.
Variable C : Type.

Record t : Type := Make {
  lockedBy : option string;
  queue : list (waiter C)
}.

(** [new Mutex()] *)
Definition create : t := {| lockedBy := None; queue := [] |}.

(** [if (this.lockedBy)] *)
Definition held (m : t) : bool :=
  match lockedBy m with Some i => str_truthy i | None => false end.

(** [Mutex.prototype.lock].  The second component is the waiter that was
    made the owner by this call, if any; its callback is armed with
    [setTimeout0]. *)
Definition lock (id : string) (callback : option C) (m : t)
  : t * option (waiter C) :=
  if held m then
    ({| lockedBy := lockedBy m;
        queue := queue m ++ [Waiter id callback] |}, None)
  else
    ({| lockedBy := Some id; queue := queue m |},
     Some (Waiter id callback)).

(** [Mutex.prototype.unlock] *)
Definition unlock (id : string) (m : t) : completion (t * option (waiter C)) :=
  if owner_differs (lockedBy m) id then
    Throw (not_owner_error (lockedBy m) id) (m, None)
  else
    match queue m with
    | [] => Return ({| lockedBy := None; queue := [] |}, None)
    | next :: rest =>
        Return ({| lockedBy := Some (waiter_id next); queue := rest |},
                Some next)
    end.

(** A client program: a sequence of calls on one mutex. *)
Inductive call : Type :=
| Lock (id : string) (callback : option C)
| Unlock (id : string).

(** What a run of calls has produced so far: the waiters made owner, in
    the order they were, and the owners that released. *)
Record session : Type := Session {
  mutex : t;
  granted : list (waiter C);
  released : list string;
  timers : list C
}.

Definition start : session :=
  {| mutex := create; granted := []; released := []; timers := [] |}.

Definition grant_list (g : option (waiter C)) : list (waiter C) :=
  match g with Some w => [w] | None => [] end.

(** One call; an [unlock] that throws leaves the session as it is. *)
Definition step (s : session) (c : call) : session :=
  match c with
  | Lock id cb =>
      let '(m, g) := lock id cb (mutex s) in
      {| mutex := m; granted := granted s ++ grant_list g;
         released := released s; timers := timers s ++ setTimeout0 g |}
  | Unlock id =>
      match unlock id (mutex s) with
      | Return (m, g) =>
          {| mutex := m; granted := granted s ++ grant_list g;
             released := released s ++ [id];
             timers := timers s ++ setTimeout0 g |}
      | Throw _ _ => s
      end
  end.

Definition run (cs : list call) : session := fold_left step cs start.

(** The lock requests of a program, in arrival order. *)
Fixpoint requests (cs : list call) : list (waiter C) :=
  match cs with
  | [] => []
  | Lock id cb :: cs' => Waiter id cb :: requests cs'
  | Unlock _ :: cs' => requests cs'
  end.

Definition ids_truthy (cs : list call) : Prop :=
  Forall (fun w => str_truthy (waiter_id w) = true) (requests cs).

(** The number of owners that were given the mutex and have not released
    it. *)
Definition active (s : session) : nat :=
  length (granted s) - length (released s).

(** The call of [lock] itself makes the caller the owner and arms its
    callback. *)
Definition completes_now (id : string) (callback : option C) (m : t) : Prop :=
  snd (lock id callback m) = Some (Waiter id callback).

End WithCallback.
Arguments lockedBy {C} _.
Arguments queue {C} _.
Arguments create {C}.
Arguments held {C} _.
Arguments lock {C} _ _ _.
Arguments unlock {C} _ _.
Arguments Lock {C} _ _.
Arguments Unlock {C} _.
Arguments mutex {C} _.
Arguments granted {C} _.
Arguments released {C} _.
Arguments timers {C} _.
Arguments run {C} _.
Arguments step {C} _ _.
Arguments start {C}.
Arguments requests {C} _.
Arguments ids_truthy {C} _.
Arguments grant_list {C} _.
Arguments active {C} _.
Arguments completes_now {C} _ _ _.
End Mutex.

(** ** lib/FileMutex.js: the mutex backed by [flock] on a lock file *)

Module FileMutex.
Section WithCallback.
Variable C : Type.

(** [flocked] is not a field of the JavaScript object: it records whether
    the process holds the advisory lock on [fd], as the operating system
    sees it after the [flock] calls made so far. *)
Record t : Type := Make {
  fd : option nat;
  lockedBy : option string;
  queue : list (waiter C);
  flocked : bool
}.

(** [new Mutex(filename)] *)
Definition create : t :=
  {| fd := None; lockedBy := None; queue := []; flocked := false |}.

Definition held (m : t) : bool :=
  match lockedBy m with Some i => str_truthy i | None => false end.

Definition enqueue (w : waiter C) (m : t) : t :=
  {| fd := fd m; lockedBy := lockedBy m; queue := queue m ++ [w];
     flocked := flocked m |}.

(** [Mutex.prototype.lock], up to the call of [fs.flock].  [openSync] is
    what [fs.openSync(this.filename, 'w')] answers if it is called:
    a descriptor, or [None] when it throws.  The second component is the
    [fs.flock] request left in flight, whose completion is
    [flock_callback]. *)
Definition lock (openSync : option nat) (id : string) (callback : option C)
    (m : t) : completion (t * option (waiter C)) :=
  if held m then Return (enqueue (Waiter id callback) m, None)
  else
    match fd m with
    | Some _ => Return (m, Some (Waiter id callback))
    | None =>
        match openSync with
        | Some d =>
            Return ({| fd := Some d; lockedBy := lockedBy m;
                       queue := queue m; flocked := flocked m |},
                    Some (Waiter id callback))
        | None => Throw (SystemError "open") (m, None)
        end
    end.

(** The function passed to [fs.flock(this.fd, 'ex', ...)], called with
    [err] when the request issued for [w] completes.  The second component
    lists the callback it calls, synchronously. *)
Definition flock_callback (err : bool) (w : waiter C) (m : t)
  : completion (t * list C) :=
  if err then Return (enqueue w m, [])
  else
    let m' := {| fd := fd m; lockedBy := Some (waiter_id w);
                 queue := queue m; flocked := true |} in
    match waiter_callback w with
    | Some c => Return (m', [c])
    | None => Throw (TypeError "callback is not a function") (m', [])
    end.

(** [Mutex.prototype.unlock]; [fs.flockSync(this.fd, 'un')] is inside a
    [try] whose [catch] is empty. *)
Definition unlock (id : string) (m : t) : completion (t * option (waiter C)) :=
  if owner_differs (lockedBy m) id then
    Throw (not_owner_error (lockedBy m) id) (m, None)
  else
    match queue m with
    | [] =>
        Return ({| fd := fd m; lockedBy := None; queue := [];
                   flocked := false |}, None)
    | next :: rest =>
        Return ({| fd := fd m; lockedBy := Some (waiter_id next);
                   queue := rest; flocked := false |}, Some next)
    end.

(** A client program: calls of [lock] and [unlock], and completions of
    the [fs.flock] requests in flight ([FlockDone err n] completes the
    [n]-th of them). *)
Inductive call : Type :=
| Lock (id : string) (callback : option C)
| FlockDone (err : bool) (n : nat)
| Unlock (id : string).

Record session : Type := Session {
  mutex : t;
  inflight : list (waiter C);
  granted : list (waiter C);
  called : list C;
  released : list string;
  thrown : list exn
}.

Definition start : session :=
  {| mutex := create; inflight := []; granted := []; called := [];
     released := []; thrown := [] |}.

Fixpoint remove_nth {A : Type} (n : nat) (l : list A) : list A :=
  match l, n with
  | [], _ => []
  | _ :: l', O => l'
  | x :: l', S n' => x :: remove_nth n' l'
  end.

Definition opt_list {A : Type} (o : option A) : list A :=
  match o with Some x => [x] | None => [] end.

(** One event of the program; the lock file can always be opened. *)
Definition step (s : session) (c : call) : session :=
  match c with
  | Lock id cb =>
      match lock (Some 3) id cb (mutex s) with
      | Return (m, r) =>
          {| mutex := m; inflight := inflight s ++ opt_list r;
             granted := granted s; called := called s;
             released := released s; thrown := thrown s |}
      | Throw e _ =>
          {| mutex := mutex s; inflight := inflight s;
             granted := granted s; called := called s;
             released := released s; thrown := thrown s ++ [e] |}
      end
  | FlockDone err n =>
      match nth_error (inflight s) n with
      | None => s
      | Some w =>
          match flock_callback err w (mutex s) with
          | Return (m, cs) =>
              {| mutex := m; inflight := remove_nth n (inflight s);
                 granted := granted s ++ (if err then [] else [w]);
                 called := called s ++ cs;
                 released := released s; thrown := thrown s |}
          | Throw e (m, _) =>
              {| mutex := m; inflight := remove_nth n (inflight s);
                 granted := granted s ++ [w]; called := called s;
                 released := released s; thrown := thrown s ++ [e] |}
          end
      end
  | Unlock id =>
      match unlock id (mutex s) with
      | Return (m, g) =>
          {| mutex := m; inflight := inflight s;
             granted := granted s ++ opt_list g; called := called s;
             released := released s ++ [id]; thrown := thrown s |}
      | Throw e _ =>
          {| mutex := mutex s; inflight := inflight s;
             granted := granted s; called := called s;
             released := released s; thrown := thrown s ++ [e] |}
      end
  end.

Definition run (cs : list call) : session := fold_left step cs start.

Definition active (s : session) : nat :=
  length (granted s) - length (released s).

End WithCallback.
Arguments fd {C} _.
Arguments lockedBy {C} _.
Arguments queue {C} _.
Arguments flocked {C} _.
Arguments create {C}.
Arguments held {C} _.
Arguments enqueue {C} _ _.
Arguments lock {C} _ _ _ _.
Arguments flock_callback {C} _ _ _.
Arguments unlock {C} _ _.
Arguments Lock {C} _ _.
Arguments FlockDone {C} _ _.
Arguments Unlock {C} _.
Arguments mutex {C} _.
Arguments inflight {C} _.
Arguments granted {C} _.
Arguments called {C} _.
Arguments released {C} _.
Arguments thrown {C} _.
Arguments start {C}.
Arguments step {C} _ _.
Arguments run {C} _.
Arguments active {C} _.
End FileMutex.

(** ** lib/filequeue.js: tasks and the task folders *)

Inductive job_status : Type := pending | running | success | failure.


Definition terminal (s : job_status) : bool :=
  match s with success | failure => true | _ => false end.

Module Task.
(** The task object.  An absent field is [None]; an [id] that is missing
    or falsy is the empty string. *)
Record t : Type := Make {
  id : string;
  params : jsval;
  status : job_status;
  dateCreated : string;
  dateFinished : option string;
  error : option string;
  errorCode : option Z;
  result : option jsval
}.

Definition set_status (s : job_status) (k : t) : t :=
  {| id := id k; params := params k; status := s;
     dateCreated := dateCreated k; dateFinished := dateFinished k;
     error := error k; errorCode := errorCode k; result := result k |}.

Definition set_error (e : string) (c : Z) (k : t) : t :=
  {| id := id k; params := params k; status := status k;
     dateCreated := dateCreated k; dateFinished := dateFinished k;
     error := Some e; errorCode := Some c; result := result k |}.

Definition set_result (r : jsval) (k : t) : t :=
  {| id := id k; params := params k; status := status k;
     dateCreated := dateCreated k; dateFinished := dateFinished k;
     error := error k; errorCode := errorCode k; result := Some r |}.

Definition set_dateFinished (d : string) (k : t) : t :=
  {| id := id k; params := params k; status := status k;
     dateCreated := dateCreated k; dateFinished := Some d;
     error := error k; errorCode := errorCode k; result := result k |}.
End Task.

(** The error a worker hands to its completion callback: the class that
    [instanceof] sees and the string [err.toString()] gives. *)
Inductive error_class : Type := IsParamError | IsProxyError | IsOtherError.

Record worker_error : Type := WorkerError {
  class : error_class;
  text : string
}.

(** What a file of a task folder holds: a task written by
    [JSON.stringify], or something [JSON.parse] throws on. *)
Inductive content : Type :=
| Json (k : Task.t)
| Garbage.

Definition dir : Type := list (string * content).

Inductive folder : Type := IdFolder | PendingFolder | RunningFolder.

(** The task folder on disk: whether the three sub-folders exist, and the
    files of each, in directory order. *)
Record disk : Type := Disk {
  folders_exist : bool;
  id_dir : dir;
  pending_dir : dir;
  running_dir : dir
}.

Definition get_dir (f : folder) (d : disk) : dir :=
  match f with
  | IdFolder => id_dir d
  | PendingFolder => pending_dir d
  | RunningFolder => running_dir d
  end.

Definition set_dir (f : folder) (x : dir) (d : disk) : disk :=
  match f with
  | IdFolder =>
      {| folders_exist := folders_exist d; id_dir := x;
         pending_dir := pending_dir d; running_dir := running_dir d |}
  | PendingFolder =>
      {| folders_exist := folders_exist d; id_dir := id_dir d;
         pending_dir := x; running_dir := running_dir d |}
  | RunningFolder =>
      {| folders_exist := folders_exist d; id_dir := id_dir d;
         pending_dir := pending_dir d; running_dir := x |}
  end.

Fixpoint dir_lookup (name : string) (x : dir) : option content :=
  match x with
  | [] => None
  | (n, c) :: x' => if String.eqb n name then Some c else dir_lookup name x'
  end.

(** Overwrites the file in place, or adds it at the end of the directory. *)
Fixpoint dir_write (name : string) (c : content) (x : dir) : dir :=
  match x with
  | [] => [(name, c)]
  | (n, c') :: x' =>
      if String.eqb n name then (n, c) :: x' else (n, c') :: dir_write name c x'
  end.

Fixpoint dir_remove (name : string) (x : dir) : dir :=
  match x with
  | [] => []
  | (n, c) :: x' =>
      if String.eqb n name then x' else (n, c) :: dir_remove name x'
  end.

(** [fs.writeFile]: the new disk, or [None] for an error. *)
Definition fs_writeFile (f : folder) (name : string) (c : content) (d : disk)
  : option disk :=
  if folders_exist d then Some (set_dir f (dir_write name c (get_dir f d)) d)
  else None.

(** [fs.unlink]: fails, with ENOENT, on a file that is not there. *)
Definition fs_unlink (f : folder) (name : string) (d : disk) : option disk :=
  match dir_lookup name (get_dir f d) with
  | Some _ => Some (set_dir f (dir_remove name (get_dir f d)) d)
  | None => None
  end.

Definition fs_readdir (f : folder) (d : disk) : option (list string) :=
  if folders_exist d then Some (map fst (get_dir f d)) else None.

Definition fs_readFile (f : folder) (name : string) (d : disk) : option content :=
  dir_lookup name (get_dir f d).

(** [file.match(/\.json$/)] *)
Fixpoint is_json (file : string) : bool :=
  match file with
  | EmptyString => false
  | String _ rest => String.eqb file ".json" || is_json rest
  end.

(** [task.id + '.json'] *)
Definition file_of (taskId : string) : string := taskId ^^ ".json".

(** ** lib/filequeue.js: the task queue *)

Module TaskQueue.

(** The closure of an operation in progress: [push] keeps its [task],
    [checkNextTask] its [runnerTask] and [runningTask], [runTask] its task
    object (objects made by [JSON.parse] live in the heap and are named by
    their index), and [start] nothing. *)
Inductive frame : Type :=
| StartFrame
| PushFrame (task : Task.t)
| CheckFrame (runnerId : string) (runningTask : option nat)
| RunFrame (task : nat).

(** The name under which the event loop completes a request of an
    operation. *)
Inductive tid : Type :=
| TStart
| TPush (taskId : string)
| TCheck (runnerId : string)
| TRun (task : nat).

Definition tid_of (k : frame) : tid :=
  match k with
  | StartFrame => TStart
  | PushFrame task => TPush (Task.id task)
  | CheckFrame r _ => TCheck r
  | RunFrame o => TRun o
  end.

Definition tid_eqb (a b : tid) : bool :=
  match a, b with
  | TStart, TStart => true
  | TPush x, TPush y => String.eqb x y
  | TCheck x, TCheck y => String.eqb x y
  | TRun x, TRun y => Nat.eqb x y
  | _, _ => false
  end.

(** The identity under which an operation takes the mutex. *)
Definition lock_id (k : frame) : string :=
  match k with
  | PushFrame task => Task.id task
  | CheckFrame r _ => r
  | _ => ""
  end.

(** The asynchronous request an operation is waiting on. *)
Inductive pc : Type :=
| AwaitFlock
| AwaitTimer
| AwaitMkdirp
| AwaitReaddirRunning
| AwaitWrite (f : folder) (name : string) (data : Task.t)
| AwaitUnlink (f : folder) (name : string)
| AwaitReaddir
| AwaitReadFile (file : string)
| AwaitDefer
| AwaitWorker.

(** What the environment answers when a request completes. *)
Record env : Type := Env {
  io_fails : bool;
  uuid : string;
  now : string;
  worker_err : option worker_error;
  worker_result : jsval
}.

(** The error handed to the final function of [checkNextTask]'s
    waterfall. *)
Inductive check_error : Type :=
| AllRun
| Failed (e : exn).

(** The queue object, the disk and the event loop.  [issued], [history]
    and [crashed] are not fields of the JavaScript object: the task ids
    [uuid.v1()] has given to [push], every assignment of a status to a
    task, oldest first, and the exception that ended the process. *)
Record queue : Type := Queue {
  runningTasks : list nat;
  heap : list Task.t;
  maxItems : Z;
  initialized : bool;
  error : option exn;
  locked : option string;
  mutex : FileMutex.t frame;
  store : disk;
  loop : list (frame * pc);
  deferred : nat;
  issued : list string;
  history : list (string * job_status);
  crashed : option exn
}.

Definition set_runningTasks (x : list nat) (q : queue) : queue :=
  Queue x (heap q) (maxItems q) (initialized q) (error q) (locked q)
        (mutex q) (store q) (loop q) (deferred q) (issued q) (history q)
        (crashed q).
Definition set_heap (x : list Task.t) (q : queue) : queue :=
  Queue (runningTasks q) x (maxItems q) (initialized q) (error q) (locked q)
        (mutex q) (store q) (loop q) (deferred q) (issued q) (history q)
        (crashed q).
Definition set_ready (i : bool) (e : option exn) (q : queue) : queue :=
  Queue (runningTasks q) (heap q) (maxItems q) i e (locked q)
        (mutex q) (store q) (loop q) (deferred q) (issued q) (history q)
        (crashed q).
Definition set_locked (x : option string) (q : queue) : queue :=
  Queue (runningTasks q) (heap q) (maxItems q) (initialized q) (error q) x
        (mutex q) (store q) (loop q) (deferred q) (issued q) (history q)
        (crashed q).
Definition set_mutex (x : FileMutex.t frame) (q : queue) : queue :=
  Queue (runningTasks q) (heap q) (maxItems q) (initialized q) (error q)
        (locked q) x (store q) (loop q) (deferred q) (issued q) (history q)
        (crashed q).
Definition set_store (x : disk) (q : queue) : queue :=
  Queue (runningTasks q) (heap q) (maxItems q) (initialized q) (error q)
        (locked q) (mutex q) x (loop q) (deferred q) (issued q) (history q)
        (crashed q).
Definition set_loop (x : list (frame * pc)) (q : queue) : queue :=
  Queue (runningTasks q) (heap q) (maxItems q) (initialized q) (error q)
        (locked q) (mutex q) (store q) x (deferred q) (issued q) (history q)
        (crashed q).
Definition set_deferred (x : nat) (q : queue) : queue :=
  Queue (runningTasks q) (heap q) (maxItems q) (initialized q) (error q)
        (locked q) (mutex q) (store q) (loop q) x (issued q) (history q)
        (crashed q).
Definition set_issued (x : list string) (q : queue) : queue :=
  Queue (runningTasks q) (heap q) (maxItems q) (initialized q) (error q)
        (locked q) (mutex q) (store q) (loop q) (deferred q) x (history q)
        (crashed q).
Definition set_history (x : list (string * job_status)) (q : queue) : queue :=
  Queue (runningTasks q) (heap q) (maxItems q) (initialized q) (error q)
        (locked q) (mutex q) (store q) (loop q) (deferred q) (issued q) x
        (crashed q).
Definition set_crashed (x : option exn) (q : queue) : queue :=
  Queue (runningTasks q) (heap q) (maxItems q) (initialized q) (error q)
        (locked q) (mutex q) (store q) (loop q) (deferred q) (issued q)
        (history q) x.

(** [new TaskQueue(worker, { maxItems: n })] on a task folder [d]: the
    constructor ends with [this.start()], which leaves [whenReady] making
    the folders. *)
Definition create (n : Z) (d : disk) : queue :=
  {| runningTasks := []; heap := []; maxItems := n; initialized := false;
     error := None; locked := None; mutex := FileMutex.create; store := d;
     loop := [(StartFrame, AwaitMkdirp)]; deferred := 0; issued := [];
     history := []; crashed := None |}.

Definition empty_disk : disk :=
  {| folders_exist := false; id_dir := []; pending_dir := [];
     running_dir := [] |}.

(** Leaves a request of operation [k] in flight. *)
Definition spawn (k : frame) (p : pc) (q : queue) : queue :=
  set_loop (loop q ++ [(k, p)]) q.

(** [_.defer(_.bind(self.checkNextTask, self))] *)
Definition defer_check (q : queue) : queue :=
  set_deferred (S (deferred q)) q.

Definition record (taskId : string) (s : job_status) (q : queue) : queue :=
  set_history (history q ++ [(taskId, s)]) q.

(** [fs.openSync] of the lock file succeeds once the task folder is there. *)
Definition openSync (d : disk) : option nat :=
  if folders_exist d then Some 3 else None.

(** [TaskQueue.prototype.lock]: the closure handed to the mutex is the
    operation itself, resumed by [lock_granted]. *)
Definition lock (k : frame) (q : queue) : completion queue :=
  match FileMutex.lock (openSync (store q)) (lock_id k) (Some k) (mutex q) with
  | Return (m, Some _) => Return (spawn k AwaitFlock (set_mutex m q))
  | Return (m, None) => Return (set_mutex m q)
  | Throw e _ => Throw e q
  end.

(** [TaskQueue.prototype.unlock]; the callback of the next waiter is armed
    with a timer. *)
Definition unlock (id : string) (q : queue) : completion queue :=
  match FileMutex.unlock id (mutex q) with
  | Return (m, g) =>
      Return (fold_left (fun q' k => spawn k AwaitTimer q') (setTimeout0 g)
                        (set_mutex m q))
  | Throw e _ => Throw e q
  end.

(** [TaskQueue.prototype.saveTaskToFolder], up to [fs.writeFile]: the
    request left in flight, or [None] when [callback()] is called at once
    ([!task || !task.id]). *)
Definition saveTaskToFolder (task : Task.t) (f : folder) : option pc :=
  if str_truthy (Task.id task)
  then Some (AwaitWrite f (file_of (Task.id task)) task)
  else None.

(** What the function passed to [fs.writeFile] hands to [callback]. *)
Definition save_callback (failed : bool) : option exn :=
  if failed then Some (InternalError "Could not save task to file" "write")
  else None.

(** [TaskQueue.prototype.removeTaskFromFolder], up to [fs.unlink]. *)
Definition removeTaskFromFolder (task : Task.t) (f : folder) : option pc :=
  if str_truthy (Task.id task)
  then Some (AwaitUnlink f (file_of (Task.id task)))
  else None.

(** What the function passed to [fs.unlink] hands to [callback]. *)
Definition remove_callback (failed : bool) : option exn :=
  if failed then Some (InternalError "Could not save task to file" "unlink")
  else None.

(** [TaskQueue.prototype.getNbRunningTasks] *)
Definition getNbRunningTasks (q : queue) : Z :=
  Z.of_nat (length (runningTasks q)).

(** [TaskQueue.prototype.checkNextTask], up to the request for the lock. *)
Definition checkNextTask (uuid : string) (q : queue) : completion queue :=
  let runnerId := "runner-" ^^ uuid in
  if (maxItems q >? 0)%Z && (getNbRunningTasks q >=? maxItems q)%Z
  then Return q
  else lock (CheckFrame runnerId None) q.

(** The final function of the waterfall of [push]. *)
Definition push_final (task : Task.t) (err : option exn) (q : queue)
  : completion queue :=
  match unlock (Task.id task) q with
  | Throw e q' => Throw e q'
  | Return q' =>
      match err with
      | Some _ => Return q'
      | None => Return (defer_check q')
      end
  end.

(** The third function of the waterfall of [push]. *)
Definition push_save_pending (task : Task.t) (q : queue) : completion queue :=
  match saveTaskToFolder task PendingFolder with
  | Some p => Return (spawn (PushFrame task) p q)
  | None => push_final task None q
  end.

(** The second function of the waterfall of [push]. *)
Definition push_save_id (task : Task.t) (q : queue) : completion queue :=
  match saveTaskToFolder task IdFolder with
  | Some p => Return (spawn (PushFrame task) p q)
  | None => push_save_pending task q
  end.

(** The final function of the waterfall of [checkNextTask]. *)
Definition check_final (runnerId : string) (runningTask : option nat)
    (err : option check_error) (q : queue) : completion queue :=
  match unlock runnerId q with
  | Throw e q' => Throw e q'
  | Return q' =>
      match err, runningTask with
      | Some _, _ => Return q'
      | None, Some o => Return (spawn (RunFrame o) AwaitDefer q')
      | None, None => Throw (TypeError "runningTask is null") q'
      end
  end.

(** The callback given to [whenReady] by [start] and, through [lock], by
    [push] and [checkNextTask]. *)
Definition ready (k : frame) (err : option exn) (uuid : string) (q : queue)
  : completion queue :=
  match k, err with
  | StartFrame, Some _ => Return q
  | StartFrame, None => checkNextTask uuid q
  | PushFrame task, Some e => push_final task (Some e) q
  | PushFrame task, None => push_save_id task q
  | CheckFrame r o, Some e => check_final r o (Some (Failed e)) q
  | CheckFrame r o, None => Return (spawn k AwaitReaddir q)
  | RunFrame _, _ => Return q
  end.

(** [TaskQueue.prototype.whenReady], up to [mkdirp]. *)
Definition whenReady (k : frame) (uuid : string) (q : queue)
  : completion queue :=
  if initialized q then ready k None uuid q
  else
    match error q with
    | Some e => ready k (Some e) uuid q
    | None => Return (spawn k AwaitMkdirp q)
    end.

(** The function [TaskQueue.prototype.lock] hands to the mutex. *)
Definition lock_granted (k : frame) (uuid : string) (q : queue)
  : completion queue :=
  whenReady k uuid (set_locked (Some (lock_id k)) q).

Definition mkdirp (d : disk) : disk :=
  {| folders_exist := true; id_dir := id_dir d;
     pending_dir := pending_dir d; running_dir := running_dir d |}.

(** The requests on the disk, when they complete: the environment may make
    any of them fail. *)
Definition do_write (e : env) (f : folder) (name : string) (data : Task.t)
    (q : queue) : option queue :=
  if io_fails e then None
  else option_map (fun d => set_store d q)
                  (fs_writeFile f name (Json data) (store q)).

Definition do_unlink (e : env) (f : folder) (name : string) (q : queue)
  : option queue :=
  if io_fails e then None
  else option_map (fun d => set_store d q) (fs_unlink f name (store q)).

Definition do_readdir (e : env) (f : folder) (q : queue)
  : option (list string) :=
  if io_fails e then None else fs_readdir f (store q).

Definition do_readFile (e : env) (f : folder) (name : string) (q : queue)
  : option content :=
  if io_fails e then None else fs_readFile f name (store q).

(** The completions shared by all operations: the [fs.flock] of the mutex,
    the timer armed by [unlock], and the two steps of [whenReady]. *)
Definition resume_lock (k : frame) (p : pc) (e : env) (q : queue)
  : option (completion queue) :=
  match p with
  | AwaitFlock =>
      Some match FileMutex.flock_callback (io_fails e)
                   (Waiter (lock_id k) (Some k)) (mutex q) with
           | Return (m, c :: _) => lock_granted c (uuid e) (set_mutex m q)
           | Return (m, []) => Return (set_mutex m q)
           | Throw x _ => Throw x q
           end
  | AwaitTimer => Some (lock_granted k (uuid e) q)
  | AwaitMkdirp =>
      Some (if io_fails e then
              let err := InternalError "Path could not be created" "mkdirp" in
              ready k (Some err) (uuid e) (set_ready true (Some err) q)
            else
              Return (spawn k AwaitReaddirRunning
                        (set_store (mkdirp (store q))
                                   (set_ready true None q))))
  | AwaitReaddirRunning =>
      Some (match do_readdir e RunningFolder q with
            | None => ready k (Some (SystemError "readdir")) (uuid e) q
            | Some _ => ready k None (uuid e) q
            end)
  | _ => None
  end.

(** [push]: the callbacks of the two [saveTaskToFolder]. *)
Definition resume_push (task : Task.t) (p : pc) (e : env) (q : queue)
  : completion queue :=
  match p with
  | AwaitWrite f name data =>
      match do_write e f name data q with
      | None => push_final task (save_callback true) q
      | Some q' =>
          match f with
          | IdFolder => push_save_pending task q'
          | _ => push_final task None q'
          end
      end
  | _ => Return q
  end.

(** The functions of the waterfall of [checkNextTask] from the seventh
    on, each entered when the one before called [next] without error. *)
Definition check_remove_pending (r : string) (o : nat) (task : Task.t)
    (q : queue) : completion queue :=
  match removeTaskFromFolder task PendingFolder with
  | Some p => Return (spawn (CheckFrame r (Some o)) p q)
  | None => check_final r (Some o) None q
  end.

Definition check_save_running (r : string) (o : nat) (task : Task.t)
    (q : queue) : completion queue :=
  match saveTaskToFolder task RunningFolder with
  | Some p => Return (spawn (CheckFrame r (Some o)) p q)
  | None => check_remove_pending r o task q
  end.

(** The sixth function: the task joins [runningTasks] and becomes
    ['running']. *)
Definition check_set_running (r : string) (parsed : Task.t) (q : queue)
  : completion queue :=
  let o := length (heap q) in
  let task := Task.set_status running parsed in
  let q1 := record (Task.id task) running
              (set_heap (heap q ++ [task])
                        (set_runningTasks (runningTasks q ++ [o]) q)) in
  match saveTaskToFolder task IdFolder with
  | Some p => Return (spawn (CheckFrame r (Some o)) p q1)
  | None => check_save_running r o task q1
  end.

Definition resume_check (r : string) (rt : option nat) (p : pc) (e : env)
    (q : queue) : completion queue :=
  match p with
  | AwaitReaddir =>
      match do_readdir e PendingFolder q with
      | None => check_final r rt (Some (Failed (SystemError "readdir"))) q
      | Some files =>
          match find is_json files with
          | None => check_final r rt (Some AllRun) q
          | Some file => Return (spawn (CheckFrame r rt) (AwaitReadFile file) q)
          end
      end
  | AwaitReadFile file =>
      match do_readFile e PendingFolder file q with
      | None => check_final r rt (Some (Failed (SystemError "readFile"))) q
      | Some Garbage =>
          check_final r rt (Some (Failed (SystemError "JSON.parse"))) q
      | Some (Json parsed) => check_set_running r parsed q
      end
  | AwaitWrite f name data =>
      match rt with
      | None => Return q
      | Some o =>
          match do_write e f name data q, nth_error (heap q) o with
          | Some q', Some task =>
              match f with
              | IdFolder => check_save_running r o task q'
              | _ => check_remove_pending r o task q'
              end
          | Some q', None => Return q'
          | None, _ =>
              match save_callback true with
              | Some x => check_final r rt (Some (Failed x)) q
              | None => Return q
              end
          end
      end
  | AwaitUnlink f name =>
      match do_unlink e f name q with
      | Some q' => check_final r rt None q'
      | None =>
          match remove_callback true with
          | Some x => check_final r rt (Some (Failed x)) q
          | None => Return q
          end
      end
  | _ => Return q
  end.

(** The [errorCode] [runTask] gives to each class of error. *)
Definition errorCode_of (c : error_class) : Z :=
  match c with
  | IsParamError => 400
  | IsProxyError => 503
  | IsOtherError => 500
  end%Z.

(** The callback [runTask] hands to the worker, on the task object. *)
Definition worker_callback (err : option worker_error) (result : jsval)
    (date : string) (task : Task.t) : Task.t :=
  Task.set_dateFinished date
    match err with
    | Some x =>
        Task.set_error (text x) (errorCode_of (class x))
                       (Task.set_status failure task)
    | None =>
        if truthy result
        then Task.set_result result (Task.set_status success task)
        else Task.set_status success task
    end.

(** [_.without(self.runningTasks, task)] *)
Definition without (o : nat) (l : list nat) : list nat :=
  filter (fun x => negb (Nat.eqb x o)) l.

Fixpoint heap_set (o : nat) (task : Task.t) (h : list Task.t) : list Task.t :=
  match h, o with
  | [], _ => []
  | _ :: h', O => task :: h'
  | x :: h', S o' => x :: heap_set o' task h'
  end.

(** [runTask] after the worker has called back: the two steps of the
    bookkeeping, which take no lock. *)
Definition run_remove (o : nat) (task : Task.t) (q : queue) : completion queue :=
  match removeTaskFromFolder task RunningFolder with
  | Some p => Return (spawn (RunFrame o) p q)
  | None => Return (defer_check q)
  end.

Definition run_save (o : nat) (task : Task.t) (q : queue) : completion queue :=
  match saveTaskToFolder task IdFolder with
  | Some p => Return (spawn (RunFrame o) p q)
  | None => run_remove o task q
  end.

Definition resume_run (o : nat) (p : pc) (e : env) (q : queue)
  : completion queue :=
  match nth_error (heap q) o with
  | None => Return q
  | Some task =>
      match p with
      | AwaitDefer => Return (spawn (RunFrame o) AwaitWorker q)
      | AwaitWorker =>
          let task' :=
            worker_callback (worker_err e) (worker_result e) (now e) task in
          run_save o task'
            (record (Task.id task') (Task.status task')
               (set_runningTasks (without o (runningTasks q))
                  (set_heap (heap_set o task' (heap q)) q)))
      | AwaitWrite f name data =>
          match do_write e f name data q with
          | Some q' => run_remove o task q'
          | None => run_remove o task q
          end
      | AwaitUnlink f name =>
          match do_unlink e f name q with
          | Some q' => Return (defer_check q')
          | None => Return (defer_check q)
          end
      | _ => Return q
      end
  end.

Definition resume (k : frame) (p : pc) (e : env) (q : queue)
  : completion queue :=
  match resume_lock k p e q with
  | Some c => c
  | None =>
      match k with
      | StartFrame => Return q
      | PushFrame task => resume_push task p e q
      | CheckFrame r rt => resume_check r rt p e q
      | RunFrame o => resume_run o p e q
      end
  end.

(** An exception that escapes a callback of the event loop ends the
    process. *)
Definition uncaught (c : completion queue) : queue :=
  match c with
  | Return q => q
  | Throw e q => set_crashed (Some e) q
  end.

(** Takes the first request of operation [t] out of the loop. *)
Fixpoint take (t : tid) (l : list (frame * pc))
  : option (frame * pc * list (frame * pc)) :=
  match l with
  | [] => None
  | (k, p) :: l' =>
      if tid_eqb (tid_of k) t then Some (k, p, l')
      else match take t l' with
           | Some (k', p', rest) => Some (k', p', (k, p) :: rest)
           | None => None
           end
  end.

(** The request of operation [t] completes with answer [e]. *)
Definition fire (t : tid) (e : env) (q : queue) : option queue :=
  match crashed q, take t (loop q) with
  | None, Some (k, p, rest) => Some (uncaught (resume k p e (set_loop rest q)))
  | _, _ => None
  end.

(** [TaskQueue.prototype.push]; [uuid] and [date] are what [uuid.v1()] and
    [new Date().toISOString()] answer. *)
Definition push (params : jsval) (uuid date : string) (q : queue)
  : completion queue :=
  if negb (truthy params) then
    Throw (ParamError "Invalid empty build task received") q
  else
    let task :=
      {| Task.id := uuid; Task.params := params; Task.status := pending;
         Task.dateCreated := date; Task.dateFinished := None;
         Task.error := None; Task.errorCode := None; Task.result := None |} in
    lock (PushFrame task)
         (record uuid pending (set_issued (uuid :: issued q) q)).

(** What can happen next: a producer calls [push], a deferred
    [checkNextTask] runs, or a request in flight completes. *)
Inductive event : Type :=
| EvPush (params : jsval) (uuid date : string)
| EvCheck (uuid : string)
| EvFire (t : tid) (e : env).

Definition fresh (uuid : string) (q : queue) : bool :=
  str_truthy uuid && negb (existsb (String.eqb uuid) (issued q)).

(** One event.  [uuid.v1()] never answers the same id twice, an exception
    out of [push] goes to its caller, and nothing happens after a crash. *)
Definition step (q : queue) (ev : event) : option queue :=
  match crashed q with
  | Some _ => None
  | None =>
      match ev with
      | EvPush params u d =>
          if fresh u q then
            match push params u d q with
            | Return q' => Some q'
            | Throw _ q' => Some q'
            end
          else None
      | EvCheck u =>
          match deferred q with
          | O => None
          | S n => Some (uncaught (checkNextTask u (set_deferred n q)))
          end
      | EvFire t e => fire t e q
      end
  end.

Fixpoint run (evs : list event) (q : queue) : option queue :=
  match evs with
  | [] => Some q
  | ev :: evs' =>
      match step q ev with
      | Some q' => run evs' q'
      | None => None
      end
  end.

(** The states an execution can be in: the queue is made on a task folder
    whose pending folder is empty (whatever the index and the running
    folder hold), and any events follow. *)
Definition reachable (n : Z) (q : queue) : Prop :=
  exists d evs, pending_dir d = [] /\ run evs (create n d) = Some q.

(** The statuses a task has been given, oldest first. *)
Fixpoint statuses_of (taskId : string) (h : list (string * job_status))
  : list job_status :=
  match h with
  | [] => []
  | (i, s) :: h' =>
      if String.eqb i taskId then s :: statuses_of taskId h'
      else statuses_of taskId h'
  end.

(** [removeTaskFromFolder] carried through on disk [d], no failure being
    forced by the environment: what its [callback] receives, and the disk
    afterwards. *)
Definition removeTaskFromFolder_on (task : Task.t) (f : folder) (d : disk)
  : option exn * disk :=
  match removeTaskFromFolder task f with
  | Some (AwaitUnlink f' name) =>
      match fs_unlink f' name d with
      | Some d' => (remove_callback false, d')
      | None => (remove_callback true, d)
      end
  | _ => (None, d)
  end.

(** Answers of the environment. *)
Definition fine : env := Env false "" "" None JUndefined.
Definition with_uuid (u : string) : env := Env false u "" None JUndefined.
Definition worker_says (err : option worker_error) (result : jsval)
    (date : string) : env := Env false "" date err result.

(** What an observer sees of a state. *)
Definition index_statuses (q : queue) : list (string * option job_status) :=
  map (fun nc => (fst nc, match snd nc with
                          | Json k => Some (Task.status k)
                          | Garbage => None
                          end)) (id_dir (store q)).

Definition bucket (f : folder) (q : queue) : list string :=
  map fst (get_dir f (store q)).

(** The operations whose worker is running. *)
Definition working (q : queue) : list nat :=
  flat_map (fun kp => match kp with
                      | (RunFrame o, AwaitWorker) => [o]
                      | _ => []
                      end) (loop q).

(** *** The life of a task *)

(** The status changes of a task: from ['pending'] to ['running'], from
    ['running'] to ['success'] or ['failure']; ['running'] may be
    assigned again when the task is picked up a second time after a step
    of the first pick-up failed. *)
Definition allowed (a b : job_status) : bool :=
  match a, b with
  | pending, running | running, running
  | running, success | running, failure => true
  | _, _ => false
  end.

Fixpoint chain (prev : job_status) (l : list job_status) : bool :=
  match l with
  | [] => true
  | s :: l' => allowed prev s && chain s l'
  end.

Definition lifecycle (l : list job_status) : bool :=
  match l with
  | pending :: l' => chain pending l'
  | _ => false
  end.




(** *** Bookkeeping of the operations in progress *)

(** For each task id, the things that stand for "this task is still to be
    run once": a [push] that has yet to put it in the pending folder, its
    file in the pending folder, a [runTask] whose worker has not called
    back, and the terminal status once it has. *)
Definition owed (taskId j : string) : nat :=
  if String.eqb taskId j then 1 else 0.

Definition frame_weight (j : string) (k : frame) : nat :=
  match k with
  | PushFrame task => owed (Task.id task) j
  | _ => 0
  end.

Definition run_weight (h : list Task.t) (j : string) (kp : frame * pc) : nat :=
  match kp with
  | (RunFrame o, AwaitDefer) | (RunFrame o, AwaitWorker) =>
      match nth_error h o with
      | Some task => owed (Task.id task) j
      | None => 0
      end
  | _ => 0
  end.

Definition weight (h : list Task.t) (j : string) (kp : frame * pc) : nat :=
  frame_weight j (fst kp) + run_weight h j kp.

(** The operations that wait in the queue of the mutex. *)
Definition waiting (q : queue) : list frame :=
  flat_map (fun w => match waiter_callback w with
                     | Some k => [k]
                     | None => []
                     end) (FileMutex.queue (mutex q)).

Definition files_named (name : string) (x : dir) : nat :=
  length (filter (fun nc => String.eqb (fst nc) name) x).

Definition ends (j : string) (h : list (string * job_status)) : nat :=
  length (filter terminal (statuses_of j h)).

Definition tokens (j : string) (q : queue) : nat :=
  list_sum (map (weight (heap q) j) (loop q))
  + list_sum (map (frame_weight j) (waiting q))
  + files_named (file_of j) (pending_dir (store q))
  + ends j (history q).

(** What the requests in flight look like. *)
Definition frame_ok (q : queue) (k : frame) : Prop :=
  match k with
  | StartFrame => True
  | PushFrame task => In (Task.id task) (issued q)
  | CheckFrame _ rt => forall o, rt = Some o -> o < length (heap q)
  | RunFrame o => o < length (heap q)
  end.

Definition thread_ok (q : queue) (kp : frame * pc) : Prop :=
  frame_ok q (fst kp) /\
  match kp with
  | (PushFrame task, AwaitWrite f name data) =>
      name = file_of (Task.id task) /\ data = task
  | (CheckFrame _ rt, AwaitWrite f name data) =>
      rt <> None -> f <> PendingFolder
  | (CheckFrame _ rt, AwaitUnlink f name) =>
      f = PendingFolder /\
      exists o task, rt = Some o /\ nth_error (heap q) o = Some task /\
                     name = file_of (Task.id task)
  | (RunFrame _, AwaitWrite f name data) => f <> PendingFolder
  | (RunFrame _, AwaitUnlink f name) => f <> PendingFolder
  | _ => True
  end.

Definition pending_ok (q : queue) : Prop :=
  Forall (fun nc => exists task, snd nc = Json task /\
                                 fst nc = file_of (Task.id task) /\
                                 In (Task.id task) (issued q))
         (pending_dir (store q)).

Definition heap_ok (q : queue) : Prop :=
  Forall (fun task => In (Task.id task) (issued q) /\
                      In running (statuses_of (Task.id task) (history q)))
         (heap q).

Definition history_ok (q : queue) : Prop :=
  Forall (fun j => str_truthy j = true) (issued q) /\
  (forall j s, In (j, s) (history q) -> In j (issued q)) /\
  (forall j, In j (issued q) -> lifecycle (statuses_of j (history q)) = true).

(** The invariant of the queue; [b j] is what the operation being resumed
    still holds for task [j]. *)
Definition inv (b : string -> nat) (q : queue) : Prop :=
  Forall (thread_ok q) (loop q) /\
  Forall (frame_ok q) (waiting q) /\
  pending_ok q /\ heap_ok q /\ history_ok q /\
  forall j, tokens j q + b j <= 1.

Definition nothing (j : string) : nat := 0.

(** *** Scenarios *)

Definition build : jsval := JObj [("name", "build")].

(** A fresh queue starts on an empty task folder: [whenReady] makes the
    folders, the first [checkNextTask] takes the lock, finds nothing
    pending and releases it. *)
Definition startup : list event :=
  [ EvFire TStart fine;                         (* mkdirp done *)
    EvFire TStart (with_uuid "u0");             (* readdir running; check *)
    EvFire (TCheck "runner-u0") fine;           (* flock: runner-u0 owns *)
    EvFire (TCheck "runner-u0") fine ].         (* readdir: none; unlock *)

(** Two pushes in immediate succession with [maxItems = 1]
    (scenario 2 of the specification). *)
Definition two_quick_pushes : list event :=
  startup ++
  [ EvPush build "A" "t1";                      (* push A: flock issued *)
    EvFire (TPush "A") fine;                    (* flock: A owns the lock *)
    EvPush build "B" "t2";                      (* push B: queued behind A *)
    EvFire (TPush "A") fine;                    (* A saved to id *)
    EvFire (TPush "A") fine;                    (* A saved to pending;
                                                   unlock: B owns; defer *)
    EvFire (TPush "B") fine;                    (* timer: B saves to id *)
    EvCheck "u1";                               (* check 1 passes the gate,
                                                   queued behind B *)
    EvFire (TPush "B") fine;                    (* B saved to id *)
    EvFire (TPush "B") fine;                    (* B saved to pending;
                                                   unlock: runner-u1; defer *)
    EvFire (TCheck "runner-u1") fine;           (* timer: readdir issued *)
    EvCheck "u2";                               (* check 2 passes the gate:
                                                   nothing runs yet *)
    EvFire (TCheck "runner-u1") fine;           (* readdir: A.json *)
    EvFire (TCheck "runner-u1") fine;           (* read A: A is running *)
    EvFire (TCheck "runner-u1") fine;           (* A saved to id *)
    EvFire (TCheck "runner-u1") fine;           (* A saved to running *)
    EvFire (TCheck "runner-u1") fine;           (* A out of pending; unlock:
                                                   runner-u2; defer run A *)
    EvFire (TRun 0) fine;                       (* worker of A starts *)
    EvFire (TCheck "runner-u2") fine;           (* timer: readdir issued *)
    EvFire (TCheck "runner-u2") fine;           (* readdir: B.json *)
    EvFire (TCheck "runner-u2") fine;           (* read B: B is running *)
    EvFire (TCheck "runner-u2") fine;           (* B saved to id *)
    EvFire (TCheck "runner-u2") fine;           (* B saved to running *)
    EvFire (TCheck "runner-u2") fine;           (* B out of pending; unlock;
                                                   defer run B *)
    EvFire (TRun 1) fine ].                     (* worker of B starts *)

(** One job pushed, picked up and run until its worker calls back. *)
Definition one_job_until_callback : list event :=
  startup ++
  [ EvPush build "A" "t1";
    EvFire (TPush "A") fine;                    (* flock: A owns the lock *)
    EvFire (TPush "A") fine;                    (* A saved to id *)
    EvFire (TPush "A") fine;                    (* A saved to pending;
                                                   unlock; defer check *)
    EvCheck "u1";                               (* flock issued *)
    EvFire (TCheck "runner-u1") fine;           (* flock: runner-u1 owns *)
    EvFire (TCheck "runner-u1") fine;           (* readdir: A.json *)
    EvFire (TCheck "runner-u1") fine;           (* read A: A is running *)
    EvFire (TCheck "runner-u1") fine;           (* A saved to id *)
    EvFire (TCheck "runner-u1") fine;           (* A saved to running *)
    EvFire (TCheck "runner-u1") fine;           (* A out of pending; unlock *)
    EvFire (TRun 0) fine;                       (* worker of A starts *)
    EvFire (TRun 0) (worker_says None JUndefined "t2") ].
                                                (* worker calls back *)

(** Two pushes in the same turn of the event loop: both [fs.flock]
    requests are issued before either completes. *)
Definition two_pushes_same_turn : list event :=
  startup ++
  [ EvPush build "A" "t1";                      (* flock issued for A *)
    EvPush build "B" "t1";                      (* lockedBy is still null:
                                                   flock issued for B *)
    EvFire (TPush "A") fine;                    (* flock: A owns the lock *)
    EvFire (TPush "B") fine;                    (* flock: B owns the lock *)
    EvFire (TPush "A") fine;                    (* A saved to id *)
    EvFire (TPush "A") fine ].                  (* A saved to pending;
                                                   unlock(A) throws *)

(** What is seen of the lock and the disk. *)
Definition lock_and_disk (q : queue)
  : option string * list (string * option job_status) * list string :=
  (FileMutex.lockedBy (mutex q), index_statuses q, bucket RunningFolder q).

End TaskQueue.

Import TaskQueue.

(** ** Statements used below *)

(** What one call of the in-memory mutex keeps true: the waiters made
    owner so far, followed by those still queued, are the requests in
    arrival order; and the mutex is owned exactly when one more waiter
    was made owner than owners released. *)
Definition mutex_inv {C : Type} (s : Mutex.session C)
    (reqs : list (waiter C)) : Prop :=
  Mutex.granted s ++ Mutex.queue (Mutex.mutex s) = reqs /\
  Forall (fun w => str_truthy (waiter_id w) = true) reqs /\
  match Mutex.lockedBy (Mutex.mutex s) with
  | None =>
      Mutex.queue (Mutex.mutex s) = [] /\
      length (Mutex.granted s) = length (Mutex.released s)
  | Some i =>
      str_truthy i = true /\
      length (Mutex.granted s) = S (length (Mutex.released s))
  end.

(** The objects of [h] are still there in [h'], with the same ids. *)
Definition heap_extends (h h' : list Task.t) : Prop :=
  forall o task, nth_error h o = Some task ->
    exists task', nth_error h' o = Some task' /\ Task.id task' = Task.id task.

(** The state reached by one job pushed, run and called back. *)
Definition after_one_job : queue :=
  match run one_job_until_callback (create 1 empty_disk) with
  | Some q => q
  | None => create 1 empty_disk
  end.


Ltac conj := repeat match goal with |- _ /\ _ => split end.

Ltac qsimpl :=
  cbn [runningTasks heap maxItems initialized error locked mutex store loop
       deferred issued history crashed
       set_runningTasks set_heap set_ready set_locked set_mutex set_store
       set_loop set_deferred set_issued set_history set_crashed
       spawn defer_check record uncaught
       FileMutex.queue FileMutex.lockedBy FileMutex.fd FileMutex.flocked
       FileMutex.enqueue fst snd] in *.

(** ** Programs and views used by the further properties *)

(** Every requester of [ws] asks for the mutex, in order. *)
Definition lock_all {C : Type} (ws : list (waiter C)) : list (Mutex.call C) :=
  map (fun w => Mutex.Lock (waiter_id w) (waiter_callback w)) ws.

(** Every requester of [ws] releases the mutex, in order. *)
Definition unlock_all {C : Type} (ws : list (waiter C)) : list (Mutex.call C) :=
  map (fun w => Mutex.Unlock (waiter_id w)) ws.

(** The callbacks armed for the waiters of [ws]. *)
Definition callbacks {C : Type} (ws : list (waiter C)) : list C :=
  flat_map (fun w => setTimeout0 (Some w)) ws.

(** What a file mutex shares with the in-memory mutex: [lockedBy] and
    [queue]. *)
Definition project {C : Type} (fm : FileMutex.t C) : Mutex.t C :=
  Mutex.Make C (FileMutex.lockedBy fm) (FileMutex.queue fm).

(** The workers at work on the task of id [j]. *)
Definition works_on (q : queue) (j : string) (o : nat) : bool :=
  match nth_error (heap q) o with
  | Some task => String.eqb (Task.id task) j
  | None => false
  end.

Definition workers_on (j : string) (q : queue) : nat :=
  length (filter (works_on q j) (working q)).

(** Opens a hypothesis about one event into the cases of the code. *)
Ltac unfold_queue H :=
  repeat progress
    unfold step, fire, resume, resume_lock, resume_push, resume_check,
      resume_run, lock_granted, whenReady, ready, checkNextTask, push,
      push_final, push_save_pending, push_save_id, check_final,
      check_remove_pending, check_save_running, check_set_running,
      run_remove, run_save, lock, unlock,
      FileMutex.lock, FileMutex.unlock, FileMutex.flock_callback,
      saveTaskToFolder, removeTaskFromFolder, do_write, do_unlink,
      do_readdir, do_readFile, fs_writeFile, fs_unlink, fs_readdir,
      fs_readFile, save_callback, remove_callback, setTimeout0,
      option_map in H.

Ltac break_in H :=
  repeat match type of H with
         | context [match ?x with _ => _ end] =>
             match x with
             | context [match _ with _ => _ end] => fail 1
             | context [if _ then _ else _] => fail 1
             | _ => destruct x eqn:?
             end
         | context [if ?x then _ else _] =>
             match x with
             | context [match _ with _ => _ end] => fail 1
             | context [if _ then _ else _] => fail 1
             | _ => destruct x eqn:?
             end
         end.

Ltac open_step H :=
  unfold_queue H; break_in H; try discriminate H;
  try (injection H as <-).

(** The operations that hold task object [o]: a [checkNextTask] that has
    made it its [runningTask], a [runTask] whose worker has not called
    back. *)
Definition hold0 (o : nat) (k : frame) : nat :=
  match k with
  | CheckFrame _ (Some o') => if Nat.eqb o' o then 1 else 0
  | _ => 0
  end.

Definition hold1 (o : nat) (kp : frame * pc) : nat :=
  match kp with
  | (RunFrame o', AwaitDefer) | (RunFrame o', AwaitWorker) =>
      if Nat.eqb o' o then 1 else 0
  | (k, _) => hold0 o k
  end.

Definition holders (o : nat) (q : queue) : nat :=
  list_sum (map (hold1 o) (loop q)) + list_sum (map (hold0 o) (waiting q)).

(** The operations that refer to task object [o] at all. *)
Definition mention0 (o : nat) (k : frame) : nat :=
  match k with
  | CheckFrame _ (Some o') | RunFrame o' => if Nat.eqb o' o then 1 else 0
  | _ => 0
  end.

Definition mentions (o : nat) (q : queue) : nat :=
  list_sum (map (fun kp => mention0 o (fst kp)) (loop q))
  + list_sum (map (mention0 o) (waiting q)).

(** [runningTasks] lists each object at most once, lists only objects of
    the heap, and lists every object that an operation holds. *)
Definition running_inv (q : queue) : Prop :=
  forall o,
    holders o q <= count_occ Nat.eq_dec (runningTasks q) o /\
    count_occ Nat.eq_dec (runningTasks q) o <= 1 /\
    (1 <= count_occ Nat.eq_dec (runningTasks q) o -> o < length (heap q)).

(** Object [o] is listed in [runningTasks] and no operation refers to
    it. *)
Definition leaked (o : nat) (q : queue) : Prop :=
  In o (runningTasks q) /\ o < length (heap q) /\ mentions o q = 0.

(** The state reached when the first write of a dequeue has failed. *)
Definition after_failed_dequeue : queue :=
  match run (firstn 12 one_job_until_callback
             ++ [EvFire (TCheck "runner-u1") (Env true "" "" None JUndefined)])
            (create 1 empty_disk) with
  | Some q => q
  | None => create 1 empty_disk
  end.

(** The state reached when [mkdirp] has failed. *)
Definition after_failed_mkdirp : queue :=
  match run [EvFire TStart (Env true "" "" None JUndefined)]
            (create 1 empty_disk) with
  | Some q => q
  | None => create 1 empty_disk
  end.



(** The operations that dequeue or run a task. *)
Definition busy0 (k : frame) : nat :=
  match k with
  | CheckFrame _ _ | RunFrame _ => 1
  | _ => 0
  end.

Definition busy (q : queue) : nat :=
  list_sum (map (fun kp => busy0 (fst kp)) (loop q))
  + list_sum (map busy0 (waiting q)).

(** [maxItems] tasks or more are listed in [runningTasks] and no operation
    is there to take one off the list. *)
Definition wedged (q : queue) : Prop :=
  (0 < maxItems q)%Z /\ (maxItems q <= getNbRunningTasks q)%Z /\ busy q = 0.

(** [this.error] is only ever set together with [this.initialized]. *)
Definition ready_ok (q : queue) : Prop :=
  initialized q = false -> error q = None.

(** Rewriting with the equations of the counting functions. *)
Create Rewrite HintDb counting.

Ltac project_queue :=
  cbn [runningTasks heap maxItems initialized error locked mutex store loop
       deferred issued history crashed
       set_runningTasks set_heap set_ready set_locked set_mutex set_store
       set_loop set_deferred set_issued set_history set_crashed
       spawn defer_check record uncaught
       FileMutex.fd FileMutex.lockedBy FileMutex.queue FileMutex.flocked
       FileMutex.enqueue waiter_id waiter_callback] in *.

Ltac tidy :=
  project_queue;
  repeat match goal with
         | H : Some _ = Some _ |- _ => injection H as H
         | H : (_, _) = (_, _) |- _ => injection H as ? ?
         | H : ?x = ?x |- _ => clear H
         | H : ?x = _ |- _ => is_var x; subst x
         | H : _ = ?x |- _ => is_var x; subst x
         | H : _ = _ |- _ => discriminate H
         end;
  project_queue.

(** [L] is the equation of [take] for the function that is summed. *)
Ltac use_take L :=
  repeat match goal with
         | Ht : take _ (loop _) = Some (_, _, _) |- _ =>
             let E := fresh "E" in
             pose proof (L _ _ _ _ _ Ht) as E; revert Ht
         end;
  intros.

Ltac norm :=
  repeat first
    [ progress autorewrite with counting in *
    | progress cbn [map list_sum fold_right flat_map app count_occ
                    length fold_left hold0 hold1 mention0 busy0 fst snd
                    waiter_id waiter_callback] in * ].

Ltac split_frames :=
  repeat match goal with
         | |- context [hold0 _ ?k] => is_var k; destruct k
         | H : context [hold0 _ ?k] |- _ => is_var k; destruct k
         | |- context [hold1 _ (?k, _)] => is_var k; destruct k
         | H : context [hold1 _ (?k, _)] |- _ => is_var k; destruct k
         | |- context [mention0 _ ?k] => is_var k; destruct k
         | H : context [mention0 _ ?k] |- _ => is_var k; destruct k
         | |- context [busy0 ?k] => is_var k; destruct k
         | H : context [busy0 ?k] |- _ => is_var k; destruct k
         end;
  norm;
  repeat match goal with
         | |- context [hold1 _ (_, ?p)] => is_var p; destruct p
         | H : context [hold1 _ (_, ?p)] |- _ => is_var p; destruct p
         | |- context [hold0 _ (CheckFrame _ ?r)] => is_var r; destruct r
         | H : context [hold0 _ (CheckFrame _ ?r)] |- _ => is_var r; destruct r
         | |- context [mention0 _ (CheckFrame _ ?r)] => is_var r; destruct r
         | H : context [mention0 _ (CheckFrame _ ?r)] |- _ =>
             is_var r; destruct r
         end;
  norm.

Ltac split_tests :=
  repeat match goal with
         | |- context [Nat.eqb ?a ?b] => destruct (Nat.eqb_spec a b)
         | H : context [Nat.eqb ?a ?b] |- _ => destruct (Nat.eqb_spec a b)
         | |- context [Nat.eq_dec ?a ?b] => destruct (Nat.eq_dec a b)
         | H : context [Nat.eq_dec ?a ?b] |- _ => destruct (Nat.eq_dec a b)
         end.

(** Closes a case of [step] for a property that counts operations. *)
Ltac count_tac :=
  unfold holders, mentions, busy, waiting, getNbRunningTasks in *;
  project_queue;
  repeat match goal with
         | Hq : FileMutex.queue (mutex ?q) = _ |- _ => rewrite Hq in *; clear Hq
         end;
  repeat match goal with
         | E : list_sum _ = _ |- _ => rewrite E in *; clear E
         end;
  norm;
  repeat match goal with
         | Hw : waiter_callback ?w = _ |- _ => rewrite Hw in *; clear Hw
         end;
  norm; split_frames; split_tests; subst; try lia.

Ltac split_bools :=
  repeat match goal with
         | H : andb _ _ = true |- _ => apply andb_prop in H; destruct H
         | H : andb _ _ = false |- _ =>
             apply andb_false_iff in H; destruct H
         | H : (_ >? _)%Z = true |- _ => rewrite Z.gtb_ltb, Z.ltb_lt in H
         | H : (_ >? _)%Z = false |- _ => rewrite Z.gtb_ltb, Z.ltb_ge in H
         | H : (_ >=? _)%Z = true |- _ => rewrite Z.geb_leb, Z.leb_le in H
         | H : (_ >=? _)%Z = false |- _ => rewrite Z.geb_leb, Z.leb_gt in H
         end.

(** The operations that have been given the lock and have not released
    it: their [fs.flock] has completed, or [unlock] has handed the lock
    over to them. *)
Definition owns (id : string) (kp : frame * pc) : nat :=
  match kp with
  | (StartFrame, _) | (RunFrame _, _) => 0
  | (_, AwaitFlock) => 0
  | (k, _) => if String.eqb (lock_id k) id then 1 else 0
  end.

(** The requests each operation makes: [start] waits on [whenReady]
    only; [push] on the lock, on [whenReady] and on its two writes;
    [checkNextTask] on the lock, on [whenReady] and on its two reads
    before it has a task, on its writes and its removal afterwards;
    [runTask] on the worker, on its write and on its removal. *)
Definition expected (kp : frame * pc) : bool :=
  match kp with
  | (StartFrame, AwaitMkdirp) | (StartFrame, AwaitReaddirRunning) => true
  | (PushFrame _, AwaitFlock) | (PushFrame _, AwaitTimer)
  | (PushFrame _, AwaitMkdirp) | (PushFrame _, AwaitReaddirRunning)
  | (PushFrame _, AwaitWrite _ _ _) => true
  | (CheckFrame _ None, AwaitFlock) | (CheckFrame _ None, AwaitTimer)
  | (CheckFrame _ None, AwaitMkdirp)
  | (CheckFrame _ None, AwaitReaddirRunning)
  | (CheckFrame _ None, AwaitReaddir)
  | (CheckFrame _ None, AwaitReadFile _) => true
  | (CheckFrame _ (Some _), AwaitWrite _ _ _)
  | (CheckFrame _ (Some _), AwaitUnlink _ _) => true
  | (RunFrame _, AwaitDefer) | (RunFrame _, AwaitWorker)
  | (RunFrame _, AwaitWrite _ _ _) | (RunFrame _, AwaitUnlink _ _) => true
  | _ => false
  end.

Definition stray (kp : frame * pc) : nat := if expected kp then 0 else 1.

(** A waiter of the mutex is a [push] or a [checkNextTask] that has no
    task yet, queued under its own id. *)
Definition waiter_okb (w : waiter frame) : bool :=
  match waiter_callback w with
  | Some (PushFrame task) => String.eqb (Task.id task) (waiter_id w)
  | Some (CheckFrame r None) => String.eqb r (waiter_id w)
  | _ => false
  end.

Definition owner_inv (q : queue) : Prop :=
  list_sum (map stray (loop q)) = 0
  /\ forallb waiter_okb (FileMutex.queue (mutex q)) = true
  /\ forall id, FileMutex.lockedBy (mutex q) = Some id ->
                1 <= list_sum (map (owns id) (loop q)).

Ltac owner_norm :=
  repeat first
    [ progress autorewrite with counting in *
    | progress cbn [map list_sum fold_right flat_map app length fold_left
                    owns stray expected forallb fst snd lock_id andb
                    waiter_okb Task.id waiter_id waiter_callback] in * ].

Ltac split_strings :=
  repeat match goal with
         | |- context [String.eqb ?a ?b] => destruct (String.eqb_spec a b)
         | H : context [String.eqb ?a ?b] |- _ =>
             destruct (String.eqb_spec a b)
         end.

(** Reads the hypotheses of a case of [step]: which request has
    completed, who held the lock, who was waiting. *)
Ltac owner_pre :=
  project_queue;
  repeat match goal with
         | Hq : FileMutex.queue (mutex ?q) = _ |- _ => rewrite Hq in *; clear Hq
         end;
  repeat match goal with
         | E : list_sum (map stray _) = _ + _ |- _ => rewrite E in *; clear E
         end;
  owner_norm;
  repeat match goal with
         | H : andb _ _ = true |- _ => apply andb_prop in H; destruct H
         end;
  repeat match goal with
         | Hw : waiter_callback ?w = _, H : waiter_okb ?w = true |- _ =>
             unfold waiter_okb in H; rewrite Hw in H
         end;
  repeat match goal with k : frame |- _ => destruct k end;
  repeat match goal with
         | H : context [CheckFrame _ ?r] |- _ => is_var r; destruct r
         end;
  owner_norm; try discriminate; try lia;
  repeat match goal with
         | H : String.eqb _ _ = true |- _ => apply String.eqb_eq in H
         end;
  unfold owner_differs in *;
  repeat match goal with
         | H : context [match FileMutex.lockedBy (mutex ?q) with _ => _ end]
           |- _ => destruct (FileMutex.lockedBy (mutex q)) eqn:?
         end;
  try discriminate;
  repeat match goal with
         | H : negb _ = false |- _ => apply negb_false_iff in H
         | H : negb _ = true |- _ => apply negb_true_iff in H
         | H : String.eqb _ _ = true |- _ => apply String.eqb_eq in H
         end.

(** The three parts of the invariant after the step; [L] is the equation
    of [take] for sums. *)
Ltac owner_post L :=
  conj;
  [ try lia
  | owner_norm; try assumption; try reflexivity
  | let id := fresh "id" in
    let Hid := fresh "Hid" in
    intros id Hid; use_take (L (owns id));
    repeat match goal with
           | E : list_sum (map (owns _) _) = _ + _ |- _ =>
               rewrite E in *; clear E
           end;
    try discriminate Hid;
    try (injection Hid as Hid);
    try match goal with
        | Ho : forall i, Some ?s = Some i -> _ |- _ =>
            specialize (Ho _ eq_refl)
        end;
    subst; owner_norm; try lia;
    try match goal with
        | Ho : forall i, FileMutex.lockedBy _ = Some i -> _ |- _ =>
            specialize (Ho _ Hid); owner_norm; try lia
        end;
    split_strings; try lia; try congruence ].

(** A request in flight names a task object that exists. *)
Ltac no_such_object L :=
  match goal with
  | Hn : nth_error (heap ?q) ?n = None, HN : running_inv ?q,
    Ht : take _ (loop ?q) = Some _ |- _ =>
      exfalso; apply nth_error_None in Hn;
      let Ha := fresh "Ha" in
      let Hb := fresh "Hb" in
      let Hc := fresh "Hc" in
      destruct (HN n) as (Ha & Hb & Hc); unfold holders in Ha;
      rewrite (L (hold1 n) _ _ _ _ _ Ht) in Ha;
      cbn [hold1 hold0] in Ha; rewrite Nat.eqb_refl in Ha; lia
  end.

(** The task object that [push] makes. *)
Definition pushed (params : jsval) (uuid date : string) : Task.t :=
  {| Task.id := uuid; Task.params := params; Task.status := pending;
     Task.dateCreated := date; Task.dateFinished := None;
     Task.error := None; Task.errorCode := None; Task.result := None |}.

(** The state of a fresh queue once it has started. *)
Definition after_startup : queue :=
  match run startup (create 1 empty_disk) with
  | Some q => q
  | None => create 1 empty_disk
  end.

(** The state in which the worker of the first task is at work. *)
Definition with_worker_at_work : queue :=
  match run (firstn 16 one_job_until_callback) (create 1 empty_disk) with
  | Some q => q
  | None => create 1 empty_disk
  end.

(** The state in which the first [push] holds the lock. *)
Definition push_holds_the_lock : list event :=
  startup ++ [EvPush build "A" "t1"; EvFire (TPush "A") fine].

Definition while_push_holds_the_lock : queue :=
  match run push_holds_the_lock (create 1 empty_disk) with
  | Some q => q
  | None => create 1 empty_disk
  end.

(** A second task is pushed after the dequeue of the first has failed,
    and the check it defers runs. *)
Definition push_after_failed_dequeue : list event :=
  [ EvPush build "B" "t2";
    EvFire (TPush "B") fine;
    EvFire (TPush "B") fine;
    EvFire (TPush "B") fine;
    EvCheck "u2" ].

Definition after_failed_dequeue_and_push : queue :=
  match run push_after_failed_dequeue after_failed_dequeue with
  | Some q => q
  | None => after_failed_dequeue
  end.

(** The state after one [push] has ended. *)
Definition one_push : list event :=
  startup ++
  [ EvPush build "A" "t1";
    EvFire (TPush "A") fine;
    EvFire (TPush "A") fine;
    EvFire (TPush "A") fine ].

Definition after_one_push : queue :=
  match run one_push (create 1 empty_disk) with
  | Some q => q
  | None => create 1 empty_disk
  end.

(** A task folder whose pending folder holds a file that is not JSON; the
    queue starts on it, reads the file and gives up; then a task is
    pushed. *)
Definition garbage_disk : disk :=
  {| folders_exist := true; id_dir := [];
     pending_dir := [("x.json", Garbage)]; running_dir := [] |}.

Definition push_behind_garbage : list event :=
  startup ++
  [ EvFire (TCheck "runner-u0") fine;
    EvPush build "B" "t1";
    EvFire (TPush "B") fine;
    EvFire (TPush "B") fine;
    EvFire (TPush "B") fine ].

Definition behind_garbage : queue :=
  match run push_behind_garbage (create 1 garbage_disk) with
  | Some q => q
  | None => create 1 garbage_disk
  end.

(** Two tasks are pushed one after the other, and the two [checkNextTask]
    they have deferred run in the same turn of the event loop: both pass
    the test of [maxItems], both are given the lock by [fs.flock], and
    both read the file of task A.  The second goes on to the end, the
    worker of A succeeds and the outcome is written to the index; then the
    write to the index of the first, issued when it made A ['running'],
    completes. *)
Definition racing_dequeues : list event :=
  startup ++
  [ EvPush build "A" "t1";
    EvFire (TPush "A") fine;                    (* flock: A owns the lock *)
    EvFire (TPush "A") fine;                    (* A saved to id *)
    EvFire (TPush "A") fine;                    (* A saved to pending *)
    EvPush build "B" "t2";
    EvFire (TPush "B") fine;                    (* flock: B owns the lock *)
    EvFire (TPush "B") fine;                    (* B saved to id *)
    EvFire (TPush "B") fine;                    (* B saved to pending *)
    EvCheck "u1";                               (* flock issued *)
    EvCheck "u2";                               (* flock issued *)
    EvFire (TCheck "runner-u1") fine;           (* flock: runner-u1 owns *)
    EvFire (TCheck "runner-u2") fine;           (* flock: runner-u2 owns *)
    EvFire (TCheck "runner-u1") fine;           (* readdir: A.json *)
    EvFire (TCheck "runner-u2") fine;           (* readdir: A.json *)
    EvFire (TCheck "runner-u1") fine;           (* read A: object 0 running;
                                                   write to id issued *)
    EvFire (TCheck "runner-u2") fine;           (* read A: object 1 running *)
    EvFire (TCheck "runner-u2") fine;           (* object 1 saved to id *)
    EvFire (TCheck "runner-u2") fine;           (* saved to running *)
    EvFire (TCheck "runner-u2") fine;           (* out of pending; unlock *)
    EvFire (TRun 1) fine;                       (* worker of A starts *)
    EvFire (TRun 1) (worker_says None JUndefined "t3");
                                                (* worker calls back *)
    EvFire (TRun 1) fine;                       (* success saved to id *)
    EvFire (TCheck "runner-u1") fine ].         (* object 0 saved to id *)

(** ** lib/gitaction.js: the worker *)

Module GitAction.

(** [action.name]: [None] is [undefined]. *)
Definition field (name : string) (action : jsval) : option string :=
  match action with
  | JObj fields =>
      option_map snd (find (fun nv => String.eqb (fst nv) name) fields)
  | _ => None
  end.

(** [if (x)] on a field. *)
Definition given (x : option string) : bool :=
  match x with
  | Some s => str_truthy s
  | None => false
  end.

(** [x || d] *)
Definition or_else (x : option string) (d : string) : string :=
  match x with
  | Some s => if str_truthy s then s else d
  | None => d
  end.

(** The errors the worker hands to its callback; the second argument of
    [InternalError] is the exit code, [null] for a script that was
    killed. *)
Inductive error : Type :=
| ParamErr (message : string)
| InternalErr (message : string) (code : option Z).

(** What [instanceof] and [toString] make of them in [runTask]:
    [BaseError] inherits [Error.prototype.toString], which answers the
    name and the message. *)
Definition to_worker_error (e : error) : worker_error :=
  match e with
  | ParamErr m => WorkerError IsParamError ("parameter error: " ^^ m)
  | InternalErr m _ => WorkerError IsOtherError ("internal error: " ^^ m)
  end.

(** ['' + action.privatekey] *)
Definition show_key (x : option string) : string :=
  match x with
  | Some s => s
  | None => "undefined"
  end.

(** The start of the worker: it calls back at once, or an exception
    escapes it, or it spawns [lib/gitaction.sh] with these arguments and
    with [GIT_SSH] set to [path.resolve(__dirname, ...)] of these
    strings. *)
Inductive started : Type :=
| Refused (e : error)
| Threw (e : exn)
| Spawned (args : list string) (git_ssh : list string).

(** [path.resolve] throws on an argument that is not a string. *)
Definition not_a_string : exn :=
  TypeError "Arguments to path.resolve must be strings".

Definition start (action : jsval) : started :=
  let branch := or_else (field "branch" action) "master" in
  match field "origin" action with
  | None =>
      Refused (ParamErr
        "The origin of the Git repository to clone must be specified")
  | Some origin =>
      if negb (str_truthy origin) then
        Refused (ParamErr
          "The origin of the Git repository to clone must be specified")
      else
        match field "script" action with
        | None => Refused (ParamErr "No action script to run")
        | Some script =>
            if negb (str_truthy script) then
              Refused (ParamErr "No action script to run")
            else
              let args :=
                [origin;
                 or_else (field "dataFolder" action) "data";
                 branch;
                 script;
                 match field "check" action with
                 | Some check =>
                     if str_truthy check then " " ^^ check else ""
                 | None => ""
                 end] in
              if given (field "privatekey" action) then
                match field "dataFolder" action with
                | None => Threw not_a_string
                | Some dataFolder =>
                    Spawned args
                      [".."; dataFolder; "deploykeys";
                       "ssh-" ^^ show_key (field "privatekey" action)
                       ^^ ".sh"]
                end
              else Spawned args ["ssh-noprompt.sh"]
        end
  end.

Inductive stream : Type := Stdout | Stderr.

Definition stream_name (t : stream) : string :=
  match t with
  | Stdout => "stdout"
  | Stderr => "stderr"
  end.

Definition newline : ascii := "010"%char.

(** [str.split('\n')]: at least one string. *)
Fixpoint split_lines (s : string) : list string :=
  match s with
  | EmptyString => [""]
  | String c rest =>
      if Ascii.eqb c newline then "" :: split_lines rest
      else
        match split_lines rest with
        | l :: ls => String c l :: ls
        | [] => [String c ""]
        end
  end.

(** The variables of the closure: the two fragments ([None] is [null])
    and what went to the logger. *)
Record state : Type := State {
  outFragment : option string;
  errFragment : option string;
  logged : list (string * string)
}.

Definition init : state :=
  {| outFragment := Some ""; errFragment := Some ""; logged := [] |}.

Definition fragment_of (t : stream) (st : state) : option string :=
  match t with
  | Stdout => outFragment st
  | Stderr => errFragment st
  end.

Definition set_fragment (t : stream) (x : option string) (st : state)
  : state :=
  match t with
  | Stdout => {| outFragment := x; errFragment := errFragment st;
                 logged := logged st |}
  | Stderr => {| outFragment := outFragment st; errFragment := x;
                 logged := logged st |}
  end.

Definition log_line (label line : string) (st : state) : state :=
  {| outFragment := outFragment st; errFragment := errFragment st;
     logged := logged st ++ [(label, line)] |}.

(** ['' + x] for a string or [null]. *)
Definition show (x : option string) : string :=
  match x with
  | Some s => s
  | None => "null"
  end.

Section WithTrim.

(** [s.replace(/\s+$/g, '')] *)
Variable rtrim : string -> string.

(** The [while] loop of the data handler and the assignment after it:
    every line but the last goes to the logger, the last is kept. *)
Fixpoint log_all_but_last (t : stream) (lines : list string) (st : state)
  : state :=
  match lines with
  | [] => st
  | [l] => set_fragment t (Some l) st
  | l :: rest =>
      log_all_but_last t rest
        (log_line (stream_name t ^^ " |") (rtrim l) st)
  end.

(** The function [log(type)] answers, for the [fragment] it has read. *)
Definition on_data (fragment : string) (t : stream) (data : string)
    (st : state) : state :=
  let lines := split_lines (fragment ^^ data) in
  match lines with
  | [l] => set_fragment t (Some l) st
  | _ => log_all_but_last t lines st
  end.

(** [log(type)]: [fragment] is read when the handler is made, from the
    state at that time. *)
Definition log (t : stream) (made_in : state) : string -> state -> state :=
  on_data (show (fragment_of t made_in)) t.

(** The handlers are made right after the fragments are set to [''];
    [feed] hands them the chunks the script writes. *)
Definition feed (chunks : list (stream * string)) : state :=
  fold_left (fun st tc => log (fst tc) init (snd tc) st) chunks init.

(** The function given to [script.on('close', ...)]: what it hands to
    [callback], or what it throws. *)
Definition on_close (code : option Z) (st : state)
  : completion (state * option error) :=
  let st1 :=
    if given (outFragment st)
    then set_fragment Stdout None
           (log_line "stdout |" (rtrim (show (outFragment st))) st)
    else st in
  let finish (st2 : state) : completion (state * option error) :=
    match code with
    | None =>
        Return (st2, Some (InternalErr "git action script got killed" None))
    | Some c =>
        if negb (Z.eqb c 0) then
          Return (st2, Some (InternalErr
                               "git action script reported an error"
                               (Some c)))
        else Return (st2, None)
    end in
  if given (errFragment st1) then
    match outFragment st1 with
    | None =>
        Throw (TypeError "Cannot read property 'replace' of null")
              (st1, None)
    | Some out =>
        finish (set_fragment Stderr None
                  (log_line "stderr |" (rtrim out) st1))
    end
  else finish st1.

(** The worker from its call to its callback, for a script that writes
    [chunks] and closes with [code]. *)
Definition gitaction (action : jsval) (chunks : list (stream * string))
    (code : option Z) : completion (state * option error) :=
  match start action with
  | Refused e => Return (init, Some e)
  | Threw e => Throw e (init, None)
  | Spawned _ _ => on_close code (feed chunks)
  end.

End WithTrim.

(** The text a stream ends with: what follows the last line feed of its
    last chunk. *)
Definition tail_of (t : stream) (chunks : list (stream * string)) : string :=
  fold_left (fun acc tc =>
               match t, fst tc with
               | Stdout, Stdout | Stderr, Stderr =>
                   last (split_lines (snd tc)) ""
               | _, _ => acc
               end) chunks "".

(** The lines of one chunk that end in a line feed. *)
Definition whole_lines (rtrim : string -> string) (tc : stream * string)
  : list (string * string) :=
  map (fun l => (stream_name (fst tc) ^^ " |", rtrim l))
      (removelast (split_lines (snd tc))).

End GitAction.

(** The operations that take the lock under the id [u]: the [push] of
    the task with that id, a [checkNextTask] whose runner has that id. *)
Definition named (u : string) (k : frame) : nat :=
  match k with
  | PushFrame task => if String.eqb (Task.id task) u then 1 else 0
  | CheckFrame r _ => if String.eqb r u then 1 else 0
  | _ => 0
  end.

(** The writes in flight of the [push] of the task with id [u]. *)
Definition writing (u : string) (kp : frame * pc) : nat :=
  match kp with
  | (PushFrame task, AwaitWrite _ _ _) =>
      if String.eqb (Task.id task) u then 1 else 0
  | _ => 0
  end.

(** The requests queued in the mutex under the id [u]. *)
Definition queued_as (u : string) (w : waiter frame) : nat :=
  if String.eqb (waiter_id w) u then 1 else 0.

(** The [push] of task [u] has been given the lock and is at one of its
    two writes, no other operation goes under its id, and the mutex says
    that it is not the owner: someone else has been given the lock
    since. *)
Definition overtaken (u : string) (q : queue) : Prop :=
  list_sum (map (fun kp => named u (fst kp)) (loop q)) = 1 /\
  list_sum (map (writing u) (loop q)) = 1 /\
  list_sum (map (named u) (waiting q)) = 0 /\
  list_sum (map (queued_as u) (FileMutex.queue (mutex q))) = 0 /\
  owner_differs (FileMutex.lockedBy (mutex q)) u = true /\
  existsb (String.eqb u) (issued q) = true.

Ltac over_norm :=
  repeat first
    [ progress autorewrite with counting in *
    | progress change (list_sum (@nil nat)) with 0 in *
    | progress cbn [map flat_map app length fold_left
                    named writing fst snd lock_id
                    existsb Task.id waiter_id waiter_callback] in * ].

(** Closes a case of [step] for [overtaken u]; [Lf] says that a fresh id
    is not [u], [Lw] that the writes of [u] are among the operations
    named [u]. *)
Ltac over_tac u Lf Lw :=
  unfold waiting in *;
  project_queue;
  try (intros; discriminate);
  repeat match goal with
         | Hq : FileMutex.queue (mutex ?q) = _ |- _ => rewrite Hq in *; clear Hq
         end;
  repeat match goal with
         | E : list_sum _ = _ + _ |- _ => rewrite E in *; clear E
         end;
  over_norm;
  repeat match goal with
         | Hw : waiter_callback ?w = _ |- _ => rewrite Hw in *; clear Hw
         end;
  over_norm;
  repeat match goal with
         | Hf : fresh ?a ?q = true, Hi : existsb _ (issued ?q) = true |- _ =>
             let Hn := fresh "Hn" in
             pose proof (Lf a u q Hf Hi) as Hn; clear Hf
         end;
  repeat match goal with
         | l : list (frame * pc) |- _ =>
             lazymatch goal with
             | _ : list_sum (map (writing u) l) <= _ |- _ => fail
             | _ => pose proof (Lw u l)
             end
         end;
  repeat match goal with
         | |- context [named _ ?k] => is_var k; destruct k
         | H : context [named _ ?k] |- _ => is_var k; destruct k
         | |- context [writing _ (?k, _)] => is_var k; destruct k
         | H : context [writing _ (?k, _)] |- _ => is_var k; destruct k
         end;
  over_norm;
  unfold owner_differs in *;
  repeat match goal with
         | H : context [match FileMutex.lockedBy (mutex ?q) with _ => _ end]
           |- _ => destruct (FileMutex.lockedBy (mutex q)) eqn:?
         | |- context [match FileMutex.lockedBy (mutex ?q) with _ => _ end]
           => destruct (FileMutex.lockedBy (mutex q)) eqn:?
         end;
  repeat match goal with
         | |- context [queued_as ?a ?w] =>
             change (queued_as a w)
               with (if String.eqb (waiter_id w) a then 1 else 0)
         | H : context [queued_as ?a ?w] |- _ =>
             change (queued_as a w)
               with (if String.eqb (waiter_id w) a then 1 else 0) in H
         end;
  over_norm;
  split_strings; subst;
  cbn [negb orb andb] in *;
  try discriminate; try congruence;
  try (exfalso;
       match goal with
       | Hr : forall x, _ <> _ |- _ => eapply Hr; simpl; reflexivity
       end);
  try match goal with
      | H : str_truthy "" = true |- _ => discriminate H
      end;
  intros; conj; try reflexivity; try lia; try congruence.

(** * Properties *)

(** ** The mutexes *)

Section MutexFacts.
Context {C : Type}.

Lemma owner_differs_true (o : option string) (id : string) :
  o <> Some id -> owner_differs o id = true.
Proof.
  destruct o as [s|]; simpl; [|reflexivity].
  intros H. destruct (String.eqb_spec s id) as [->|]; [|reflexivity].
  now elim H.
Qed.


Lemma mutex_inv_step (s : Mutex.session C) reqs c :
  mutex_inv s reqs ->
  Mutex.ids_truthy [c] ->
  mutex_inv (Mutex.step s c) (reqs ++ Mutex.requests [c]).
Proof.
  destruct s as [[o qu] g r tm]. unfold mutex_inv. simpl.
  intros (Hfifo & Hall & Hown) Hid. destruct c as [id cb|id].
  - (* lock: queued behind the owner, or made owner of a free mutex *)
    assert (Hall' : Forall (fun w => str_truthy (waiter_id w) = true)
                           (reqs ++ [Waiter id cb]))
      by (apply Forall_app; split; assumption).
    apply Forall_inv in Hid. simpl in Hid.
    unfold Mutex.step, Mutex.lock, Mutex.held. simpl.
    destruct o as [i|].
    + destruct Hown as [Hi Hlen]. rewrite Hi. simpl. rewrite app_nil_r.
      repeat split; try assumption. now rewrite app_assoc, Hfifo.
    + destruct Hown as [-> Hlen]. simpl. rewrite app_nil_r in *.
      repeat split; try assumption; [now rewrite Hfifo|].
      rewrite length_app. simpl. lia.
  - (* unlock: refused, or the head of the queue becomes the owner *)
    simpl. rewrite app_nil_r. unfold Mutex.step, Mutex.unlock. simpl.
    destruct (owner_differs o id) eqn:Hd; simpl.
    + repeat split; assumption.
    + destruct o as [i|]; [|discriminate]. destruct Hown as [Hi Hlen].
      destruct qu as [|w rest]; simpl.
      * rewrite !app_nil_r in *. repeat split; try assumption.
        rewrite length_app. simpl. lia.
      * repeat split; try assumption.
        -- now rewrite <- app_assoc.
        -- rewrite <- Hfifo in Hall. apply Forall_app in Hall.
           destruct Hall as [_ Hq]. now apply Forall_inv in Hq.
        -- rewrite !length_app. simpl. lia.
Qed.

Lemma mutex_inv_run (cs : list (Mutex.call C)) :
  forall s reqs,
    mutex_inv s reqs -> Mutex.ids_truthy cs ->
    mutex_inv (fold_left Mutex.step cs s) (reqs ++ Mutex.requests cs).
Proof.
  induction cs as [|c cs IH]; intros s reqs Hinv Hids.
  - simpl. now rewrite app_nil_r.
  - cbn [fold_left]. assert (Hc : Mutex.ids_truthy [c] /\ Mutex.ids_truthy cs).
    { unfold Mutex.ids_truthy in *. destruct c; simpl in *.
      - inversion Hids; subst. split; [constructor; [assumption|constructor]|assumption].
      - split; [constructor|assumption]. }
    destruct Hc as [Hc Hcs].
    replace (reqs ++ Mutex.requests (c :: cs))
      with ((reqs ++ Mutex.requests [c]) ++ Mutex.requests cs).
    + apply IH; [|assumption]. now apply mutex_inv_step.
    + rewrite <- app_assoc. f_equal. now destruct c.
Qed.

(** In-memory mutex, for programs whose ids are non-empty strings: the
    owners are made in the order the requests arrived, and at most one
    owner is active at any time. *)
Lemma Mutex_fifo_and_exclusive (cs : list (Mutex.call C)) :
  Mutex.ids_truthy cs ->
  Mutex.granted (Mutex.run cs) ++ Mutex.queue (Mutex.mutex (Mutex.run cs))
    = Mutex.requests cs
  /\ Mutex.active (Mutex.run cs) <= 1.
Proof.
  intros Hids.
  destruct (mutex_inv_run cs Mutex.start [] ) as (Hfifo & _ & Hown);
    [repeat split; constructor|assumption|].
  split; [exact Hfifo|]. unfold Mutex.active, Mutex.run.
  destruct (Mutex.lockedBy _); destruct Hown as [_ Hlen]; lia.
Qed.
End MutexFacts.

(** C4 (fails on the file mutex).  Two [lock] calls that both arrive while
    [lockedBy] is still [null] each issue an [fs.flock] on the same
    descriptor; when both requests succeed, both callbacks are called with
    no [unlock] in between: two owners are active at once, [lockedBy] only
    remembers the second, and the [unlock] of the first throws. *)
Theorem FileMutex_two_owners_at_once :
  let s := FileMutex.run [FileMutex.Lock "a" (Some "callback of a");
                          FileMutex.Lock "b" (Some "callback of b");
                          FileMutex.FlockDone false 0;
                          FileMutex.FlockDone false 0] in
  map waiter_id (FileMutex.granted s) = ["a"; "b"] /\
  FileMutex.called s = ["callback of a"; "callback of b"] /\
  FileMutex.released s = [] /\
  FileMutex.active s = 2 /\
  FileMutex.lockedBy (FileMutex.mutex s) = Some "b" /\
  FileMutex.thrown (FileMutex.step s (FileMutex.Unlock "a"))
    = [InternalError
         "Mutex has been locked by someone else and cannot be unlocked"
         "id=a, lockedBy=b"].
Proof. vm_compute. repeat split. Qed.

(** On the file mutex, [unlock] gives up the advisory lock before it
    hands [lockedBy] to the next waiter, and nothing takes it again: the
    new owner runs without the [flock]. *)
Lemma FileMutex_handover_without_flock :
  let s := FileMutex.run [FileMutex.Lock "a" (Some "callback of a");
                          FileMutex.FlockDone false 0;
                          FileMutex.Lock "b" (Some "callback of b");
                          FileMutex.Unlock "a"] in
  FileMutex.lockedBy (FileMutex.mutex s) = Some "b" /\
  map waiter_id (FileMutex.granted s) = ["a"; "b"] /\
  FileMutex.inflight s = [] /\
  FileMutex.flocked (FileMutex.mutex s) = false.
Proof. vm_compute. repeat split. Qed.

(** C5.  [unlock(id)] by anyone but the owner, on either mutex, throws an
    [InternalError] and leaves the mutex as it was: same owner, same
    queue, nobody made owner. *)
Theorem unlock_by_non_owner_throws (C : Type) (id : string)
    (m : Mutex.t C) (fm : FileMutex.t C) :
  Mutex.lockedBy m <> Some id ->
  FileMutex.lockedBy fm <> Some id ->
  Mutex.unlock id m
    = Throw (InternalError
               "Mutex has been locked by someone else and cannot be unlocked"
               ("id=" ^^ id ^^ ", lockedBy=" ^^ show_owner (Mutex.lockedBy m)))
            (m, None)
  /\ FileMutex.unlock id fm
    = Throw (InternalError
               "Mutex has been locked by someone else and cannot be unlocked"
               ("id=" ^^ id ^^ ", lockedBy="
                  ^^ show_owner (FileMutex.lockedBy fm)))
            (fm, None).
Proof.
  intros Hm Hfm. unfold Mutex.unlock, FileMutex.unlock.
  rewrite (owner_differs_true _ _ Hm), (owner_differs_true _ _ Hfm).
  split; reflexivity.
Qed.

(** C9, as amended.  A [lock] by the owner that already holds the mutex is
    not an error, but it is queued like any other request: nobody is made
    owner by the call, no callback is armed, and the request is served
    only when an [unlock] reaches it in the queue. *)
Theorem reentrant_lock_is_queued (C : Type) (id : string) (cb : option C)
    (m : Mutex.t C) (fm : FileMutex.t C) (openSync : option nat) :
  str_truthy id = true ->
  Mutex.lockedBy m = Some id ->
  FileMutex.lockedBy fm = Some id ->
  Mutex.lock id cb m
    = ({| Mutex.lockedBy := Some id;
          Mutex.queue := Mutex.queue m ++ [Waiter id cb] |}, None)
  /\ FileMutex.lock openSync id cb fm
    = Return (FileMutex.enqueue (Waiter id cb) fm, None)
  /\ (Mutex.queue m = [] ->
      Mutex.unlock id (fst (Mutex.lock id cb m))
        = Return ({| Mutex.lockedBy := Some id; Mutex.queue := [] |},
                  Some (Waiter id cb)))
  /\ (FileMutex.queue fm = [] ->
      FileMutex.unlock id (FileMutex.enqueue (Waiter id cb) fm)
        = Return ({| FileMutex.fd := FileMutex.fd fm;
                     FileMutex.lockedBy := Some id;
                     FileMutex.queue := [];
                     FileMutex.flocked := false |},
                  Some (Waiter id cb))).
Proof.
  intros Hid Hm Hfm.
  unfold Mutex.lock, Mutex.held, FileMutex.lock, FileMutex.held,
    Mutex.unlock, FileMutex.unlock, FileMutex.enqueue.
  rewrite Hm, Hfm, Hid. simpl. rewrite String.eqb_refl. simpl.
  repeat split; intros ->; reflexivity.
Qed.


(** ** The task queue: the operations one by one *)

(** The gate of [checkNextTask]: with [maxItems > 0] and that many tasks
    in [runningTasks], the call changes nothing. *)
Lemma checkNextTask_noop_at_cap (u : string) (q : queue) :
  (0 < maxItems q)%Z ->
  (maxItems q <= getNbRunningTasks q)%Z ->
  checkNextTask u q = Return q.
Proof.
  intros Hpos Hcap. unfold checkNextTask.
  replace (maxItems q >? 0)%Z with true by (symmetry; now apply Z.gtb_lt).
  replace (getNbRunningTasks q >=? maxItems q)%Z with true
    by (symmetry; apply Z.geb_le; lia).
  reflexivity.
Qed.

(** [runTask] never takes the lock: none of its steps touches the mutex,
    and none of them throws. *)
Lemma runTask_takes_no_lock (o : nat) (p : pc) (e : env) (q : queue) :
  exists q', resume_run o p e q = Return q' /\ mutex q' = mutex q.
Proof.
  unfold resume_run, run_save, run_remove, do_write, do_unlink,
    saveTaskToFolder, removeTaskFromFolder.
  destruct (nth_error (heap q) o) as [task|];
    [|eexists; split; reflexivity].
  destruct p; simpl;
    repeat match goal with
           | |- context [if ?b then _ else _] => destruct b; simpl
           | |- context [fs_writeFile ?a ?b ?c ?d] =>
               destruct (fs_writeFile a b c d); simpl
           | |- context [fs_unlink ?a ?b ?c] =>
               destruct (fs_unlink a b c); simpl
           end; eexists; split; reflexivity.
Qed.

(** C1 (fails on the code).  Two pushes in immediate succession on a queue
    with [maxItems = 1]: the second [checkNextTask] passes the gate while
    the first, which holds the lock, has not yet put its task in
    [runningTasks]; each then starts a job.  Two jobs are running at once:
    both are in [runningTasks], both workers are at work, and the index
    and the running folder show both as running. *)
Theorem two_jobs_running_with_maxItems_1 :
  option_map (fun q => (maxItems q, runningTasks q, working q,
                        index_statuses q, bucket RunningFolder q,
                        crashed q))
             (run two_quick_pushes (create 1 empty_disk))
  = Some (1%Z, [0; 1], [0; 1],
          [("A.json", Some running); ("B.json", Some running)],
          ["A.json"; "B.json"], None).
Proof. vm_compute. reflexivity. Qed.

(** C2 (fails on the code).  When the worker of a job calls back, [runTask]
    writes the job to the index and removes it from the running folder
    without taking the lock: nobody owns the mutex when the write is
    issued, when it lands, or when the removal lands. *)
Theorem runTask_writes_without_the_lock :
  option_map lock_and_disk
    (run one_job_until_callback (create 1 empty_disk))
  = Some (None, [("A.json", Some running)], ["A.json"])
  /\ option_map lock_and_disk
       (run (one_job_until_callback ++ [EvFire (TRun 0) fine])
            (create 1 empty_disk))
     = Some (None, [("A.json", Some success)], ["A.json"])
  /\ option_map lock_and_disk
       (run (one_job_until_callback
               ++ [EvFire (TRun 0) fine; EvFire (TRun 0) fine])
            (create 1 empty_disk))
     = Some (None, [("A.json", Some success)], []).
Proof. vm_compute. repeat split. Qed.

(** The same defect as C4, seen from the queue: two pushes in one turn
    of the event loop both take the lock, and the [unlock] of the first
    throws out of its callback. *)
Lemma two_pushes_same_turn_crash :
  option_map (fun q => (crashed q, bucket PendingFolder q))
             (run two_pushes_same_turn (create 1 empty_disk))
  = Some (Some (InternalError
                  "Mutex has been locked by someone else and cannot be unlocked"
                  "id=A, lockedBy=B"),
          ["A.json"]).
Proof. vm_compute. reflexivity. Qed.

(** C6.  [push] with [null] or [undefined] for [params] throws a
    [ParamError] to its caller and leaves the queue, the disk and the
    event loop exactly as they were: no task is made, nothing is written,
    nothing is scheduled. *)
Theorem push_without_params_throws (q : queue) (u date : string) :
  push JNull u date q
    = Throw (ParamError "Invalid empty build task received") q
  /\ push JUndefined u date q
    = Throw (ParamError "Invalid empty build task received") q.
Proof. split; reflexivity. Qed.

Lemma heap_set_same (h : list Task.t) :
  forall o task, o < length h -> nth_error (heap_set o task h) o = Some task.
Proof.
  induction h as [|x h IH]; intros o task Ho; simpl in *; [lia|].
  destruct o; simpl; [reflexivity|]. apply IH. lia.
Qed.


Lemma removeTaskFromFolder_on_unlink (task : Task.t) (f : folder) (d : disk) :
  str_truthy (Task.id task) = true ->
  removeTaskFromFolder_on task f d
  = match fs_unlink f (file_of (Task.id task)) d with
    | Some d' => (None, d')
    | None => (Some (InternalError "Could not save task to file" "unlink"), d)
    end.
Proof.
  intros Hid. unfold removeTaskFromFolder_on, removeTaskFromFolder.
  rewrite Hid. now destruct (fs_unlink f (file_of (Task.id task)) d).
Qed.

(** C8, as amended.  For a task with an id, [removeTaskFromFolder] hands
    an [InternalError] to its callback, and leaves the disk as it is, when
    the file of the task is not in the folder: a missing file is an error;
    it hands no error when the file was there, which it deletes. *)
Theorem remove_of_missing_file_is_an_error (task : Task.t) (f : folder)
    (d : disk) :
  str_truthy (Task.id task) = true ->
  removeTaskFromFolder_on task f d
  = match dir_lookup (file_of (Task.id task)) (get_dir f d) with
    | None =>
        (Some (InternalError "Could not save task to file" "unlink"), d)
    | Some _ =>
        (None,
         set_dir f (dir_remove (file_of (Task.id task)) (get_dir f d)) d)
    end.
Proof.
  intros Hid. rewrite removeTaskFromFolder_on_unlink by assumption.
  unfold fs_unlink. now destruct (dir_lookup _ _).
Qed.

(** A task without id is left alone, and no error is handed over. *)
Lemma remove_without_id (task : Task.t) (f : folder) (d : disk) :
  str_truthy (Task.id task) = false ->
  removeTaskFromFolder_on task f d = (None, d).
Proof.
  intros Hid. unfold removeTaskFromFolder_on, removeTaskFromFolder.
  now rewrite Hid.
Qed.

(** ** The task queue: every execution *)

(** *** Strings, lists and statuses *)

Lemma length_append (a s : string) :
  String.length (a ^^ s) = String.length a + String.length s.
Proof. induction a as [|c a IH]; simpl; [reflexivity|now rewrite IH]. Qed.

Lemma append_inj_l (s : string) :
  forall a b, a ^^ s = b ^^ s -> a = b.
Proof.
  induction a as [|c a IH]; intros b H; destruct b as [|c' b]; simpl in H.
  - reflexivity.
  - apply (f_equal String.length) in H. simpl in H.
    rewrite length_append in H. lia.
  - apply (f_equal String.length) in H. simpl in H.
    rewrite length_append in H. lia.
  - injection H as -> H. f_equal. now apply IH.
Qed.

Lemma file_of_inj (a b : string) : file_of a = file_of b -> a = b.
Proof. apply append_inj_l. Qed.

Lemma file_of_eqb (a b : string) :
  String.eqb (file_of a) (file_of b) = String.eqb a b.
Proof.
  destruct (String.eqb_spec a b) as [->|Hne].
  - apply String.eqb_refl.
  - apply String.eqb_neq. intros H. now apply Hne, file_of_inj.
Qed.

Lemma owed_le (a j : string) : owed a j <= 1.
Proof. unfold owed. destruct (String.eqb a j); lia. Qed.

Lemma list_sum_snoc (A : Type) (f : A -> nat) (l : list A) (x : A) :
  list_sum (map f (l ++ [x])) = list_sum (map f l) + f x.
Proof. rewrite map_app, list_sum_app. simpl. lia. Qed.

Lemma statuses_of_app (j : string) (h1 h2 : list (string * job_status)) :
  statuses_of j (h1 ++ h2) = statuses_of j h1 ++ statuses_of j h2.
Proof.
  induction h1 as [|[i s] h1 IH]; simpl; [reflexivity|].
  destruct (String.eqb i j); simpl; now rewrite IH.
Qed.

Lemma statuses_of_In (j : string) (s : job_status) (h : list (string * job_status)) :
  In s (statuses_of j h) <-> In (j, s) h.
Proof.
  induction h as [|[i s'] h IH]; simpl; [tauto|].
  destruct (String.eqb_spec i j) as [->|Hne]; simpl.
  - rewrite IH. split; intros [H|H]; auto; left; congruence.
  - rewrite IH. split; [auto|]. intros [H|H]; [congruence|assumption].
Qed.

Lemma last_nonempty (A : Type) (l : list A) :
  forall x d d', last (x :: l) d = last (x :: l) d'.
Proof.
  induction l as [|y l IH]; intros x d d'; [reflexivity|].
  change (last (y :: l) d = last (y :: l) d'). apply IH.
Qed.

Lemma chain_snoc (l : list job_status) :
  forall prev s,
    chain prev l = true -> allowed (last l prev) s = true ->
    chain prev (l ++ [s]) = true.
Proof.
  induction l as [|x l IH]; intros prev s Hc Ha; simpl in *.
  - now rewrite Ha.
  - apply andb_true_iff in Hc. destruct Hc as [Hx Hc]. rewrite Hx. simpl.
    apply IH; [assumption|]. destruct l as [|y l]; [assumption|].
    now rewrite (last_nonempty _ l y x prev).
Qed.

(** A chain that has not reached an end has only seen ['running']. *)
Lemma chain_all_running (l : list job_status) :
  forall prev,
    chain prev l = true -> filter terminal l = [] ->
    Forall (fun s => s = running) l.
Proof.
  induction l as [|x l IH]; intros prev Hc Hf; [constructor|].
  simpl in Hc. apply andb_true_iff in Hc. destruct Hc as [Hx Hc].
  destruct x; simpl in Hf; try discriminate;
    destruct prev; simpl in Hx; try discriminate;
    constructor; try reflexivity; now apply (IH running).
Qed.

Lemma last_all_running (l : list job_status) (d : job_status) :
  Forall (fun s => s = running) l ->
  last l d = d \/ last l d = running.
Proof.
  induction 1 as [|x l Hx _ IH]; [now left|]. subst x.
  destruct l as [|y l]; [now right|]. exact IH.
Qed.

Lemma last_all_running_In (l : list job_status) (d : job_status) :
  Forall (fun s => s = running) l -> In running l -> last l d = running.
Proof.
  induction 1 as [|x l Hx Hl IH]; [intros []|]. subst x. intros _.
  destruct l as [|y l]; [reflexivity|].
  change (last (y :: l) d = running). apply IH.
  inversion Hl; subst. now left.
Qed.

Lemma lifecycle_running (l : list job_status) :
  lifecycle l = true -> filter terminal l = [] ->
  lifecycle (l ++ [running]) = true.
Proof.
  destruct l as [|[] l]; simpl; try discriminate. intros Hc Hf.
  apply chain_snoc; [assumption|].
  destruct (last_all_running l pending (chain_all_running l pending Hc Hf))
    as [-> | ->]; reflexivity.
Qed.

Lemma lifecycle_end (l : list job_status) (s : job_status) :
  lifecycle l = true -> filter terminal l = [] -> In running l ->
  terminal s = true ->
  lifecycle (l ++ [s]) = true.
Proof.
  destruct l as [|[] l]; simpl; try discriminate. intros Hc Hf Hin Hs.
  destruct Hin as [Hin|Hin]; [discriminate|].
  apply chain_snoc; [assumption|].
  rewrite (last_all_running_In l pending
             (chain_all_running l pending Hc Hf) Hin).
  now destruct s.
Qed.



(** *** The invariant and the primitives of the queue *)

Lemma frame_ok_ext (q q' : queue) (k : frame) :
  heap q' = heap q -> issued q' = issued q -> frame_ok q k -> frame_ok q' k.
Proof.
  intros Hh Hi. destruct k; simpl; rewrite ?Hh, ?Hi; auto.
Qed.

Lemma thread_ok_ext (q q' : queue) (kp : frame * pc) :
  heap q' = heap q -> issued q' = issued q ->
  thread_ok q kp -> thread_ok q' kp.
Proof.
  unfold thread_ok. intros Hh Hi [Hf H].
  split; [now apply (frame_ok_ext q)|].
  destruct kp as [[] []]; simpl in *; rewrite ?Hh; auto.
Qed.

(** The invariant only looks at the loop, the queue of the mutex, the
    pending folder, the heap, the history and the issued ids. *)
Lemma inv_ext (b : string -> nat) (q q' : queue) :
  loop q' = loop q ->
  FileMutex.queue (mutex q') = FileMutex.queue (mutex q) ->
  pending_dir (store q') = pending_dir (store q) ->
  heap q' = heap q -> history q' = history q -> issued q' = issued q ->
  inv b q -> inv b q'.
Proof.
  intros Hl Hm Hp Hh Hy Hi (H1 & H2 & H3 & H4 & H5 & H6).
  unfold inv, pending_ok, heap_ok, history_ok, tokens, waiting in *.
  rewrite Hl, Hm, Hp, Hh, Hy, Hi. conj; try tauto.
  - eapply Forall_impl; [|exact H1]. intros kp.
    apply thread_ok_ext; assumption.
  - eapply Forall_impl; [|exact H2]. intros k.
    apply frame_ok_ext; assumption.
Qed.

Lemma inv_weaken (b b' : string -> nat) (q : queue) :
  inv b q -> (forall j, b' j <= b j) -> inv b' q.
Proof.
  intros (H1 & H2 & H3 & H4 & H5 & H6) Hb. unfold inv. conj; try tauto.
  intros j. specialize (H6 j). specialize (Hb j). lia.
Qed.

Lemma inv_spawn (b : string -> nat) (q : queue) (k : frame) (p : pc) :
  inv (fun j => weight (heap q) j (k, p) + b j) q ->
  thread_ok q (k, p) ->
  inv b (spawn k p q).
Proof.
  intros (H1 & H2 & H3 & H4 & H5 & H6) Hk.
  unfold inv, pending_ok, heap_ok, history_ok, tokens, waiting in *. qsimpl.
  conj; try tauto.
  - apply Forall_app. split.
    + eapply Forall_impl; [|exact H1]. intros kp.
      now apply thread_ok_ext.
    + constructor; [|constructor]. revert Hk. now apply thread_ok_ext.
  - intros j. specialize (H6 j). rewrite list_sum_snoc. lia.
Qed.

Lemma inv_enqueue (b : string -> nat) (q : queue) (id : string) (k : frame) :
  inv (fun j => frame_weight j k + b j) q ->
  frame_ok q k ->
  inv b (set_mutex (FileMutex.enqueue (Waiter id (Some k)) (mutex q)) q).
Proof.
  intros (H1 & H2 & H3 & H4 & H5 & H6) Hk.
  unfold inv, pending_ok, heap_ok, history_ok, tokens, waiting in *. qsimpl.
  rewrite flat_map_app. simpl.
  conj; try tauto.
  - apply Forall_app. split; [exact H2|]. constructor; [exact Hk|constructor].
  - intros j. specialize (H6 j). rewrite list_sum_snoc. lia.
Qed.

Lemma list_sum_cons (x : nat) (l : list nat) :
  list_sum (x :: l) = x + list_sum l.
Proof. reflexivity. Qed.

Lemma weight_not_running (h : list Task.t) (j : string) (k : frame) (p : pc) :
  p <> AwaitDefer -> p <> AwaitWorker ->
  weight h j (k, p) = frame_weight j k.
Proof.
  intros H1 H2. unfold weight. simpl.
  destruct k; simpl; try lia. destruct p; try lia; congruence.
Qed.

Lemma inv_crashed (b : string -> nat) (q : queue) (x : option exn) :
  inv b q -> inv b (set_crashed x q).
Proof. now apply inv_ext. Qed.

(** [unlock] moves the first waiter, if any, from the queue of the mutex
    to the timers. *)
Lemma unlock_inv (b : string -> nat) (id : string) (q : queue) :
  inv b q ->
  match unlock id q with
  | Return q' =>
      inv b q' /\ heap q' = heap q /\ issued q' = issued q /\
      store q' = store q /\ history q' = history q
  | Throw _ q' => q' = q
  end.
Proof.
  intros Hinv. unfold unlock, FileMutex.unlock.
  destruct (owner_differs _ id); [reflexivity|].
  destruct (FileMutex.queue (mutex q)) as [|[wid [k|]] rest] eqn:Hq; simpl;
    (split; [|now conj]).
  - revert Hinv. apply inv_ext; qsimpl; auto.
  - apply inv_spawn.
    + apply inv_weaken with (b := fun j => frame_weight j k + b j);
        [|intros j; rewrite weight_not_running by discriminate; lia].
      destruct Hinv as (H1 & H2 & H3 & H4 & H5 & H6).
      unfold inv, pending_ok, heap_ok, history_ok, tokens, waiting in *.
      qsimpl. rewrite Hq in *.
      cbn [flat_map waiter_callback app map] in *.
      conj; try tauto.
      * now inversion H2.
      * intros j. specialize (H6 j). rewrite list_sum_cons in H6. lia.
    + destruct Hinv as (_ & H2 & _). unfold waiting in H2. rewrite Hq in H2.
      simpl in H2. inversion H2; subst. split; [|destruct k; exact I].
      qsimpl. assumption.
  - destruct Hinv as (H1 & H2 & H3 & H4 & H5 & H6).
    unfold inv, pending_ok, heap_ok, history_ok, tokens, waiting in *.
    qsimpl. rewrite Hq in *. simpl in *. conj; tauto.
Qed.

(** [lock] leaves the operation with an [fs.flock] in flight or in the
    queue of the mutex. *)
Lemma lock_inv (b : string -> nat) (k : frame) (q : queue) :
  inv (fun j => frame_weight j k + b j) q ->
  frame_ok q k ->
  inv b (uncaught (lock k q)).
Proof.
  intros Hinv Hk. unfold lock, FileMutex.lock.
  destruct (FileMutex.held (mutex q)).
  - simpl. now apply inv_enqueue.
  - assert (Hs : forall m, FileMutex.queue m = FileMutex.queue (mutex q) ->
                            inv b (spawn k AwaitFlock (set_mutex m q))).
    { intros m Hm. apply inv_spawn.
      - apply inv_weaken with (b := fun j => frame_weight j k + b j);
          [|intros j; rewrite weight_not_running by discriminate; lia].
        revert Hinv. apply inv_ext; qsimpl; auto.
      - split; [|destruct k; exact I]. revert Hk.
        apply frame_ok_ext; reflexivity. }
    destruct (FileMutex.fd (mutex q)); [now apply Hs|].
    destruct (openSync (store q)); [now apply Hs|].
    simpl. apply inv_crashed. eapply inv_weaken; [exact Hinv|].
    intros j. cbv beta. lia.
Qed.

Lemma issued_truthy (b : string -> nat) (q : queue) (j : string) :
  inv b q -> In j (issued q) -> str_truthy j = true.
Proof.
  intros (_ & _ & _ & _ & (H & _) & _) Hin.
  now apply (proj1 (Forall_forall _ _) H).
Qed.

(** *** The functions of the waterfalls *)

Lemma push_final_inv (task : Task.t) (err : option exn) (q : queue) :
  inv nothing q -> inv nothing (uncaught (push_final task err q)).
Proof.
  intros Hinv. unfold push_final.
  pose proof (unlock_inv nothing (Task.id task) q Hinv) as Hu.
  destruct (unlock (Task.id task) q) as [q'|x q'].
  - destruct Hu as [Hu _]. destruct err; simpl; [assumption|].
    revert Hu. apply inv_ext; reflexivity.
  - subst q'. simpl. now apply inv_crashed.
Qed.

Lemma push_save_pending_inv (task : Task.t) (q : queue) :
  inv (owed (Task.id task)) q -> In (Task.id task) (issued q) ->
  inv nothing (uncaught (push_save_pending task q)).
Proof.
  intros Hinv Hin. unfold push_save_pending, saveTaskToFolder.
  rewrite (issued_truthy _ _ _ Hinv Hin). simpl.
  apply inv_spawn.
  - eapply inv_weaken; [exact Hinv|]. intros j.
    rewrite weight_not_running by discriminate. unfold nothing. simpl. lia.
  - split; [exact Hin|]. now split.
Qed.

Lemma push_save_id_inv (task : Task.t) (q : queue) :
  inv (owed (Task.id task)) q -> In (Task.id task) (issued q) ->
  inv nothing (uncaught (push_save_id task q)).
Proof.
  intros Hinv Hin. unfold push_save_id, saveTaskToFolder.
  rewrite (issued_truthy _ _ _ Hinv Hin). simpl.
  apply inv_spawn.
  - eapply inv_weaken; [exact Hinv|]. intros j.
    rewrite weight_not_running by discriminate. unfold nothing. simpl. lia.
  - split; [exact Hin|]. now split.
Qed.

Lemma check_final_err_inv (r : string) (rt : option nat) (x : check_error)
    (q : queue) :
  inv nothing q -> inv nothing (uncaught (check_final r rt (Some x) q)).
Proof.
  intros Hinv. unfold check_final.
  pose proof (unlock_inv nothing r q Hinv) as Hu.
  destruct (unlock r q) as [q'|y q'].
  - simpl. tauto.
  - subst q'. simpl. now apply inv_crashed.
Qed.

Lemma check_final_run_inv (r : string) (o : nat) (q : queue) :
  inv (fun j => run_weight (heap q) j (RunFrame o, AwaitDefer)) q ->
  o < length (heap q) ->
  inv nothing (uncaught (check_final r (Some o) None q)).
Proof.
  intros Hinv Ho. unfold check_final.
  pose proof (unlock_inv _ r q Hinv) as Hu.
  destruct (unlock r q) as [q'|y q'].
  - destruct Hu as (Hu & Hh & _). simpl. apply inv_spawn.
    + eapply inv_weaken; [exact Hu|]. intros j. rewrite Hh.
      unfold weight, nothing. simpl. lia.
    + split; [simpl; now rewrite Hh|exact I].
  - subst q'. simpl. apply inv_crashed.
    eapply inv_weaken; [exact Hinv|]. intros j. unfold nothing. lia.
Qed.

Lemma checkNextTask_inv (u : string) (q : queue) :
  inv nothing q -> inv nothing (uncaught (checkNextTask u q)).
Proof.
  intros Hinv. unfold checkNextTask.
  destruct (_ && _); [exact Hinv|].
  apply lock_inv; [|simpl; discriminate].
  eapply inv_weaken; [exact Hinv|]. intros j. reflexivity.
Qed.

Lemma ready_inv (k : frame) (err : option exn) (u : string) (q : queue) :
  inv (fun j => frame_weight j k) q -> frame_ok q k ->
  inv nothing (uncaught (ready k err u q)).
Proof.
  intros Hinv Hk.
  assert (H0 : inv nothing q)
    by (eapply inv_weaken; [exact Hinv|]; intros j; unfold nothing; lia).
  destruct k as [|task|r rt|o], err as [x|]; simpl.
  - exact H0.
  - now apply checkNextTask_inv.
  - now apply push_final_inv.
  - now apply push_save_id_inv.
  - now apply check_final_err_inv.
  - apply inv_spawn; [|split; [exact Hk|exact I]].
    eapply inv_weaken; [exact H0|]. intros j. reflexivity.
  - exact H0.
  - exact H0.
Qed.

Lemma whenReady_inv (k : frame) (u : string) (q : queue) :
  inv (fun j => frame_weight j k) q -> frame_ok q k ->
  inv nothing (uncaught (whenReady k u q)).
Proof.
  intros Hinv Hk. unfold whenReady.
  destruct (initialized q); [now apply ready_inv|].
  destruct (error q); [now apply ready_inv|].
  simpl. apply inv_spawn; [|split; [exact Hk|destruct k; exact I]].
  eapply inv_weaken; [exact Hinv|]. intros j.
  rewrite weight_not_running by discriminate. unfold nothing. lia.
Qed.

Lemma lock_granted_inv (k : frame) (u : string) (q : queue) :
  inv (fun j => frame_weight j k) q -> frame_ok q k ->
  inv nothing (uncaught (lock_granted k u q)).
Proof.
  intros Hinv Hk. unfold lock_granted. apply whenReady_inv.
  - revert Hinv. apply inv_ext; reflexivity.
  - revert Hk. apply frame_ok_ext; reflexivity.
Qed.

Lemma resume_lock_inv (k : frame) (p : pc) (e : env) (q : queue)
    (c : completion queue) :
  resume_lock k p e q = Some c ->
  inv (fun j => frame_weight j k) q -> frame_ok q k ->
  inv nothing (uncaught c).
Proof.
  intros Hc Hinv Hk. destruct p; simpl in Hc; try discriminate;
    injection Hc as <-.
  - (* the flock request completes *)
    unfold FileMutex.flock_callback. destruct (io_fails e); simpl.
    + apply inv_enqueue; [|exact Hk].
      eapply inv_weaken; [exact Hinv|]. intros j. unfold nothing. simpl. lia.
    + apply lock_granted_inv.
      * revert Hinv. apply inv_ext; reflexivity.
      * revert Hk. apply frame_ok_ext; reflexivity.
  - now apply lock_granted_inv.
  - destruct (io_fails e).
    + apply ready_inv.
      * revert Hinv. apply inv_ext; reflexivity.
      * revert Hk. apply frame_ok_ext; reflexivity.
    + simpl. apply inv_spawn; [|split; [|destruct k; exact I]].
      * eapply inv_weaken with (b := fun j => frame_weight j k).
        -- revert Hinv. apply inv_ext; reflexivity.
        -- intros j. rewrite weight_not_running by discriminate.
           unfold nothing. lia.
      * revert Hk. apply frame_ok_ext; reflexivity.
  - destruct (do_readdir e RunningFolder q); now apply ready_inv.
Qed.

(** *** The task folders *)

Lemma files_named_write (n name : string) (c : content) (x : dir) :
  files_named n (dir_write name c x)
  <= files_named n x + (if String.eqb name n then 1 else 0).
Proof.
  unfold files_named. induction x as [|[n0 c0] x IH]; simpl.
  - destruct (String.eqb name n); simpl; lia.
  - destruct (String.eqb_spec n0 name) as [->|Hne]; simpl.
    + destruct (String.eqb name n); simpl; lia.
    + destruct (String.eqb n0 n); simpl; lia.
Qed.

Lemma files_named_remove (n name : string) (x : dir) :
  dir_lookup name x <> None ->
  files_named n (dir_remove name x) + (if String.eqb name n then 1 else 0)
  = files_named n x.
Proof.
  unfold files_named. induction x as [|[n0 c0] x IH]; simpl.
  - intros H. now elim H.
  - destruct (String.eqb_spec n0 name) as [->|Hne]; simpl.
    + intros _. destruct (String.eqb name n); simpl; lia.
    + intros H. specialize (IH H).
      destruct (String.eqb n0 n); simpl; lia.
Qed.

Lemma Forall_dir_write (P : string * content -> Prop) (name : string)
    (c : content) (x : dir) :
  Forall P x -> P (name, c) -> Forall P (dir_write name c x).
Proof.
  intros Hx Hn. induction Hx as [|[n0 c0] x H0 Hx IH]; simpl.
  - constructor; [assumption|constructor].
  - destruct (String.eqb_spec n0 name) as [->|Hne];
      constructor; assumption.
Qed.

Lemma Forall_dir_remove (P : string * content -> Prop) (name : string)
    (x : dir) :
  Forall P x -> Forall P (dir_remove name x).
Proof.
  intros Hx. induction Hx as [|[n0 c0] x H0 Hx IH]; simpl.
  - constructor.
  - destruct (String.eqb n0 name); [assumption|now constructor].
Qed.

Lemma dir_lookup_In (name : string) (c : content) (x : dir) :
  dir_lookup name x = Some c -> In (name, c) x.
Proof.
  induction x as [|[n0 c0] x IH]; simpl; [discriminate|].
  destruct (String.eqb_spec n0 name) as [->|Hne].
  - intros [= ->]. now left.
  - intros H. right. now apply IH.
Qed.

Lemma dir_lookup_named (name : string) (c : content) (x : dir) :
  dir_lookup name x = Some c -> 1 <= files_named name x.
Proof.
  unfold files_named. induction x as [|[n0 c0] x IH]; simpl; [discriminate|].
  destruct (String.eqb n0 name); simpl; [lia|]. exact IH.
Qed.

Lemma pending_dir_set_dir (f : folder) (x : dir) (d : disk) :
  f <> PendingFolder -> pending_dir (set_dir f x d) = pending_dir d.
Proof. destruct f; simpl; congruence. Qed.

(** A change of the pending folder, paid for by the operation that makes
    it. *)
Lemma inv_set_store (b b' : string -> nat) (q : queue) (d : disk) :
  inv b q ->
  Forall (fun nc => exists task, snd nc = Json task /\
                                 fst nc = file_of (Task.id task) /\
                                 In (Task.id task) (issued q))
         (pending_dir d) ->
  (forall j, files_named (file_of j) (pending_dir d) + b' j
             <= files_named (file_of j) (pending_dir (store q)) + b j) ->
  inv b' (set_store d q).
Proof.
  intros (H1 & H2 & H3 & H4 & H5 & H6) Hd Hb.
  unfold inv, pending_ok, heap_ok, history_ok, tokens, waiting in *. qsimpl.
  conj; try tauto;
    try (eapply Forall_impl; [|eassumption]; intros ?;
         first [apply thread_ok_ext | apply frame_ok_ext]; reflexivity).
  intros j. specialize (H6 j). specialize (Hb j). lia.
Qed.

Lemma inv_same_pending (b : string -> nat) (q : queue) (d : disk) :
  inv b q -> pending_dir d = pending_dir (store q) -> inv b (set_store d q).
Proof. intros Hinv Hd. revert Hinv. apply inv_ext; auto. Qed.

(** *** [push] once it has the lock *)

Lemma resume_push_inv (task : Task.t) (p : pc) (e : env) (q : queue) :
  inv (owed (Task.id task)) q ->
  thread_ok q (PushFrame task, p) ->
  inv nothing (uncaught (resume_push task p e q)).
Proof.
  intros Hinv [Hin Hp].
  assert (H0 : inv nothing q)
    by (eapply inv_weaken; [exact Hinv|]; intros j; unfold nothing; lia).
  simpl in Hin.
  destruct p; simpl; try exact H0.
  destruct Hp as [-> ->]. unfold do_write, fs_writeFile.
  destruct (io_fails e); [now apply push_final_inv|].
  destruct (folders_exist (store q)); simpl; [|now apply push_final_inv].
  destruct f.
  - apply push_save_pending_inv; [|exact Hin]. now apply inv_same_pending.
  - apply push_final_inv. eapply inv_set_store; [exact Hinv| |].
    + simpl. apply Forall_dir_write.
      * now destruct Hinv as (_ & _ & H & _).
      * exists task. now conj.
    + intros j. simpl.
      pose proof (files_named_write (file_of j) (file_of (Task.id task))
                    (Json task) (pending_dir (store q))) as Hw.
      rewrite file_of_eqb in Hw. unfold owed, nothing. lia.
  - apply push_final_inv. now apply inv_same_pending.
Qed.

(** *** The heap and the history *)

Lemma heap_extends_app (h l : list Task.t) : heap_extends h (h ++ l).
Proof.
  intros o task Ho. exists task. split; [|reflexivity].
  rewrite nth_error_app1; [assumption|].
  apply nth_error_Some. congruence.
Qed.

Lemma heap_set_length (h : list Task.t) :
  forall o task, length (heap_set o task h) = length h.
Proof.
  induction h as [|x h IH]; intros [|o] task; simpl; auto.
Qed.

Lemma heap_set_other (h : list Task.t) :
  forall o o' task, o <> o' ->
    nth_error (heap_set o task h) o' = nth_error h o'.
Proof.
  induction h as [|x h IH]; intros [|o] [|o'] task Hne; simpl; auto;
    try (now elim Hne).
Qed.

Lemma heap_extends_set (h : list Task.t) (o : nat) (task task' : Task.t) :
  nth_error h o = Some task -> Task.id task' = Task.id task ->
  heap_extends h (heap_set o task' h).
Proof.
  intros Ho Hid o' t Ho'. destruct (Nat.eq_dec o o') as [<-|Hne].
  - exists task'. split; [|congruence].
    apply heap_set_same. apply nth_error_Some. congruence.
  - exists t. split; [|reflexivity]. now rewrite heap_set_other.
Qed.

Lemma In_heap_set (h : list Task.t) :
  forall o task t, In t (heap_set o task h) -> t = task \/ In t h.
Proof.
  induction h as [|x h IH]; intros [|o] task t; simpl; try tauto.
  - intros [H|H]; [left; congruence|tauto].
  - intros [H|H]; [tauto|]. destruct (IH o task t H); tauto.
Qed.

Lemma frame_ok_mono (q q' : queue) (k : frame) :
  length (heap q) <= length (heap q') ->
  incl (issued q) (issued q') ->
  frame_ok q k -> frame_ok q' k.
Proof.
  intros Hl Hi. destruct k; simpl; auto.
  - intros H o Ho. specialize (H o Ho). lia.
  - lia.
Qed.

Lemma thread_ok_mono (q q' : queue) (kp : frame * pc) :
  heap_extends (heap q) (heap q') ->
  length (heap q) <= length (heap q') ->
  incl (issued q) (issued q') ->
  thread_ok q kp -> thread_ok q' kp.
Proof.
  intros He Hl Hi [Hf H]. split; [now apply (frame_ok_mono q)|].
  destruct kp as [[] []]; simpl in *; auto.
  destruct H as (Hf' & o & task & Hrt & Ho & Hn). split; [assumption|].
  destruct (He o task Ho) as (task' & Ho' & Hid).
  exists o, task'. rewrite Hid. auto.
Qed.

Lemma weight_mono (q : queue) (h' : list Task.t) (j : string)
    (kp : frame * pc) :
  heap_extends (heap q) h' -> thread_ok q kp ->
  weight h' j kp = weight (heap q) j kp.
Proof.
  intros He [Hf _]. unfold weight. f_equal.
  destruct kp as [[| | |o] p]; simpl in *; auto.
  destruct (nth_error (heap q) o) as [task|] eqn:Ho.
  - destruct (He o task Ho) as (task' & -> & ->). reflexivity.
  - apply nth_error_None in Ho. lia.
Qed.

Lemma list_sum_weight_mono (q : queue) (h' : list Task.t) (j : string)
    (l : list (frame * pc)) :
  heap_extends (heap q) h' -> Forall (thread_ok q) l ->
  list_sum (map (weight h' j) l) = list_sum (map (weight (heap q) j) l).
Proof.
  intros He Hl. induction Hl as [|kp l Hkp Hl IH]; simpl; [reflexivity|].
  now rewrite IH, (weight_mono q h' j kp He Hkp).
Qed.

(** A change of the heap, the history or the issued ids that keeps what
    the invariant says of them. *)
Lemma inv_update (b b' : string -> nat) (q q' : queue) :
  inv b q ->
  loop q' = loop q ->
  FileMutex.queue (mutex q') = FileMutex.queue (mutex q) ->
  pending_dir (store q') = pending_dir (store q) ->
  heap_extends (heap q) (heap q') ->
  length (heap q) <= length (heap q') ->
  incl (issued q) (issued q') ->
  heap_ok q' -> history_ok q' ->
  (forall j, ends j (history q') + b' j <= ends j (history q) + b j) ->
  inv b' q'.
Proof.
  intros (H1 & H2 & H3 & H4 & H5 & H6) Hl Hm Hp He Hn Hi Hh Hy Hb.
  unfold inv. conj; try assumption.
  - rewrite Hl. eapply Forall_impl; [|exact H1]. intros kp.
    now apply thread_ok_mono.
  - unfold waiting. rewrite Hm. eapply Forall_impl; [|exact H2]. intros k.
    now apply frame_ok_mono.
  - unfold pending_ok in *. rewrite Hp. eapply Forall_impl; [|exact H3].
    intros nc (task & Hs & Hf & Hin). exists task. conj; auto.
  - intros j. specialize (H6 j). specialize (Hb j).
    unfold tokens, waiting in *. rewrite Hl, Hm, Hp.
    rewrite (list_sum_weight_mono q (heap q') j (loop q) He H1). lia.
Qed.

Lemma statuses_of_single (j i : string) (s : job_status) :
  statuses_of j [(i, s)] = if String.eqb i j then [s] else [].
Proof. reflexivity. Qed.

Lemma ends_snoc (j i : string) (s : job_status) (h : list (string * job_status)) :
  ends j (h ++ [(i, s)]) = ends j h + (if terminal s then owed i j else 0).
Proof.
  unfold ends, owed. rewrite statuses_of_app, filter_app, length_app. simpl.
  destruct (String.eqb i j); simpl; destruct (terminal s); simpl; lia.
Qed.

Lemma ends_zero (j : string) (h : list (string * job_status)) :
  ends j h = 0 -> filter terminal (statuses_of j h) = [].
Proof. unfold ends. now destruct (filter terminal (statuses_of j h)). Qed.

Lemma worker_callback_id (err : option worker_error) (result : jsval)
    (date : string) (task : Task.t) :
  Task.id (worker_callback err result date task) = Task.id task.
Proof.
  unfold worker_callback. destruct err; [reflexivity|].
  now destruct (truthy result).
Qed.

Lemma worker_callback_terminal (err : option worker_error) (result : jsval)
    (date : string) (task : Task.t) :
  terminal (Task.status (worker_callback err result date task)) = true.
Proof.
  unfold worker_callback. destruct err; [reflexivity|].
  now destruct (truthy result).
Qed.

Lemma list_sum_zero (A : Type) (f : A -> nat) (l : list A) :
  Forall (fun x => f x = 0) l -> list_sum (map f l) = 0.
Proof.
  induction 1 as [|x l Hx _ IH]; simpl; [reflexivity|]. lia.
Qed.

Lemma owed_neq (a j : string) : a <> j -> owed a j = 0.
Proof.
  intros H. unfold owed. destruct (String.eqb_spec a j); [now elim H|].
  reflexivity.
Qed.

Lemma owed_same (j : string) : owed j j = 1.
Proof. unfold owed. now rewrite String.eqb_refl. Qed.

(** Nothing stands for a task id that [push] has not been given. *)
Lemma tokens_unissued (b : string -> nat) (q : queue) (j : string) :
  inv b q -> ~ In j (issued q) -> tokens j q = 0.
Proof.
  intros (H1 & H2 & H3 & H4 & H5 & _) Hj. unfold tokens.
  assert (Hne : forall i, In i (issued q) -> owed i j = 0).
  { intros i Hi. apply owed_neq. congruence. }
  rewrite (list_sum_zero _ (weight (heap q) j)).
  2:{ eapply Forall_impl; [|exact H1]. intros [k p] [Hf _].
      unfold weight. destruct k as [|task|r rt|o]; simpl in *; auto.
      - rewrite (Hne _ Hf). reflexivity.
      - destruct (nth_error (heap q) o) as [task|] eqn:Ho;
          [|destruct p; reflexivity].
        apply nth_error_In in Ho.
        destruct (proj1 (Forall_forall _ _) H4 task Ho) as [Hi _].
        rewrite (Hne _ Hi). destruct p; reflexivity. }
  rewrite (list_sum_zero _ (frame_weight j)).
  2:{ eapply Forall_impl; [|exact H2]. intros k Hf.
      destruct k; simpl in *; auto. }
  assert (Hf : files_named (file_of j) (pending_dir (store q)) = 0).
  { unfold files_named, pending_ok in *.
    induction H3 as [|[n c] x (task & _ & Hn & Hi) _ IH]; simpl;
      [reflexivity|].
    simpl in Hn. subst n. rewrite file_of_eqb.
    pose proof (Hne _ Hi) as Ho. unfold owed in Ho.
    destruct (String.eqb (Task.id task) j); [discriminate|]. exact IH. }
  assert (He : ends j (history q) = 0).
  { unfold ends. destruct (statuses_of j (history q)) as [|s l] eqn:Hs;
      [reflexivity|].
    elim Hj. destruct H5 as (_ & H5 & _). apply (H5 j s).
    apply statuses_of_In. rewrite Hs. now left. }
  lia.
Qed.

(** *** [checkNextTask] once it has the lock *)

Lemma heap_task_issued (b : string -> nat) (q : queue) (o : nat)
    (task : Task.t) :
  inv b q -> nth_error (heap q) o = Some task ->
  In (Task.id task) (issued q) /\
  In running (statuses_of (Task.id task) (history q)) /\
  str_truthy (Task.id task) = true.
Proof.
  intros Hinv Ho. pose proof Hinv as (_ & _ & _ & H4 & _).
  apply nth_error_In in Ho.
  destruct (proj1 (Forall_forall _ _) H4 task Ho) as [Hi Hr].
  conj; try assumption. now apply (issued_truthy b q).
Qed.

Lemma check_remove_pending_inv (r : string) (o : nat) (task : Task.t)
    (q : queue) :
  inv nothing q -> nth_error (heap q) o = Some task ->
  inv nothing (uncaught (check_remove_pending r o task q)).
Proof.
  intros Hinv Ho. destruct (heap_task_issued _ _ _ _ Hinv Ho) as (_ & _ & Ht).
  unfold check_remove_pending, removeTaskFromFolder. rewrite Ht. simpl.
  apply inv_spawn.
  - eapply inv_weaken; [exact Hinv|]. intros j. reflexivity.
  - split; simpl.
    + intros o' [= <-]. apply nth_error_Some. congruence.
    + split; [reflexivity|]. now exists o, task.
Qed.

Lemma check_save_running_inv (r : string) (o : nat) (task : Task.t)
    (q : queue) :
  inv nothing q -> nth_error (heap q) o = Some task ->
  inv nothing (uncaught (check_save_running r o task q)).
Proof.
  intros Hinv Ho. destruct (heap_task_issued _ _ _ _ Hinv Ho) as (_ & _ & Ht).
  unfold check_save_running, saveTaskToFolder. rewrite Ht. simpl.
  apply inv_spawn.
  - eapply inv_weaken; [exact Hinv|]. intros j. reflexivity.
  - split; simpl.
    + intros o' [= <-]. apply nth_error_Some. congruence.
    + discriminate.
Qed.

(** The task read from the pending folder becomes ['running']. *)
Lemma check_set_running_inv (r : string) (parsed : Task.t) (q : queue) :
  inv nothing q ->
  In (Task.id parsed) (issued q) ->
  1 <= files_named (file_of (Task.id parsed)) (pending_dir (store q)) ->
  inv nothing (uncaught (check_set_running r parsed q)).
Proof.
  intros Hinv Hin Hfile. unfold check_set_running.
  set (task := Task.set_status running parsed).
  set (q1 := record (Task.id task) running
               (set_heap (heap q ++ [task])
                  (set_runningTasks (runningTasks q ++ [length (heap q)]) q))).
  assert (H1 : inv nothing q1).
  { pose proof Hinv as (_ & _ & _ & H4 & (H5a & H5b & H5c) & H6).
    apply (inv_update nothing nothing q q1 Hinv); try reflexivity.
    - apply heap_extends_app.
    - subst q1. qsimpl. rewrite length_app. lia.
    - apply incl_refl.
    - unfold heap_ok. subst q1. qsimpl. apply Forall_app. split.
      + eapply Forall_impl; [|exact H4]. intros t [Hi Hr].
        split; [assumption|]. rewrite statuses_of_app. apply in_or_app. tauto.
      + constructor; [|constructor]. split; [exact Hin|].
        rewrite statuses_of_app. apply in_or_app. right. simpl.
        rewrite String.eqb_refl. now left.
    - unfold history_ok. subst q1. qsimpl. conj; [assumption| |].
      + intros j s Hjs. apply in_app_or in Hjs. destruct Hjs as [Hjs|Hjs];
          [now apply (H5b j s)|].
        destruct Hjs as [[= <- <-]|[]]. exact Hin.
      + intros j Hj. rewrite statuses_of_app. simpl.
        destruct (String.eqb_spec (Task.id parsed) j) as [<-|Hne].
        * apply lifecycle_running; [now apply H5c|]. apply ends_zero.
          specialize (H6 (Task.id parsed)). unfold tokens in H6. lia.
        * rewrite app_nil_r. now apply H5c.
    - intros j. subst q1. qsimpl. rewrite ends_snoc. simpl. lia. }
  assert (Ho : nth_error (heap q1) (length (heap q)) = Some task).
  { subst q1. qsimpl. rewrite nth_error_app2 by lia.
    now rewrite Nat.sub_diag. }
  destruct (heap_task_issued _ _ _ _ H1 Ho) as (_ & _ & Ht).
  unfold saveTaskToFolder. rewrite Ht. simpl. apply inv_spawn.
  - eapply inv_weaken; [exact H1|]. intros j. reflexivity.
  - split; simpl.
    + intros o' [= <-]. apply nth_error_Some. unfold q1 in Ho. qsimpl.
      congruence.
    + discriminate.
Qed.

Lemma resume_check_inv (r : string) (rt : option nat) (p : pc) (e : env)
    (q : queue) :
  inv nothing q ->
  thread_ok q (CheckFrame r rt, p) ->
  inv nothing (uncaught (resume_check r rt p e q)).
Proof.
  intros Hinv [Hf Hp]. simpl in Hf.
  destruct p; simpl; try exact Hinv.
  - (* a write of the task lands *)
    destruct rt as [o|]; [|exact Hinv].
    assert (Hnp : f <> PendingFolder) by (apply Hp; discriminate).
    specialize (Hf o eq_refl).
    destruct (nth_error (heap q) o) as [task|] eqn:Ho;
      [|apply nth_error_None in Ho; lia].
    unfold do_write, fs_writeFile.
    destruct (io_fails e); [now apply check_final_err_inv|].
    destruct (folders_exist (store q)); simpl;
      [|now apply check_final_err_inv].
    assert (H1 : inv nothing
                   (set_store (set_dir f (dir_write name (Json data)
                                            (get_dir f (store q))) (store q))
                              q))
      by (apply inv_same_pending;
          [assumption|now apply pending_dir_set_dir]).
    destruct f; try (now elim Hnp).
    + now apply check_save_running_inv.
    + now apply check_remove_pending_inv.
  - (* the removal from the pending folder lands *)
    destruct Hp as (-> & o & task & -> & Ho & ->).
    unfold do_unlink, fs_unlink.
    destruct (io_fails e); [now apply check_final_err_inv|].
    simpl. destruct (dir_lookup _ _) eqn:Hl; simpl;
      [|now apply check_final_err_inv].
    apply check_final_run_inv; [|qsimpl; apply nth_error_Some; congruence].
    qsimpl. eapply inv_set_store; [exact Hinv| |].
    + simpl. apply Forall_dir_remove. now destruct Hinv as (_ & _ & H & _).
    + intros j. simpl. rewrite Ho.
      pose proof (files_named_remove (file_of j) (file_of (Task.id task))
                    (pending_dir (store q))) as Hr.
      rewrite file_of_eqb in Hr. unfold owed, nothing.
      rewrite <- Hr by congruence. lia.
  - (* the listing of the pending folder *)
    destruct (do_readdir e PendingFolder q) as [files|];
      [|now apply check_final_err_inv].
    destruct (find is_json files) as [file|];
      [|now apply check_final_err_inv].
    simpl. apply inv_spawn.
    + eapply inv_weaken; [exact Hinv|]. intros j. reflexivity.
    + split; [exact Hf|exact I].
  - (* the file of the task has been read *)
    unfold do_readFile, fs_readFile.
    destruct (io_fails e); [now apply check_final_err_inv|].
    simpl. destruct (dir_lookup file (pending_dir (store q)))
      as [[parsed|]|] eqn:Hl; try (now apply check_final_err_inv).
    pose proof Hinv as (_ & _ & H3 & _).
    pose proof (proj1 (Forall_forall _ _) H3 _ (dir_lookup_In _ _ _ Hl))
      as (task & Hs & Hn & Hi).
    simpl in Hs, Hn. injection Hs as <-. subst file.
    apply check_set_running_inv; [assumption|assumption|].
    now apply (dir_lookup_named _ (Json parsed)).
Qed.

(** *** [runTask] *)

Lemma run_remove_inv (o : nat) (task : Task.t) (q : queue) :
  inv nothing q -> o < length (heap q) ->
  inv nothing (uncaught (run_remove o task q)).
Proof.
  intros Hinv Ho. unfold run_remove, removeTaskFromFolder.
  destruct (str_truthy (Task.id task)); simpl.
  - apply inv_spawn; [|split; [exact Ho|discriminate]].
    eapply inv_weaken; [exact Hinv|]. intros j. reflexivity.
  - revert Hinv. apply inv_ext; reflexivity.
Qed.

Lemma run_save_inv (o : nat) (task : Task.t) (q : queue) :
  inv nothing q -> o < length (heap q) ->
  inv nothing (uncaught (run_save o task q)).
Proof.
  intros Hinv Ho. unfold run_save, saveTaskToFolder.
  destruct (str_truthy (Task.id task)); simpl.
  - apply inv_spawn; [|split; [exact Ho|discriminate]].
    eapply inv_weaken; [exact Hinv|]. intros j. reflexivity.
  - now apply run_remove_inv.
Qed.

Lemma resume_run_inv (o : nat) (p : pc) (e : env) (q : queue) :
  inv (fun j => run_weight (heap q) j (RunFrame o, p)) q ->
  thread_ok q (RunFrame o, p) ->
  inv nothing (uncaught (resume_run o p e q)).
Proof.
  intros Hinv [Hf Hp]. simpl in Hf.
  assert (H0 : inv nothing q)
    by (eapply inv_weaken; [exact Hinv|]; intros j; unfold nothing; lia).
  unfold resume_run.
  destruct (nth_error (heap q) o) as [task|] eqn:Ho; [|exact H0].
  destruct (heap_task_issued _ _ _ _ H0 Ho) as (Hi & Hr & Ht).
  destruct p; try exact H0.
  - (* a write lands or fails *)
    simpl in Hp. unfold do_write, fs_writeFile.
    destruct (io_fails e); [now apply run_remove_inv|].
    destruct (folders_exist (store q)); simpl; [|now apply run_remove_inv].
    apply run_remove_inv; [|exact Hf]. apply inv_same_pending;
      [assumption|now apply pending_dir_set_dir].
  - (* the removal from the running folder lands or fails *)
    simpl in Hp. unfold do_unlink, fs_unlink.
    destruct (io_fails e); [revert H0; apply inv_ext; reflexivity|].
    simpl. destruct (dir_lookup _ _); simpl;
      [|revert H0; apply inv_ext; reflexivity].
    apply inv_ext with (q := set_store
                               (set_dir f (dir_remove name (get_dir f (store q)))
                                        (store q)) q); try reflexivity.
    apply inv_same_pending; [assumption|now apply pending_dir_set_dir].
  - (* the deferred [runTask] starts the worker *)
    simpl. apply inv_spawn; [|split; [exact Hf|exact I]].
    eapply inv_weaken; [exact Hinv|]. intros j. unfold weight, nothing.
    simpl. rewrite Ho. lia.
  - (* the worker calls back *)
    set (task' := worker_callback (worker_err e) (worker_result e) (now e) task).
    assert (Hid : Task.id task' = Task.id task) by apply worker_callback_id.
    assert (Hterm : terminal (Task.status task') = true)
      by exact (worker_callback_terminal (worker_err e) (worker_result e)
                  (now e) task).
    set (q1 := record (Task.id task') (Task.status task')
                 (set_runningTasks (without o (runningTasks q))
                    (set_heap (heap_set o task' (heap q)) q))).
    apply run_save_inv;
      [|subst q1; qsimpl; now rewrite heap_set_length].
    pose proof H0 as (_ & _ & _ & H4 & (H5a & H5b & H5c) & _).
    pose proof Hinv as (_ & _ & _ & _ & _ & H6).
    apply (inv_update _ nothing q q1 Hinv); try reflexivity.
    + subst q1. qsimpl. now apply (heap_extends_set _ _ task).
    + subst q1. qsimpl. now rewrite heap_set_length.
    + apply incl_refl.
    + unfold heap_ok. subst q1. qsimpl. apply Forall_forall. intros t Hin.
      rewrite statuses_of_app.
      destruct (In_heap_set _ _ _ _ Hin) as [->|Hin'].
      * rewrite Hid. split; [assumption|]. apply in_or_app. tauto.
      * destruct (proj1 (Forall_forall _ _) H4 t Hin') as [Hti Htr].
        split; [assumption|]. apply in_or_app. tauto.
    + unfold history_ok. subst q1. qsimpl. conj; [assumption| |].
      * intros j s Hjs. apply in_app_or in Hjs. destruct Hjs as [Hjs|Hjs];
          [now apply (H5b j s)|].
        destruct Hjs as [[= <- <-]|[]].
        change (In (Task.id task') (issued q)). now rewrite Hid.
      * intros j Hj. rewrite statuses_of_app, statuses_of_single, Hid.
        destruct (String.eqb_spec (Task.id task) j) as [<-|Hne].
        -- apply lifecycle_end; [now apply H5c| |assumption|].
           ++ apply ends_zero. specialize (H6 (Task.id task)).
              simpl in H6. rewrite Ho, owed_same in H6.
              unfold tokens in H6. lia.
           ++ exact Hterm.
        -- rewrite app_nil_r. now apply H5c.
    + intros j. subst q1. qsimpl. rewrite ends_snoc, Hid, Hterm.
      simpl. rewrite Ho. unfold nothing. lia.
Qed.

(** *** Events and executions *)

Lemma lock_throw (k : frame) (q q' : queue) (x : exn) :
  lock k q = Throw x q' -> q' = q.
Proof.
  unfold lock. destruct (FileMutex.lock _ _ _ _) as [[m [w|]]|y z];
    congruence.
Qed.

Lemma take_sum (A : Type) (f : frame * pc -> nat) (t : tid) :
  forall l k p rest,
    take t l = Some (k, p, rest) ->
    list_sum (map f l) = f (k, p) + list_sum (map f rest).
Proof.
  induction l as [|[k0 p0] l IH]; intros k p rest; simpl; [discriminate|].
  destruct (tid_eqb (tid_of k0) t).
  - intros [= <- <- <-]. reflexivity.
  - destruct (take t l) as [[[k1 p1] r1]|]; [|discriminate].
    intros [= <- <- <-]. simpl. rewrite (IH k1 p1 r1 eq_refl). lia.
Qed.

Lemma take_Forall (P : frame * pc -> Prop) (t : tid) :
  forall l k p rest,
    take t l = Some (k, p, rest) ->
    Forall P l -> P (k, p) /\ Forall P rest.
Proof.
  induction l as [|[k0 p0] l IH]; intros k p rest; simpl; [discriminate|].
  destruct (tid_eqb (tid_of k0) t).
  - intros [= <- <- <-] H. now inversion H.
  - destruct (take t l) as [[[k1 p1] r1]|]; [|discriminate].
    intros [= <- <- <-] H. inversion H; subst.
    destruct (IH k1 p1 r1 eq_refl) as [Hk Hr]; [assumption|].
    split; [assumption|now constructor].
Qed.

(** Taking a request out of the loop hands what it stands for to the
    operation that is resumed. *)
Lemma inv_take (t : tid) (q : queue) (k : frame) (p : pc)
    (rest : list (frame * pc)) :
  inv nothing q -> take t (loop q) = Some (k, p, rest) ->
  inv (fun j => weight (heap q) j (k, p)) (set_loop rest q) /\
  thread_ok (set_loop rest q) (k, p).
Proof.
  intros (H1 & H2 & H3 & H4 & H5 & H6) Ht.
  destruct (take_Forall _ _ _ _ _ _ Ht H1) as [Hk Hrest].
  split; [|revert Hk; apply thread_ok_ext; reflexivity].
  unfold inv, pending_ok, heap_ok, history_ok, tokens, waiting in *. qsimpl.
  conj; try tauto;
    try (eapply Forall_impl; [|eassumption]; intros ?;
         first [apply thread_ok_ext | apply frame_ok_ext]; reflexivity).
  intros j. specialize (H6 j).
  rewrite (take_sum nat (weight (heap q) j) _ _ _ _ _ Ht) in H6.
  unfold nothing in H6. lia.
Qed.

Lemma resume_inv (k : frame) (p : pc) (e : env) (q : queue) :
  inv (fun j => weight (heap q) j (k, p)) q ->
  thread_ok q (k, p) ->
  inv nothing (uncaught (resume k p e q)).
Proof.
  intros Hinv Hk. unfold resume.
  assert (Hw : inv (fun j => frame_weight j k) q).
  { eapply inv_weaken; [exact Hinv|]. intros j. unfold weight. simpl. lia. }
  destruct (resume_lock k p e q) as [c|] eqn:Hc.
  - apply (resume_lock_inv k p e q c Hc Hw). apply Hk.
  - destruct k as [|task|r rt|o].
    + simpl. eapply inv_weaken; [exact Hw|]. intros j. reflexivity.
    + now apply resume_push_inv.
    + apply resume_check_inv; [|assumption].
      eapply inv_weaken; [exact Hw|]. intros j. reflexivity.
    + apply resume_run_inv; [|assumption].
      eapply inv_weaken; [exact Hinv|]. intros j. unfold weight. simpl. lia.
Qed.

Lemma fire_inv (t : tid) (e : env) (q q' : queue) :
  inv nothing q -> fire t e q = Some q' -> inv nothing q'.
Proof.
  intros Hinv. unfold fire. destruct (crashed q); [discriminate|].
  destruct (take t (loop q)) as [[[k p] rest]|] eqn:Ht; [|discriminate].
  intros [= <-]. destruct (inv_take t q k p rest Hinv Ht) as [H1 H2].
  now apply resume_inv.
Qed.

Lemma fresh_spec (u : string) (q : queue) :
  fresh u q = true -> str_truthy u = true /\ ~ In u (issued q).
Proof.
  unfold fresh. intros H. apply andb_true_iff in H. destruct H as [H1 H2].
  split; [assumption|]. intros Hin. apply negb_true_iff in H2.
  assert (Hex : existsb (String.eqb u) (issued q) = true)
    by (apply existsb_exists; exists u; split;
        [assumption|apply String.eqb_refl]).
  congruence.
Qed.

Lemma push_inv (params : jsval) (u date : string) (q : queue) :
  inv nothing q -> fresh u q = true ->
  match push params u date q with
  | Return q' => inv nothing q'
  | Throw _ q' => inv nothing q'
  end.
Proof.
  intros Hinv Hfresh. destruct (fresh_spec u q Hfresh) as [Hu Hnew].
  unfold push. destruct (negb (truthy params)); [exact Hinv|].
  set (task := Task.Make u params pending date None None None None).
  set (q1 := record u pending (set_issued (u :: issued q) q)).
  assert (H0 : inv (owed u) q).
  { pose proof (tokens_unissued nothing q u Hinv Hnew) as Hz.
    destruct Hinv as (H1 & H2 & H3 & H4 & H5 & H6). unfold inv.
    conj; try assumption. intros j. specialize (H6 j). unfold owed, nothing in *.
    destruct (String.eqb_spec u j) as [<-|Hne]; lia. }
  assert (H1 : inv (owed u) q1).
  { pose proof H0 as (_ & _ & _ & H4 & (H5a & H5b & H5c) & _).
    apply (inv_update (owed u) (owed u) q q1 H0); try reflexivity.
    - intros o t Ho. now exists t.
    - subst q1. qsimpl. now apply incl_tl, incl_refl.
    - unfold heap_ok. subst q1. qsimpl.
      eapply Forall_impl; [|exact H4]. intros t [Hi Hr].
      split; [now right|]. rewrite statuses_of_app. apply in_or_app. tauto.
    - unfold history_ok. subst q1. qsimpl. conj.
      + now constructor.
      + intros j s Hjs. apply in_app_or in Hjs. destruct Hjs as [Hjs|Hjs];
          [right; now apply (H5b j s)|].
        destruct Hjs as [[= <- <-]|[]]. now left.
      + intros j Hj. rewrite statuses_of_app, statuses_of_single.
        destruct (String.eqb_spec u j) as [<-|Hne].
        * destruct (statuses_of u (history q)) as [|s l] eqn:Hs;
            [reflexivity|].
          elim Hnew. apply (H5b u s). apply statuses_of_In. rewrite Hs.
          now left.
        * rewrite app_nil_r. apply H5c. destruct Hj; [now elim Hne|assumption].
    - intros j. subst q1. qsimpl. rewrite ends_snoc. simpl. lia. }
  pose proof (lock_inv nothing (PushFrame task) q1) as Hl.
  destruct (lock (PushFrame task) q1) as [q'|x q'] eqn:Hlock.
  - apply Hl.
    + eapply inv_weaken; [exact H1|]. intros j. unfold nothing. simpl. lia.
    + simpl. now left.
  - apply lock_throw in Hlock. subst q'.
    eapply inv_weaken; [exact H1|]. intros j. unfold nothing. lia.
Qed.

Lemma step_inv (q q' : queue) (ev : event) :
  inv nothing q -> step q ev = Some q' -> inv nothing q'.
Proof.
  intros Hinv. unfold step. destruct (crashed q); [discriminate|].
  destruct ev as [params u d|u|t e].
  - destruct (fresh u q) eqn:Hf; [|discriminate].
    pose proof (push_inv params u d q Hinv Hf) as Hp.
    destruct (push params u d q); now intros [= <-].
  - destruct (deferred q) as [|n]; [discriminate|]. intros [= <-].
    apply checkNextTask_inv. revert Hinv. apply inv_ext; reflexivity.
  - now apply fire_inv.
Qed.

Lemma run_inv (evs : list event) :
  forall q q', inv nothing q -> run evs q = Some q' -> inv nothing q'.
Proof.
  induction evs as [|ev evs IH]; intros q q' Hinv; simpl.
  - now intros [= <-].
  - destruct (step q ev) as [q1|] eqn:Hs; [|discriminate].
    apply IH. now apply (step_inv q q1 ev).
Qed.

Lemma create_inv (n : Z) (d : disk) :
  pending_dir d = [] -> inv nothing (create n d).
Proof.
  intros Hd.
  unfold inv, pending_ok, heap_ok, history_ok, tokens, waiting. simpl.
  rewrite Hd. conj; try (now constructor); try tauto.
Qed.

Lemma reachable_inv (n : Z) (q : queue) : reachable n q -> inv nothing q.
Proof.
  intros (d & evs & Hd & Hrun).
  exact (run_inv evs _ _ (create_inv n d Hd) Hrun).
Qed.


(** ** The statements at work on concrete inputs *)

(** C9, as stated, fails: the owner ["a"] asks again while it holds the
    mutex; the call does not make it owner anew, its callback is not
    armed, and the request sits in the queue. *)
Lemma reentrant_lock_does_not_complete :
  let m := fst (Mutex.lock "a" (Some "first") Mutex.create) in
  Mutex.lockedBy m = Some "a" /\
  ~ Mutex.completes_now "a" (Some "second") m /\
  setTimeout0 (snd (Mutex.lock "a" (Some "second") m)) = [] /\
  Mutex.queue (fst (Mutex.lock "a" (Some "second") m))
    = [Waiter "a" (Some "second")].
Proof.
  vm_compute. repeat split. discriminate.
Qed.

Lemma unlock_by_non_owner_throws_witness :
  Mutex.unlock "b" (Mutex.Make nat (Some "a") [Waiter "b" (Some 1)])
    = Throw (InternalError
               "Mutex has been locked by someone else and cannot be unlocked"
               "id=b, lockedBy=a")
            (Mutex.Make nat (Some "a") [Waiter "b" (Some 1)], None)
  /\ FileMutex.unlock "b" (FileMutex.Make nat (Some 3) None [] false)
    = Throw (InternalError
               "Mutex has been locked by someone else and cannot be unlocked"
               "id=b, lockedBy=null")
            (FileMutex.Make nat (Some 3) None [] false, None).
Proof.
  apply (unlock_by_non_owner_throws nat "b"
           (Mutex.Make nat (Some "a") [Waiter "b" (Some 1)])
           (FileMutex.Make nat (Some 3) None [] false)); discriminate.
Defined.

Lemma reentrant_lock_is_queued_witness :
  Mutex.lock "a" (Some 2) (Mutex.Make nat (Some "a") [])
    = (Mutex.Make nat (Some "a") [Waiter "a" (Some 2)], None)
  /\ Mutex.unlock "a" (Mutex.Make nat (Some "a") [Waiter "a" (Some 2)])
    = Return (Mutex.Make nat (Some "a") [], Some (Waiter "a" (Some 2))).
Proof.
  destruct (reentrant_lock_is_queued nat "a" (Some 2)
              (Mutex.Make nat (Some "a") [])
              (FileMutex.Make nat (Some 3) (Some "a") [] true) None
              eq_refl eq_refl eq_refl) as (H1 & _ & H2 & _).
  split; [exact H1 | exact (H2 eq_refl)].
Defined.


(** C8, as stated, fails: the running folder is empty, and the removal of
    task ["A"] from it hands an [InternalError] to the callback. *)
Lemma remove_of_missing_file_fails :
  let task := Task.Make "A" build running "t1" None None None None in
  dir_lookup (file_of "A") (get_dir RunningFolder (mkdirp empty_disk)) = None
  /\ fst (removeTaskFromFolder_on task RunningFolder (mkdirp empty_disk))
     = Some (InternalError "Could not save task to file" "unlink")
  /\ fst (removeTaskFromFolder_on task RunningFolder (mkdirp empty_disk))
     <> None.
Proof. vm_compute. repeat split. discriminate. Qed.

Lemma remove_of_missing_file_is_an_error_witness :
  removeTaskFromFolder_on
    (Task.Make "A" build running "t1" None None None None)
    RunningFolder (mkdirp empty_disk)
  = (Some (InternalError "Could not save task to file" "unlink"),
     mkdirp empty_disk).
Proof.
  apply (remove_of_missing_file_is_an_error
           (Task.Make "A" build running "t1" None None None None)
           RunningFolder (mkdirp empty_disk)).
  reflexivity.
Defined.



(** C3.  The status of a task does leave a terminal state: with two
    [checkNextTask] in the same turn of the event loop, both given the
    lock, the index holds task A with status ['success'] after the worker
    has ended, and with status ['running'] one event later, when the write
    issued by the slower [checkNextTask] completes.  Nothing has crashed
    on the way. *)
Theorem index_status_leaves_success :
  option_map (fun q => (crashed q, index_statuses q))
             (run (firstn 26 racing_dequeues) (create 1 empty_disk))
  = Some (None, [("A.json", Some success); ("B.json", Some pending)])
  /\ option_map (fun q => (crashed q, index_statuses q))
                (run racing_dequeues (create 1 empty_disk))
     = Some (None, [("A.json", Some running); ("B.json", Some pending)]).
Proof. vm_compute. split; reflexivity. Qed.


(** * Further properties *)

(** ** The in-memory mutex *)

Section MutexMore.
Context {C : Type}.

Lemma Mutex_step_keeps_waiters_behind_an_owner (s : Mutex.session C)
    (c : Mutex.call C) :
  (Mutex.queue (Mutex.mutex s) = [] \/ Mutex.lockedBy (Mutex.mutex s) <> None) ->
  Mutex.queue (Mutex.mutex (Mutex.step s c)) = []
  \/ Mutex.lockedBy (Mutex.mutex (Mutex.step s c)) <> None.
Proof.
  destruct s as [[o qu] g r tm]. simpl. intros H.
  destruct c as [id cb|id]; unfold Mutex.step, Mutex.lock, Mutex.unlock,
    Mutex.held; simpl.
  - destruct o as [i|]; [destruct (str_truthy i)|]; simpl;
      right; discriminate.
  - destruct (owner_differs o id); simpl; [exact H|].
    destruct qu as [|w rest]; simpl; [now left|right; discriminate].
Qed.

(** X2.  Whatever the calls, and whatever the ids, the in-memory mutex is never
    free while a request waits in its queue: no waiter is left behind. *)
Theorem Mutex_never_free_with_waiters (cs : list (Mutex.call C)) :
  Mutex.queue (Mutex.mutex (Mutex.run cs)) = []
  \/ Mutex.lockedBy (Mutex.mutex (Mutex.run cs)) <> None.
Proof.
  unfold Mutex.run.
  assert (H : forall s,
             (Mutex.queue (Mutex.mutex s) = []
              \/ Mutex.lockedBy (Mutex.mutex s) <> None) ->
             Mutex.queue (Mutex.mutex (fold_left Mutex.step cs s)) = []
             \/ Mutex.lockedBy (Mutex.mutex (fold_left Mutex.step cs s))
                <> None).
  { induction cs as [|c cs IH]; intros s Hs; [exact Hs|].
    simpl. apply IH. now apply Mutex_step_keeps_waiters_behind_an_owner. }
  apply H. now left.
Qed.

Lemma Mutex_locks_queue_behind (ws : list (waiter C)) :
  forall s i,
    Mutex.lockedBy (Mutex.mutex s) = Some i -> str_truthy i = true ->
    fold_left Mutex.step (lock_all ws) s
    = {| Mutex.mutex := {| Mutex.lockedBy := Some i;
                           Mutex.queue := Mutex.queue (Mutex.mutex s) ++ ws |};
         Mutex.granted := Mutex.granted s;
         Mutex.released := Mutex.released s;
         Mutex.timers := Mutex.timers s |}.
Proof.
  induction ws as [|[id cb] ws IH]; intros [[o qu] g r tm] i Ho Hi;
    simpl in *; subst o.
  - now rewrite app_nil_r.
  - unfold Mutex.lock, Mutex.held. simpl. rewrite Hi. simpl.
    rewrite !app_nil_r. rewrite IH with (i := i) by (simpl; auto). simpl.
    now rewrite <- app_assoc.
Qed.

Lemma Mutex_unlock_hands_over (w w' : waiter C) (rest g : list (waiter C))
    (r : list string) (tm : list C) :
  Mutex.step
    {| Mutex.mutex := {| Mutex.lockedBy := Some (waiter_id w);
                         Mutex.queue := w' :: rest |};
       Mutex.granted := g; Mutex.released := r; Mutex.timers := tm |}
    (Mutex.Unlock (waiter_id w))
  = {| Mutex.mutex := {| Mutex.lockedBy := Some (waiter_id w');
                         Mutex.queue := rest |};
       Mutex.granted := g ++ [w'];
       Mutex.released := r ++ [waiter_id w];
       Mutex.timers := tm ++ setTimeout0 (Some w') |}.
Proof.
  unfold Mutex.step, Mutex.unlock. simpl. now rewrite String.eqb_refl.
Qed.

Lemma Mutex_unlocks_drain (rest : list (waiter C)) :
  forall w g r tm,
    fold_left Mutex.step (unlock_all (w :: rest))
      {| Mutex.mutex := {| Mutex.lockedBy := Some (waiter_id w);
                           Mutex.queue := rest |};
         Mutex.granted := g; Mutex.released := r; Mutex.timers := tm |}
    = {| Mutex.mutex := Mutex.create;
         Mutex.granted := g ++ rest;
         Mutex.released := r ++ map waiter_id (w :: rest);
         Mutex.timers := tm ++ callbacks rest |}.
Proof.
  induction rest as [|w' rest IH]; intros w g r tm.
  - simpl. unfold Mutex.unlock. simpl. rewrite String.eqb_refl. simpl.
    now rewrite !app_nil_r.
  - change (unlock_all (w :: w' :: rest))
      with (Mutex.Unlock (waiter_id w) :: unlock_all (w' :: rest)).
    cbn [fold_left]. rewrite Mutex_unlock_hands_over, IH. f_equal.
    + now rewrite <- app_assoc.
    + now rewrite <- app_assoc.
    + unfold callbacks. cbn [flat_map]. now rewrite <- app_assoc.
Qed.

(** X3.  When the requesters of [ws] all ask for a free mutex and then each
    releases it in turn, every one of them is made owner, in the order of
    the requests, each callback is armed once, and the mutex ends free with
    an empty queue: nobody starves and nobody is served twice. *)
Theorem Mutex_serves_everyone_in_turn (ws : list (waiter C)) :
  Forall (fun w => str_truthy (waiter_id w) = true) ws ->
  Mutex.run (lock_all ws ++ unlock_all ws)
  = {| Mutex.mutex := Mutex.create;
       Mutex.granted := ws;
       Mutex.released := map waiter_id ws;
       Mutex.timers := callbacks ws |}.
Proof.
  intros Hws. unfold Mutex.run. rewrite fold_left_app.
  destruct ws as [|w rest]; [reflexivity|].
  inversion Hws as [|w0 l Hw Hrest]; subst.
  change (lock_all (w :: rest))
    with (Mutex.Lock (waiter_id w) (waiter_callback w) :: lock_all rest).
  cbn [fold_left]. unfold Mutex.step at 2, Mutex.start, Mutex.lock,
    Mutex.held, Mutex.create. simpl.
  rewrite Mutex_locks_queue_behind with (i := waiter_id w)
    by (simpl; auto).
  simpl. destruct w as [id cb].
  exact (Mutex_unlocks_drain rest (Waiter id cb) [Waiter id cb] []
           (setTimeout0 (Some (Waiter id cb)))).
Qed.

(** ** The file mutex against the in-memory mutex *)

(** X4.  On [lockedBy] and [queue], [unlock] of the file mutex does what
    [unlock] of the in-memory mutex does, and a [lock] whose [fs.flock]
    request succeeds before anything else happens does what [lock] of the
    in-memory mutex does: the two differ only by the time the request
    stays in flight. *)
Theorem FileMutex_acts_as_Mutex (fm : FileMutex.t C) (id id' : string)
    (cb : option C) (openSync : option nat) :
  FileMutex.fd fm <> None \/ openSync <> None ->
  Mutex.unlock id (project fm)
  = match FileMutex.unlock id fm with
    | Return (fm', g) => Return (project fm', g)
    | Throw e (fm', g) => Throw e (project fm', g)
    end
  /\ match FileMutex.lock openSync id' cb fm with
     | Return (fm1, Some w) =>
         match FileMutex.flock_callback false w fm1 with
         | Return (fm2, _) | Throw _ (fm2, _) =>
             Mutex.lock id' cb (project fm) = (project fm2, Some w)
         end
     | Return (fm1, None) =>
         Mutex.lock id' cb (project fm) = (project fm1, None)
     | Throw _ _ => False
     end.
Proof.
  intros Hopen. destruct fm as [d o qu fl]. split.
  - unfold Mutex.unlock, FileMutex.unlock, project. simpl.
    destruct (owner_differs o id); [reflexivity|].
    now destruct qu.
  - unfold Mutex.lock, FileMutex.lock, FileMutex.flock_callback,
      Mutex.held, FileMutex.held, project. simpl in *.
    destruct (match o with Some i => str_truthy i | None => false end);
      [reflexivity|].
    destruct d as [n|]; simpl; [now destruct cb|].
    destruct openSync as [n|]; simpl; [now destruct cb|].
    destruct Hopen as [H|H]; now elim H.
Qed.

End MutexMore.

(** ** The task queue: what every execution keeps *)

Lemma workers_on_le_weight (h : list Task.t) (j : string)
    (l : list (frame * pc)) :
  length (filter (fun o => match nth_error h o with
                           | Some task => String.eqb (Task.id task) j
                           | None => false
                           end)
                 (flat_map (fun kp => match kp with
                                      | (RunFrame o, AwaitWorker) => [o]
                                      | _ => []
                                      end) l))
  <= list_sum (map (weight h j) l).
Proof.
  induction l as [|[k p] l IH]; simpl; [lia|].
  rewrite filter_app, length_app.
  assert (Hk : length (filter (fun o => match nth_error h o with
                                        | Some task => String.eqb (Task.id task) j
                                        | None => false
                                        end)
                              match k with
                              | RunFrame o =>
                                  match p with AwaitWorker => [o] | _ => [] end
                              | _ => []
                              end)
               <= weight h j (k, p)).
  { unfold weight. destruct k as [| | |o]; simpl; try lia.
    destruct p; simpl; try lia. unfold owed.
    destruct (nth_error h o) as [task|]; simpl; [|lia].
    destruct (String.eqb (Task.id task) j); simpl; lia. }
  destruct k as [| | |o]; simpl in *; try lia.
Qed.

(** X5.  In every execution and for every task id, at most one of these holds,
    and at most once: the file of the task is in the pending folder, a
    worker is at work on the task, the task has been given its final
    status.  No task is handed to two workers, run while it is still
    listed as pending, or run again once it has ended. *)
Theorem task_is_run_at_most_once (n : Z) (q : queue) (j : string) :
  reachable n q ->
  files_named (file_of j) (pending_dir (store q))
  + workers_on j q + ends j (history q) <= 1.
Proof.
  intros Hreach.
  pose proof (reachable_inv n q Hreach) as (_ & _ & _ & _ & _ & H).
  specialize (H j). unfold tokens, nothing in H.
  pose proof (workers_on_le_weight (heap q) j (loop q)) as Hw.
  unfold workers_on, working, works_on. lia.
Qed.

(** ** The task queue: the list of running tasks *)


Lemma count_without (o o' : nat) (l : list nat) :
  count_occ Nat.eq_dec (without o' l) o
  = if Nat.eqb o' o then 0 else count_occ Nat.eq_dec l o.
Proof.
  unfold without. induction l as [|x l IH]; simpl.
  - now destruct (Nat.eqb o' o).
  - destruct (Nat.eqb_spec x o') as [->|Hne]; simpl.
    + destruct (Nat.eq_dec o' o) as [->|Hne'].
      * now rewrite Nat.eqb_refl in *.
      * exact IH.
    + destruct (Nat.eq_dec x o) as [->|Hne']; [|exact IH].
      rewrite IH. destruct (Nat.eqb_spec o' o); [congruence|reflexivity].
Qed.

#[local] Hint Rewrite @map_app @list_sum_app @flat_map_app @count_occ_app
  @length_app @heap_set_length count_without @app_nil_r : counting.


Lemma step_running_inv (q q' : queue) (ev : event) :
  running_inv q -> step q ev = Some q' -> running_inv q'.
Proof.
  intros HN H. open_step H.
  all: intros o; specialize (HN o); use_take (take_sum nat (hold1 o)).
  all: tidy.
  all: count_tac.
Qed.


Lemma create_running_inv (n : Z) (d : disk) : running_inv (create n d).
Proof. intros o. unfold holders, waiting. simpl. lia. Qed.







(** ** The task queue: a slot that is never given back *)

Lemma step_leaked (o : nat) (q q' : queue) (ev : event) :
  leaked o q -> step q ev = Some q' -> leaked o q'.
Proof.
  unfold leaked. rewrite !(count_occ_In Nat.eq_dec).
  intros (Hin & Hlt & Hm) H. open_step H.
  all: use_take (take_sum nat (fun kp => mention0 o (fst kp))).
  all: tidy.
  all: count_tac.
Qed.

Lemma working_mentions (o : nat) (l : list (frame * pc)) :
  In o (flat_map (fun kp => match kp with
                            | (RunFrame o', AwaitWorker) => [o']
                            | _ => []
                            end) l) ->
  1 <= list_sum (map (fun kp => mention0 o (fst kp)) l).
Proof.
  induction l as [|[k p] l IH]; simpl; [tauto|].
  intros Hw. apply in_app_or in Hw. destruct Hw as [Hw|Hw].
  - destruct k as [| | |o']; simpl in Hw; try tauto.
    destruct p; simpl in Hw; try tauto.
    destruct Hw as [->|[]]. simpl. rewrite Nat.eqb_refl. lia.
  - specialize (IH Hw). lia.
Qed.

Lemma idle_working (l : list (frame * pc)) :
  list_sum (map (fun kp => busy0 (fst kp)) l) = 0 ->
  flat_map (fun kp => match kp with
                      | (RunFrame o', AwaitWorker) => [o']
                      | _ => []
                      end) l = [].
Proof.
  induction l as [|[k p] l IH]; simpl; [reflexivity|].
  destruct k; simpl; try lia; intros H; apply IH; lia.
Qed.

(** X8.  A task that is listed in [runningTasks] while no operation refers
    to it stays listed for ever: nothing that happens later takes it off
    the list, and no worker is ever started on it. *)
Theorem leaked_slot_is_never_released (o : nat) (evs : list event) :
  forall q q', leaked o q -> run evs q = Some q' ->
               In o (runningTasks q') /\ ~ In o (working q').
Proof.
  assert (Hrun : forall q q', leaked o q -> run evs q = Some q' -> leaked o q').
  { induction evs as [|ev evs IH]; intros q q' HL; simpl.
    - now intros [= <-].
    - destruct (step q ev) as [q1|] eqn:Hs; [|discriminate].
      apply IH. now apply (step_leaked o q q1 ev). }
  intros q q' HL H. destruct (Hrun q q' HL H) as (Hin & _ & Hm).
  split; [exact Hin|]. intros Hw.
  apply working_mentions in Hw. unfold mentions in Hm. lia.
Qed.

Lemma step_wedged (q q' : queue) (ev : event) :
  wedged q -> step q ev = Some q' ->
  wedged q' /\ runningTasks q' = runningTasks q /\ heap q' = heap q.
Proof.
  unfold wedged.
  intros (Hmax & Hcap & Hb) H. open_step H.
  all: use_take (take_sum nat (fun kp => busy0 (fst kp))).
  all: tidy.
  all: count_tac.
  all: split_bools; conj; try reflexivity; try lia.
Qed.

(** X9.  Once [maxItems] tasks are listed in [runningTasks] and no dequeue
    or run is in progress, the queue has stopped for good: whatever is
    pushed and whatever completes afterwards, [runningTasks] and the task
    objects stay as they are, no task is dequeued and no worker is
    started. *)
Theorem wedged_queue_runs_nothing_more (evs : list event) :
  forall q q', wedged q -> run evs q = Some q' ->
               runningTasks q' = runningTasks q
               /\ heap q' = heap q
               /\ working q' = []
               /\ busy q' = 0.
Proof.
  assert (Hrun : forall q q', wedged q -> run evs q = Some q' ->
                              wedged q' /\ runningTasks q' = runningTasks q
                              /\ heap q' = heap q).
  { induction evs as [|ev evs IH]; intros q q' HW; simpl.
    - intros [= <-]. auto.
    - destruct (step q ev) as [q1|] eqn:Hs; [|discriminate].
      destruct (step_wedged q q1 ev HW Hs) as (HW1 & Hr1 & Hh1).
      intros H. destruct (IH q1 q' HW1 H) as (HW' & Hr & Hh).
      split; [exact HW'|]. split; congruence. }
  intros q q' HW H. destruct (Hrun q q' HW H) as ((_ & _ & Hb) & Hr & Hh).
  conj; try assumption.
  unfold busy in Hb. apply idle_working. lia.
Qed.

(** ** The task queue: the error of the initialization *)

Lemma step_ready_ok (q q' : queue) (ev : event) :
  ready_ok q -> step q ev = Some q' -> ready_ok q'.
Proof.
  unfold ready_ok.
  intros HR H. open_step H.
  all: tidy.
  all: try congruence; try tauto.
Qed.

Lemma run_ready_ok (evs : list event) :
  forall q q', ready_ok q -> run evs q = Some q' -> ready_ok q'.
Proof.
  induction evs as [|ev evs IH]; intros q q' HR; simpl.
  - now intros [= <-].
  - destruct (step q ev) as [q1|] eqn:Hs; [|discriminate].
    apply IH. now apply (step_ready_ok q q1 ev).
Qed.

(** X10.  In every execution of the queue, [whenReady] never hands the
    error of the initialization to a later caller: [this.error] is set
    together with [this.initialized], which is tested first, so that once
    the folders could not be created every later [lock] calls back without
    error, as if the folders were there. *)
Theorem whenReady_forgets_the_initialization_error (n : Z) (d : disk)
    (evs : list event) (q : queue) (k : frame) (u : string) :
  run evs (create n d) = Some q ->
  error q <> None ->
  whenReady k u q = ready k None u q.
Proof.
  intros Hrun Herr.
  assert (HR : ready_ok q).
  { apply (run_ready_ok evs (create n d) q); [|exact Hrun].
    intros _. reflexivity. }
  unfold whenReady. destruct (initialized q) eqn:Hi; [reflexivity|].
  now elim Herr; apply HR.
Qed.

(** ** The task queue: who holds the lock *)

#[local] Hint Rewrite @forallb_app andb_true_r String.eqb_refl : counting.

Lemma step_owner_inv (q q' : queue) (ev : event) :
  running_inv q -> owner_inv q -> step q ev = Some q' -> owner_inv q'.
Proof.
  unfold owner_inv.
  intros HN (Hs & Hw & Ho) H. open_step H.
  all: use_take (take_sum nat stray).
  all: tidy.
  all: owner_pre.
  all: owner_post (take_sum nat).
  all: no_such_object (take_sum nat).
Qed.

Lemma created_owner_inv (evs : list event) :
  forall q q', running_inv q -> owner_inv q -> run evs q = Some q' ->
               owner_inv q'.
Proof.
  induction evs as [|ev evs IH]; intros q q' HN HO; simpl.
  - now intros [= <-].
  - destruct (step q ev) as [q1|] eqn:Hs; [|discriminate].
    apply IH.
    + now apply (step_running_inv q q1 ev).
    + now apply (step_owner_inv q q1 ev).
Qed.

Lemma owner_found (id : string) (l : list (frame * pc)) :
  1 <= list_sum (map (owns id) l) ->
  exists k p, In (k, p) l /\ owns id (k, p) = 1.
Proof.
  induction l as [|[k p] l IH]; [simpl; lia|].
  intros H. change (1 <= owns id (k, p) + list_sum (map (owns id) l)) in H.
  destruct (owns id (k, p)) as [|[|n]] eqn:Hk.
  - destruct IH as (k' & p' & Hin & Ho); [lia|]. exists k', p'.
    split; [now right|exact Ho].
  - exists k, p. split; [now left|exact Hk].
  - exfalso. unfold owns in Hk.
    destruct k; try discriminate; destruct p; try discriminate;
      cbn [lock_id] in Hk;
      match type of Hk with
      | (if ?b then _ else _) = _ => destruct b; discriminate
      end.
Qed.

(** X11.  In every execution made of [push], [checkNextTask] and
    [runTask] and of the completions of their requests ([get], which
    takes the same lock, is not one of the events), whoever holds the lock
    is an operation still in progress: one that took the lock under that
    id, whose [fs.flock] has completed or that was handed the lock by
    [unlock], and that has not ended.  Neither [push] nor [checkNextTask]
    ends and leaves the lock taken, whatever fails on its way. *)
Theorem lock_holder_is_in_progress (n : Z) (d : disk)
    (evs : list event) (q : queue) (id : string) :
  run evs (create n d) = Some q ->
  FileMutex.lockedBy (mutex q) = Some id ->
  exists k p, In (k, p) (loop q) /\ lock_id k = id /\ p <> AwaitFlock.
Proof.
  intros Hrun Hid.
  assert (HO : owner_inv q).
  { apply (created_owner_inv evs (create n d) q).
    - apply create_running_inv.
    - unfold owner_inv. simpl. conj; try reflexivity. discriminate.
    - exact Hrun. }
  destruct HO as (_ & _ & Ho).
  destruct (owner_found id (loop q) (Ho id Hid)) as (k & p & Hin & Hk).
  exists k, p. split; [exact Hin|].
  unfold owns in Hk.
  destruct k as [|task|r rt|o]; try discriminate;
    destruct p; try discriminate; cbn [lock_id] in *;
    match type of Hk with
    | (if String.eqb ?a ?b then _ else _) = _ =>
        destruct (String.eqb_spec a b) as [->|]; [|discriminate]
    end;
    conj; try reflexivity; discriminate.
Qed.

(** ** The task queue: [runTask] after the worker has called back *)

Lemma tid_eqb_refl (t : tid) : tid_eqb t t = true.
Proof.
  destruct t; simpl; auto using String.eqb_refl, Nat.eqb_refl.
Qed.

Lemma take_snoc (t : tid) (k : frame) (p : pc) :
  forall l, take t l = None -> tid_of k = t ->
            take t (l ++ [(k, p)]) = Some (k, p, l).
Proof.
  induction l as [|[k0 p0] l IH]; simpl; intros Hn Ht.
  - now rewrite Ht, tid_eqb_refl.
  - destruct (tid_eqb (tid_of k0) t); [discriminate|].
    destruct (take t l) as [[[k1 p1] r1]|]; [discriminate|].
    now rewrite IH.
Qed.

Lemma runTask_write_done (q : queue) (o : nat) (task : Task.t)
    (rest : list (frame * pc)) (f : folder) (name : string) (data : Task.t)
    (e : env) :
  crashed q = None ->
  take (TRun o) (loop q) = Some (RunFrame o, AwaitWrite f name data, rest) ->
  nth_error (heap q) o = Some task ->
  str_truthy (Task.id task) = true ->
  exists q',
    step q (EvFire (TRun o) e) = Some q'
    /\ loop q' = rest ++ [(RunFrame o,
                           AwaitUnlink RunningFolder (file_of (Task.id task)))]
    /\ heap q' = heap q /\ runningTasks q' = runningTasks q
    /\ deferred q' = deferred q /\ mutex q' = mutex q /\ crashed q' = None.
Proof.
  intros Hc Ht Hn Hid.
  unfold step, fire. rewrite Hc, Ht. unfold resume. cbn [resume_lock].
  unfold resume_run. cbn [heap set_loop]. rewrite Hn.
  unfold run_remove, removeTaskFromFolder. rewrite Hid.
  unfold do_write.
  destruct (io_fails e);
    [|destruct (fs_writeFile f name (Json data) (store (set_loop rest q)))];
    simpl; eexists; (split; [reflexivity|]); simpl; conj; auto.
Qed.

Lemma runTask_unlink_done (q : queue) (o : nat) (task : Task.t)
    (rest : list (frame * pc)) (f : folder) (name : string) (e : env) :
  crashed q = None ->
  take (TRun o) (loop q) = Some (RunFrame o, AwaitUnlink f name, rest) ->
  nth_error (heap q) o = Some task ->
  exists q',
    step q (EvFire (TRun o) e) = Some q'
    /\ loop q' = rest
    /\ heap q' = heap q /\ runningTasks q' = runningTasks q
    /\ deferred q' = S (deferred q) /\ mutex q' = mutex q
    /\ crashed q' = None.
Proof.
  intros Hc Ht Hn.
  unfold step, fire. rewrite Hc, Ht. unfold resume. cbn [resume_lock].
  unfold resume_run. cbn [heap set_loop]. rewrite Hn.
  unfold do_unlink.
  destruct (io_fails e);
    [|destruct (fs_unlink f name (store (set_loop rest q)))];
    simpl; eexists; (split; [reflexivity|]); simpl; conj; auto.
Qed.

(** X12.  Once the worker of a task has called back, [runTask] always
    goes on to the next task: whatever the worker answers and whether the
    write to the index and the removal from the running folder succeed or
    fail (the errors are only logged), after these two requests the task
    is off [runningTasks], its outcome is in the task object, a
    [checkNextTask] has been deferred, and the lock has not been touched. *)
Theorem runTask_always_moves_on (q : queue) (o : nat) (task : Task.t)
    (rest : list (frame * pc)) (e1 e2 e3 : env) :
  crashed q = None ->
  take (TRun o) (loop q) = Some (RunFrame o, AwaitWorker, rest) ->
  take (TRun o) rest = None ->
  nth_error (heap q) o = Some task ->
  str_truthy (Task.id task) = true ->
  exists q',
    run [EvFire (TRun o) e1; EvFire (TRun o) e2; EvFire (TRun o) e3] q
      = Some q'
    /\ loop q' = rest
    /\ runningTasks q' = without o (runningTasks q)
    /\ nth_error (heap q') o
       = Some (worker_callback (worker_err e1) (worker_result e1) (now e1)
                               task)
    /\ deferred q' = S (deferred q)
    /\ mutex q' = mutex q
    /\ crashed q' = None.
Proof.
  intros Hc Ht Hrest Hn Hid.
  pose (task' := worker_callback (worker_err e1) (worker_result e1) (now e1)
                                 task).
  assert (Hid' : Task.id task' = Task.id task)
    by apply worker_callback_id.
  assert (Ho : o < length (heap q)) by (apply nth_error_Some; congruence).
  pose (q1 := spawn (RunFrame o)
                (AwaitWrite IdFolder (file_of (Task.id task')) task')
                (record (Task.id task') (Task.status task')
                   (set_runningTasks (without o (runningTasks q))
                      (set_heap (heap_set o task' (heap q))
                                (set_loop rest q))))).
  assert (H1 : step q (EvFire (TRun o) e1) = Some q1).
  { unfold step, fire. rewrite Hc, Ht. unfold resume. cbn [resume_lock].
    unfold resume_run. cbn [heap set_loop]. rewrite Hn. fold task'.
    unfold run_save, saveTaskToFolder.
    assert (Hs : str_truthy (Task.id task') = true) by congruence.
    rewrite Hs. reflexivity. }
  assert (Hn1 : nth_error (heap q1) o = Some task')
    by (apply heap_set_same; exact Ho).
  destruct (runTask_write_done q1 o task' rest IdFolder
              (file_of (Task.id task')) task' e2)
    as (q2 & H2 & Hl2 & Hh2 & Hr2 & Hd2 & Hm2 & Hc2); auto.
  { apply take_snoc; [exact Hrest|reflexivity]. }
  { congruence. }
  destruct (runTask_unlink_done q2 o task' rest RunningFolder
              (file_of (Task.id task')) e3)
    as (q3 & H3 & Hl3 & Hh3 & Hr3 & Hd3 & Hm3 & Hc3); auto.
  { rewrite Hl2. apply take_snoc; [exact Hrest|reflexivity]. }
  { congruence. }
  exists q3. cbn [run]. rewrite H1, H2, H3.
  conj; try assumption; try reflexivity.
  - rewrite Hr3, Hr2. reflexivity.
  - rewrite Hh3, Hh2. exact Hn1.
  - rewrite Hd3, Hd2. reflexivity.
  - rewrite Hm3, Hm2. reflexivity.
Qed.

(** ** The task queue: a [push] from its call to its end *)

Lemma dir_lookup_write (name : string) (c : content) (x : dir) :
  dir_lookup name (dir_write name c x) = Some c.
Proof.
  induction x as [|[n c'] x IH]; simpl.
  - now rewrite String.eqb_refl.
  - destruct (String.eqb n name) eqn:E; simpl; rewrite E; [reflexivity|exact IH].
Qed.

Lemma dir_lookup_write_other (name name' : string) (c : content) (x : dir) :
  name' <> name ->
  dir_lookup name' (dir_write name c x) = dir_lookup name' x.
Proof.
  intros Hne. induction x as [|[n c'] x IH]; simpl.
  - destruct (String.eqb_spec name name'); [congruence|reflexivity].
  - destruct (String.eqb_spec n name) as [->|Hn]; simpl.
    + destruct (String.eqb_spec name name'); [congruence|reflexivity].
    + destruct (String.eqb n name'); [reflexivity|exact IH].
Qed.

Lemma push_called (q : queue) (params : jsval) (u date : string) :
  crashed q = None -> fresh u q = true -> truthy params = true ->
  FileMutex.held (mutex q) = false -> folders_exist (store q) = true ->
  exists q',
    step q (EvPush params u date) = Some q'
    /\ loop q' = loop q ++ [(PushFrame (pushed params u date), AwaitFlock)]
    /\ FileMutex.lockedBy (mutex q') = FileMutex.lockedBy (mutex q)
    /\ FileMutex.queue (mutex q') = FileMutex.queue (mutex q)
    /\ store q' = store q /\ initialized q' = initialized q
    /\ deferred q' = deferred q /\ crashed q' = None
    /\ heap q' = heap q /\ runningTasks q' = runningTasks q.
Proof.
  intros Hc Hf Hp Hh Hd.
  unfold step. rewrite Hc, Hf. unfold push. rewrite Hp. cbn [negb].
  fold (pushed params u date).
  unfold lock, FileMutex.lock. cbn [mutex store record set_history set_issued].
  rewrite Hh. unfold openSync. rewrite Hd.
  destruct (FileMutex.fd (mutex q)); eexists; (split; [reflexivity|]);
    simpl; conj; auto.
Qed.

Lemma push_flock_done (q : queue) (task : Task.t) (rest : list (frame * pc))
    (e : env) :
  crashed q = None ->
  take (TPush (Task.id task)) (loop q) = Some (PushFrame task, AwaitFlock, rest) ->
  io_fails e = false -> initialized q = true ->
  str_truthy (Task.id task) = true ->
  exists q',
    step q (EvFire (TPush (Task.id task)) e) = Some q'
    /\ loop q' = rest ++ [(PushFrame task,
                           AwaitWrite IdFolder (file_of (Task.id task)) task)]
    /\ FileMutex.lockedBy (mutex q') = Some (Task.id task)
    /\ FileMutex.queue (mutex q') = FileMutex.queue (mutex q)
    /\ store q' = store q /\ initialized q' = initialized q
    /\ deferred q' = deferred q /\ crashed q' = None
    /\ heap q' = heap q /\ runningTasks q' = runningTasks q.
Proof.
  intros Hc Ht He Hi Hid.
  unfold step, fire. rewrite Hc, Ht. unfold resume, resume_lock.
  rewrite He. unfold FileMutex.flock_callback. cbn [waiter_callback].
  unfold lock_granted, whenReady. cbn [initialized set_locked set_mutex set_loop].
  rewrite Hi. cbn [ready]. unfold push_save_id, saveTaskToFolder. rewrite Hid.
  eexists; (split; [reflexivity|]); simpl; conj; auto.
Qed.

Lemma push_id_written (q : queue) (task : Task.t) (rest : list (frame * pc))
    (e : env) :
  crashed q = None ->
  take (TPush (Task.id task)) (loop q)
    = Some (PushFrame task,
            AwaitWrite IdFolder (file_of (Task.id task)) task, rest) ->
  io_fails e = false -> folders_exist (store q) = true ->
  str_truthy (Task.id task) = true ->
  exists q',
    step q (EvFire (TPush (Task.id task)) e) = Some q'
    /\ loop q' = rest ++ [(PushFrame task,
                           AwaitWrite PendingFolder (file_of (Task.id task))
                                      task)]
    /\ mutex q' = mutex q
    /\ store q' = set_dir IdFolder
                    (dir_write (file_of (Task.id task)) (Json task)
                               (id_dir (store q))) (store q)
    /\ initialized q' = initialized q
    /\ deferred q' = deferred q /\ crashed q' = None
    /\ heap q' = heap q /\ runningTasks q' = runningTasks q.
Proof.
  intros Hc Ht He Hd Hid.
  unfold step, fire. rewrite Hc, Ht. unfold resume. cbn [resume_lock].
  unfold resume_push, do_write, fs_writeFile. cbn [store set_loop].
  rewrite He, Hd. cbn [option_map].
  unfold push_save_pending, saveTaskToFolder. rewrite Hid.
  eexists; (split; [reflexivity|]); simpl; conj; auto.
Qed.

Lemma push_pending_written (q : queue) (task : Task.t)
    (rest : list (frame * pc)) (e : env) :
  crashed q = None ->
  take (TPush (Task.id task)) (loop q)
    = Some (PushFrame task,
            AwaitWrite PendingFolder (file_of (Task.id task)) task, rest) ->
  io_fails e = false -> folders_exist (store q) = true ->
  FileMutex.lockedBy (mutex q) = Some (Task.id task) ->
  FileMutex.queue (mutex q) = [] ->
  exists q',
    step q (EvFire (TPush (Task.id task)) e) = Some q'
    /\ loop q' = rest
    /\ FileMutex.lockedBy (mutex q') = None
    /\ FileMutex.queue (mutex q') = []
    /\ store q' = set_dir PendingFolder
                    (dir_write (file_of (Task.id task)) (Json task)
                               (pending_dir (store q))) (store q)
    /\ initialized q' = initialized q
    /\ deferred q' = S (deferred q) /\ crashed q' = None
    /\ heap q' = heap q /\ runningTasks q' = runningTasks q.
Proof.
  intros Hc Ht He Hd Hl Hq.
  unfold step, fire. rewrite Hc, Ht. unfold resume. cbn [resume_lock].
  unfold resume_push, do_write, fs_writeFile. cbn [store set_loop].
  rewrite He, Hd. cbn [option_map].
  unfold push_final, unlock, FileMutex.unlock.
  cbn [mutex set_store set_loop]. rewrite Hl, Hq.
  unfold owner_differs. rewrite String.eqb_refl. cbn [negb].
  eexists; (split; [reflexivity|]); simpl; conj; auto.
Qed.

(** X13.  A [push] on a queue that is ready, whose lock is free and
    whose disk answers: once its three requests have completed ([fs.flock]
    and the two writes), the task is in the index and in the pending
    folder, where it reads back as the task that was made, with status
    ['pending']; the lock is free again, one [checkNextTask] has been
    deferred, and the other operations in flight, the task objects and
    [runningTasks] are as they were. *)
Theorem push_persists_the_task (q : queue) (params : jsval) (u date : string)
    (e1 e2 e3 : env) :
  crashed q = None -> fresh u q = true -> truthy params = true ->
  initialized q = true -> folders_exist (store q) = true ->
  FileMutex.lockedBy (mutex q) = None -> FileMutex.queue (mutex q) = [] ->
  take (TPush u) (loop q) = None ->
  io_fails e1 = false -> io_fails e2 = false -> io_fails e3 = false ->
  exists q',
    run [EvPush params u date; EvFire (TPush u) e1; EvFire (TPush u) e2;
         EvFire (TPush u) e3] q = Some q'
    /\ fs_readFile IdFolder (file_of u) (store q')
       = Some (Json (pushed params u date))
    /\ fs_readFile PendingFolder (file_of u) (store q')
       = Some (Json (pushed params u date))
    /\ FileMutex.lockedBy (mutex q') = None
    /\ deferred q' = S (deferred q)
    /\ loop q' = loop q /\ heap q' = heap q
    /\ runningTasks q' = runningTasks q /\ crashed q' = None.
Proof.
  intros Hc Hf Hp Hi Hd Hl Hq Ht He1 He2 He3.
  assert (Hu : str_truthy u = true).
  { unfold fresh in Hf. now apply andb_prop in Hf. }
  pose (task := pushed params u date).
  destruct (push_called q params u date)
    as (q0 & H0 & Hl0 & Ho0 & Hq0 & Hs0 & Hi0 & Hd0 & Hc0 & Hh0 & Hr0); auto.
  { unfold FileMutex.held. now rewrite Hl. }
  fold task in Hl0.
  destruct (push_flock_done q0 task (loop q) e1)
    as (q1 & H1 & Hl1 & Ho1 & Hq1 & Hs1 & Hi1 & Hd1 & Hc1 & Hh1 & Hr1); auto.
  { rewrite Hl0. apply take_snoc; [exact Ht|reflexivity]. }
  { congruence. }
  destruct (push_id_written q1 task (loop q) e2)
    as (q2 & H2 & Hl2 & Hm2 & Hs2 & Hi2 & Hd2 & Hc2 & Hh2 & Hr2); auto.
  { rewrite Hl1. apply take_snoc; [exact Ht|reflexivity]. }
  { congruence. }
  destruct (push_pending_written q2 task (loop q) e3)
    as (q3 & H3 & Hl3 & Ho3 & Hq3 & Hs3 & Hi3 & Hd3 & Hc3 & Hh3 & Hr3); auto.
  { rewrite Hl2. apply take_snoc; [exact Ht|reflexivity]. }
  { rewrite Hs2. simpl. congruence. }
  { rewrite Hm2. exact Ho1. }
  { rewrite Hm2, Hq1, Hq0. exact Hq. }
  exists q3. cbn [run].
  change (TPush u) with (TPush (Task.id task)).
  rewrite H0, H1, H2, H3.
  conj; try assumption; try reflexivity; try congruence.
  - rewrite Hs3, Hs2. unfold fs_readFile. simpl. apply dir_lookup_write.
  - rewrite Hs3. unfold fs_readFile. simpl. apply dir_lookup_write.
Qed.

Lemma push_pending_failed (q : queue) (task : Task.t)
    (rest : list (frame * pc)) (e : env) :
  crashed q = None ->
  take (TPush (Task.id task)) (loop q)
    = Some (PushFrame task,
            AwaitWrite PendingFolder (file_of (Task.id task)) task, rest) ->
  io_fails e = true ->
  FileMutex.lockedBy (mutex q) = Some (Task.id task) ->
  FileMutex.queue (mutex q) = [] ->
  exists q',
    step q (EvFire (TPush (Task.id task)) e) = Some q'
    /\ loop q' = rest
    /\ FileMutex.lockedBy (mutex q') = None
    /\ store q' = store q
    /\ deferred q' = deferred q /\ crashed q' = None
    /\ heap q' = heap q /\ runningTasks q' = runningTasks q.
Proof.
  intros Hc Ht He Hl Hq.
  unfold step, fire. rewrite Hc, Ht. unfold resume. cbn [resume_lock].
  unfold resume_push, do_write. rewrite He.
  unfold push_final, unlock, FileMutex.unlock.
  cbn [mutex set_store set_loop]. rewrite Hl, Hq.
  unfold owner_differs. rewrite String.eqb_refl. cbn [negb save_callback].
  eexists; (split; [reflexivity|]); simpl; conj; auto.
Qed.

(** X14.  A [push] whose write to the pending folder fails, on a queue
    that is ready and whose lock is free: the lock is released and nothing
    escapes the callback, but the task is left in the index, where it
    reads back with status ['pending'], while it is not in the pending
    folder and no [checkNextTask] is deferred: no dequeue will ever find
    it. *)
Theorem push_failed_write_leaves_the_task_in_the_index (q : queue)
    (params : jsval) (u date : string) (e1 e2 e3 : env) :
  crashed q = None -> fresh u q = true -> truthy params = true ->
  initialized q = true -> folders_exist (store q) = true ->
  FileMutex.lockedBy (mutex q) = None -> FileMutex.queue (mutex q) = [] ->
  take (TPush u) (loop q) = None ->
  io_fails e1 = false -> io_fails e2 = false -> io_fails e3 = true ->
  exists q',
    run [EvPush params u date; EvFire (TPush u) e1; EvFire (TPush u) e2;
         EvFire (TPush u) e3] q = Some q'
    /\ fs_readFile IdFolder (file_of u) (store q')
       = Some (Json (pushed params u date))
    /\ pending_dir (store q') = pending_dir (store q)
    /\ FileMutex.lockedBy (mutex q') = None
    /\ deferred q' = deferred q
    /\ loop q' = loop q /\ heap q' = heap q
    /\ runningTasks q' = runningTasks q /\ crashed q' = None.
Proof.
  intros Hc Hf Hp Hi Hd Hl Hq Ht He1 He2 He3.
  assert (Hu : str_truthy u = true).
  { unfold fresh in Hf. now apply andb_prop in Hf. }
  pose (task := pushed params u date).
  destruct (push_called q params u date)
    as (q0 & H0 & Hl0 & Ho0 & Hq0 & Hs0 & Hi0 & Hd0 & Hc0 & Hh0 & Hr0); auto.
  { unfold FileMutex.held. now rewrite Hl. }
  fold task in Hl0.
  destruct (push_flock_done q0 task (loop q) e1)
    as (q1 & H1 & Hl1 & Ho1 & Hq1 & Hs1 & Hi1 & Hd1 & Hc1 & Hh1 & Hr1); auto.
  { rewrite Hl0. apply take_snoc; [exact Ht|reflexivity]. }
  { congruence. }
  destruct (push_id_written q1 task (loop q) e2)
    as (q2 & H2 & Hl2 & Hm2 & Hs2 & Hi2 & Hd2 & Hc2 & Hh2 & Hr2); auto.
  { rewrite Hl1. apply take_snoc; [exact Ht|reflexivity]. }
  { congruence. }
  destruct (push_pending_failed q2 task (loop q) e3)
    as (q3 & H3 & Hl3 & Ho3 & Hs3 & Hd3 & Hc3 & Hh3 & Hr3); auto.
  { rewrite Hl2. apply take_snoc; [exact Ht|reflexivity]. }
  { rewrite Hm2. exact Ho1. }
  { rewrite Hm2, Hq1, Hq0. exact Hq. }
  exists q3. cbn [run].
  change (TPush u) with (TPush (Task.id task)).
  rewrite H0, H1, H2, H3.
  conj; try assumption; try reflexivity; try congruence.
  - rewrite Hs3, Hs2. unfold fs_readFile. simpl. apply dir_lookup_write.
  - rewrite Hs3, Hs2. simpl. congruence.
Qed.

(** ** lib/gitaction.js: the worker *)

Section GitActionFacts.

Variable rtrim : string -> string.

Lemma split_lines_nonempty (s : string) : GitAction.split_lines s <> [].
Proof.
  induction s as [|c s IH]; simpl; [discriminate|].
  destruct (Ascii.eqb c GitAction.newline); [discriminate|].
  destruct (GitAction.split_lines s); discriminate.
Qed.

Lemma log_all_but_last_spec (t : GitAction.stream) :
  forall lines st,
    lines <> [] ->
    GitAction.log_all_but_last rtrim t lines st
    = GitAction.set_fragment t (Some (last lines ""))
        {| GitAction.outFragment := GitAction.outFragment st;
           GitAction.errFragment := GitAction.errFragment st;
           GitAction.logged :=
             GitAction.logged st
             ++ map (fun l => (GitAction.stream_name t ^^ " |", rtrim l))
                    (removelast lines) |}.
Proof.
  induction lines as [|l lines IH]; intros st Hne; [now elim Hne|].
  destruct lines as [|l' lines].
  - simpl. rewrite app_nil_r. now destruct t.
  - change (GitAction.log_all_but_last rtrim t (l :: l' :: lines) st)
      with (GitAction.log_all_but_last rtrim t (l' :: lines)
              (GitAction.log_line (GitAction.stream_name t ^^ " |")
                                  (rtrim l) st)).
    rewrite IH by discriminate.
    change (last (l :: l' :: lines) "") with (last (l' :: lines) "").
    change (removelast (l :: l' :: lines))
      with (l :: removelast (l' :: lines)).
    cbn [map GitAction.log_line GitAction.outFragment GitAction.errFragment
         GitAction.logged].
    now rewrite <- app_assoc.
Qed.

(** One chunk: the handler uses the fragment it read when it was made,
    the empty string, whatever has been kept since. *)
Lemma log_spec (t : GitAction.stream) (data : string) (st : GitAction.state) :
  GitAction.log rtrim t GitAction.init data st
  = GitAction.set_fragment t
      (Some (last (GitAction.split_lines data) ""))
      {| GitAction.outFragment := GitAction.outFragment st;
         GitAction.errFragment := GitAction.errFragment st;
         GitAction.logged :=
           GitAction.logged st
           ++ GitAction.whole_lines rtrim (t, data) |}.
Proof.
  unfold GitAction.log, GitAction.on_data, GitAction.whole_lines.
  assert (Hf : GitAction.show (GitAction.fragment_of t GitAction.init) = "")
    by now destruct t.
  rewrite Hf. cbn [String.append fst snd].
  pose proof (split_lines_nonempty data) as Hne.
  pose proof (log_all_but_last_spec t (GitAction.split_lines data) st Hne)
    as Hs.
  destruct (GitAction.split_lines data) as [|l [|l' ls]] eqn:E.
  - now elim Hne.
  - rewrite <- Hs. reflexivity.
  - exact Hs.
Qed.

Lemma feed_spec (chunks : list (GitAction.stream * string)) :
  forall st out err,
    GitAction.outFragment st = Some out ->
    GitAction.errFragment st = Some err ->
    let st' := fold_left (fun st tc =>
                            GitAction.log rtrim (fst tc) GitAction.init
                                          (snd tc) st) chunks st in
    GitAction.logged st'
    = GitAction.logged st ++ flat_map (GitAction.whole_lines rtrim) chunks
    /\ GitAction.outFragment st'
       = Some (fold_left (fun acc tc =>
                            match GitAction.Stdout, fst tc with
                            | GitAction.Stdout, GitAction.Stdout
                            | GitAction.Stderr, GitAction.Stderr =>
                                last (GitAction.split_lines (snd tc)) ""
                            | _, _ => acc
                            end) chunks out)
    /\ GitAction.errFragment st'
       = Some (fold_left (fun acc tc =>
                            match GitAction.Stderr, fst tc with
                            | GitAction.Stdout, GitAction.Stdout
                            | GitAction.Stderr, GitAction.Stderr =>
                                last (GitAction.split_lines (snd tc)) ""
                            | _, _ => acc
                            end) chunks err).
Proof.
  induction chunks as [|[t c] chunks IH]; intros st out err Ho He.
  - simpl. rewrite app_nil_r. auto.
  - cbn [fold_left flat_map fst snd]. rewrite log_spec.
    destruct t.
    + destruct (IH (GitAction.set_fragment GitAction.Stdout
                      (Some (last (GitAction.split_lines c) ""))
                      {| GitAction.outFragment := GitAction.outFragment st;
                         GitAction.errFragment := GitAction.errFragment st;
                         GitAction.logged :=
                           GitAction.logged st
                           ++ GitAction.whole_lines rtrim (GitAction.Stdout, c)
                      |})
                   (last (GitAction.split_lines c) "") err eq_refl He)
        as (H1 & H2 & H3).
      cbv zeta in *. rewrite H1, H2, H3. simpl. rewrite <- app_assoc. auto.
    + destruct (IH (GitAction.set_fragment GitAction.Stderr
                      (Some (last (GitAction.split_lines c) ""))
                      {| GitAction.outFragment := GitAction.outFragment st;
                         GitAction.errFragment := GitAction.errFragment st;
                         GitAction.logged :=
                           GitAction.logged st
                           ++ GitAction.whole_lines rtrim (GitAction.Stderr, c)
                      |})
                   out (last (GitAction.split_lines c) "") Ho eq_refl)
        as (H1 & H2 & H3).
      cbv zeta in *. rewrite H1, H2, H3. simpl. rewrite <- app_assoc. auto.
Qed.

Lemma feed_fragments (chunks : list (GitAction.stream * string)) :
  GitAction.logged (GitAction.feed rtrim chunks)
  = flat_map (GitAction.whole_lines rtrim) chunks
  /\ GitAction.outFragment (GitAction.feed rtrim chunks)
     = Some (GitAction.tail_of GitAction.Stdout chunks)
  /\ GitAction.errFragment (GitAction.feed rtrim chunks)
     = Some (GitAction.tail_of GitAction.Stderr chunks).
Proof.
  exact (feed_spec chunks GitAction.init "" "" eq_refl eq_refl).
Qed.

Lemma start_spawns (action : jsval) :
  GitAction.given (GitAction.field "origin" action)
  && GitAction.given (GitAction.field "script" action) = true ->
  (GitAction.given (GitAction.field "privatekey" action) = true ->
   GitAction.field "dataFolder" action <> None) ->
  exists args git_ssh, GitAction.start action = GitAction.Spawned args git_ssh.
Proof.
  intros Hg Hk. apply andb_prop in Hg. destruct Hg as [Ho Hs].
  unfold GitAction.start. unfold GitAction.given in Ho, Hs.
  destruct (GitAction.field "origin" action) as [origin|]; [|discriminate].
  destruct (GitAction.field "script" action) as [script|]; [|discriminate].
  rewrite Ho, Hs. cbn [negb].
  destruct (GitAction.given (GitAction.field "privatekey" action)).
  - destruct (GitAction.field "dataFolder" action) as [dataFolder|].
    + eexists _, _. reflexivity.
    + now elim (Hk eq_refl).
  - eexists _, _. reflexivity.
Qed.


(** X16.  For an action with [origin] and [script], and with a
    [dataFolder] when it has a [privatekey], whose script does not end
    both its streams in the middle of a line, the answer of the worker
    follows the exit code: no error for 0, an [InternalError] for any
    other code and for a script that was killed; [runTask] records an
    [InternalError] with error code 500. *)
Theorem gitaction_answer_follows_the_exit_code (action : jsval)
    (chunks : list (GitAction.stream * string)) (code : option Z) :
  GitAction.given (GitAction.field "origin" action)
  && GitAction.given (GitAction.field "script" action) = true ->
  (GitAction.given (GitAction.field "privatekey" action) = true ->
   GitAction.field "dataFolder" action <> None) ->
  str_truthy (GitAction.tail_of GitAction.Stdout chunks)
  && str_truthy (GitAction.tail_of GitAction.Stderr chunks) = false ->
  (exists st,
     GitAction.gitaction rtrim action chunks code
     = Return (st,
               match code with
               | None =>
                   Some (GitAction.InternalErr
                           "git action script got killed" None)
               | Some c =>
                   if Z.eqb c 0 then None
                   else Some (GitAction.InternalErr
                                "git action script reported an error"
                                (Some c))
               end))
  /\ forall m c date task,
       Task.errorCode
         (worker_callback
            (Some (GitAction.to_worker_error (GitAction.InternalErr m c)))
            JUndefined date task) = Some 500%Z.
Proof.
  intros Hg Hk Ht. split; [|reflexivity].
  unfold GitAction.gitaction.
  destruct (start_spawns action Hg Hk) as (args & git_ssh & ->).
  destruct (feed_fragments chunks) as (_ & Hout & Herr).
  unfold GitAction.on_close. rewrite Hout. cbn [GitAction.given].
  destruct (str_truthy (GitAction.tail_of GitAction.Stdout chunks)) eqn:E1.
  - cbn [andb] in Ht.
    cbn [GitAction.set_fragment GitAction.log_line GitAction.errFragment
         GitAction.outFragment].
    rewrite Herr. cbn [GitAction.given]. rewrite Ht.
    eexists. destruct code as [c|]; [destruct (Z.eqb c 0)|]; reflexivity.
  - rewrite Herr. cbn [GitAction.given].
    destruct (str_truthy (GitAction.tail_of GitAction.Stderr chunks));
      [rewrite Hout|];
      eexists; destruct code as [c|]; try destruct (Z.eqb c 0); reflexivity.
Qed.

(** X17.  For an action with [origin] and [script], and with a
    [dataFolder] when it has a [privatekey], the worker never calls back
    when the script ends both its standard output and its standard error
    in the middle of a line: the [close] handler throws a [TypeError]
    before it looks at the exit code, even for a script that has
    succeeded; and this is the only case in which it throws. *)
Theorem gitaction_close_throws_when_both_streams_end_mid_line
    (action : jsval) (chunks : list (GitAction.stream * string))
    (code : option Z) :
  GitAction.given (GitAction.field "origin" action)
  && GitAction.given (GitAction.field "script" action) = true ->
  (GitAction.given (GitAction.field "privatekey" action) = true ->
   GitAction.field "dataFolder" action <> None) ->
  (exists e st, GitAction.gitaction rtrim action chunks code = Throw e st)
  <-> str_truthy (GitAction.tail_of GitAction.Stdout chunks)
      && str_truthy (GitAction.tail_of GitAction.Stderr chunks) = true.
Proof.
  intros Hg Hk.
  unfold GitAction.gitaction.
  destruct (start_spawns action Hg Hk) as (args & git_ssh & ->).
  destruct (feed_fragments chunks) as (_ & Hout & Herr).
  unfold GitAction.on_close. rewrite Hout. cbn [GitAction.given].
  destruct (str_truthy (GitAction.tail_of GitAction.Stdout chunks)) eqn:E1.
  - cbn [GitAction.set_fragment GitAction.log_line GitAction.errFragment
         GitAction.outFragment andb].
    rewrite Herr. cbn [GitAction.given].
    destruct (str_truthy (GitAction.tail_of GitAction.Stderr chunks)).
    + split; [reflexivity|]. intros _. eexists _, _. reflexivity.
    + split; [|discriminate]. intros (e & st & H).
      destruct code as [c|]; [destruct (Z.eqb c 0)|]; discriminate.
  - rewrite Herr. cbn [GitAction.given andb].
    split; [|discriminate]. intros (e & st & H).
    destruct (str_truthy (GitAction.tail_of GitAction.Stderr chunks));
      [rewrite Hout in H|];
      destruct code as [c|]; try destruct (Z.eqb c 0); discriminate.
Qed.

(** X18.  The data handlers log each chunk on its own: the lines that end
    in a line feed inside the chunk, and nothing of what was kept from the
    chunk before.  The fragment a handler keeps is the end of the last
    chunk of its stream, so the text after the last line feed of any
    earlier chunk is never logged. *)
Theorem gitaction_logs_each_chunk_on_its_own
    (chunks : list (GitAction.stream * string)) :
  GitAction.logged (GitAction.feed rtrim chunks)
  = flat_map (GitAction.whole_lines rtrim) chunks
  /\ GitAction.outFragment (GitAction.feed rtrim chunks)
     = Some (GitAction.tail_of GitAction.Stdout chunks)
  /\ GitAction.errFragment (GitAction.feed rtrim chunks)
     = Some (GitAction.tail_of GitAction.Stderr chunks).
Proof. exact (feed_fragments chunks). Qed.

(** X23.  For an action with [origin], [script] and a [privatekey] but
    no [dataFolder], the worker neither runs the script nor calls back:
    [path.resolve] is handed [undefined] and throws, and the exception
    escapes the worker, whatever the script would have done. *)
Theorem gitaction_throws_on_privatekey_without_dataFolder (action : jsval)
    (chunks : list (GitAction.stream * string)) (code : option Z) :
  GitAction.given (GitAction.field "origin" action)
  && GitAction.given (GitAction.field "script" action) = true ->
  GitAction.given (GitAction.field "privatekey" action) = true ->
  GitAction.field "dataFolder" action = None ->
  GitAction.gitaction rtrim action chunks code
  = Throw GitAction.not_a_string (GitAction.init, None).
Proof.
  intros Hg Hk Hd. apply andb_prop in Hg. destruct Hg as [Ho Hs].
  unfold GitAction.gitaction, GitAction.start.
  unfold GitAction.given in Ho, Hs.
  destruct (GitAction.field "origin" action) as [origin|]; [|discriminate].
  destruct (GitAction.field "script" action) as [script|]; [|discriminate].
  rewrite Ho, Hs, Hk, Hd. reflexivity.
Qed.

End GitActionFacts.

(** ** The task queue: a dequeue from the deferred call to its end *)

Lemma check_called (q : queue) (u : string) (n : nat) :
  crashed q = None -> deferred q = S n ->
  (maxItems q >? 0)%Z && (getNbRunningTasks q >=? maxItems q)%Z = false ->
  FileMutex.held (mutex q) = false -> folders_exist (store q) = true ->
  exists q',
    step q (EvCheck u) = Some q'
    /\ loop q' = loop q ++ [(CheckFrame ("runner-" ^^ u) None, AwaitFlock)]
    /\ FileMutex.lockedBy (mutex q') = FileMutex.lockedBy (mutex q)
    /\ FileMutex.queue (mutex q') = FileMutex.queue (mutex q)
    /\ store q' = store q /\ initialized q' = initialized q
    /\ deferred q' = n /\ crashed q' = None
    /\ heap q' = heap q /\ runningTasks q' = runningTasks q.
Proof.
  intros Hc Hn Hg Hh Hd.
  unfold step. rewrite Hc, Hn. unfold checkNextTask.
  change (maxItems (set_deferred n q)) with (maxItems q).
  change (getNbRunningTasks (set_deferred n q)) with (getNbRunningTasks q).
  rewrite Hg.
  unfold lock, FileMutex.lock. cbn [mutex store set_deferred].
  rewrite Hh. unfold openSync. rewrite Hd.
  destruct (FileMutex.fd (mutex q)); eexists; (split; [reflexivity|]);
    simpl; conj; auto.
Qed.

Lemma check_flock_done (q : queue) (r : string) (rest : list (frame * pc))
    (e : env) :
  crashed q = None ->
  take (TCheck r) (loop q) = Some (CheckFrame r None, AwaitFlock, rest) ->
  io_fails e = false -> initialized q = true ->
  exists q',
    step q (EvFire (TCheck r) e) = Some q'
    /\ loop q' = rest ++ [(CheckFrame r None, AwaitReaddir)]
    /\ FileMutex.lockedBy (mutex q') = Some r
    /\ FileMutex.queue (mutex q') = FileMutex.queue (mutex q)
    /\ store q' = store q /\ initialized q' = initialized q
    /\ deferred q' = deferred q /\ crashed q' = None
    /\ heap q' = heap q /\ runningTasks q' = runningTasks q.
Proof.
  intros Hc Ht He Hi.
  unfold step, fire. rewrite Hc, Ht. unfold resume, resume_lock.
  rewrite He. unfold FileMutex.flock_callback. cbn [waiter_callback].
  unfold lock_granted, whenReady.
  cbn [initialized set_locked set_mutex set_loop].
  rewrite Hi. cbn [ready].
  eexists; (split; [reflexivity|]); simpl; conj; auto.
Qed.

Lemma check_readdir_done (q : queue) (r file : string)
    (rest : list (frame * pc)) (e : env) :
  crashed q = None ->
  take (TCheck r) (loop q) = Some (CheckFrame r None, AwaitReaddir, rest) ->
  io_fails e = false -> folders_exist (store q) = true ->
  find is_json (map fst (pending_dir (store q))) = Some file ->
  exists q',
    step q (EvFire (TCheck r) e) = Some q'
    /\ loop q' = rest ++ [(CheckFrame r None, AwaitReadFile file)]
    /\ mutex q' = mutex q
    /\ store q' = store q /\ initialized q' = initialized q
    /\ deferred q' = deferred q /\ crashed q' = None
    /\ heap q' = heap q /\ runningTasks q' = runningTasks q.
Proof.
  intros Hc Ht He Hd Hf.
  unfold step, fire. rewrite Hc, Ht. unfold resume. cbn [resume_lock].
  unfold resume_check, do_readdir, fs_readdir. cbn [store set_loop get_dir].
  rewrite He, Hd, Hf.
  eexists; (split; [reflexivity|]); simpl; conj; auto.
Qed.

Lemma check_read_done (q : queue) (r file : string) (parsed : Task.t)
    (rest : list (frame * pc)) (e : env) :
  crashed q = None ->
  take (TCheck r) (loop q)
    = Some (CheckFrame r None, AwaitReadFile file, rest) ->
  io_fails e = false ->
  dir_lookup file (pending_dir (store q)) = Some (Json parsed) ->
  str_truthy (Task.id parsed) = true ->
  exists q',
    step q (EvFire (TCheck r) e) = Some q'
    /\ loop q' = rest ++ [(CheckFrame r (Some (length (heap q))),
                           AwaitWrite IdFolder (file_of (Task.id parsed))
                                      (Task.set_status running parsed))]
    /\ mutex q' = mutex q
    /\ store q' = store q /\ initialized q' = initialized q
    /\ deferred q' = deferred q /\ crashed q' = None
    /\ heap q' = heap q ++ [Task.set_status running parsed]
    /\ runningTasks q' = runningTasks q ++ [length (heap q)].
Proof.
  intros Hc Ht He Hf Hid.
  unfold step, fire. rewrite Hc, Ht. unfold resume. cbn [resume_lock].
  unfold resume_check, do_readFile, fs_readFile.
  cbn [store set_loop get_dir].
  rewrite He, Hf. unfold check_set_running, saveTaskToFolder.
  cbn [Task.id Task.set_status]. rewrite Hid.
  eexists; (split; [reflexivity|]); simpl; conj; auto.
Qed.

Lemma check_write_done (q : queue) (r name : string) (o : nat)
    (f : folder) (data task : Task.t) (rest : list (frame * pc)) (e : env) :
  crashed q = None ->
  take (TCheck r) (loop q)
    = Some (CheckFrame r (Some o), AwaitWrite f name data, rest) ->
  io_fails e = false -> folders_exist (store q) = true ->
  nth_error (heap q) o = Some task ->
  str_truthy (Task.id task) = true ->
  exists q',
    step q (EvFire (TCheck r) e) = Some q'
    /\ loop q' = rest ++ [(CheckFrame r (Some o),
                           match f with
                           | IdFolder =>
                               AwaitWrite RunningFolder
                                          (file_of (Task.id task)) task
                           | _ =>
                               AwaitUnlink PendingFolder
                                           (file_of (Task.id task))
                           end)]
    /\ mutex q' = mutex q
    /\ store q' = set_dir f (dir_write name (Json data)
                                       (get_dir f (store q))) (store q)
    /\ initialized q' = initialized q
    /\ deferred q' = deferred q /\ crashed q' = None
    /\ heap q' = heap q /\ runningTasks q' = runningTasks q.
Proof.
  intros Hc Ht He Hd Hn Hid.
  unfold step, fire. rewrite Hc, Ht. unfold resume. cbn [resume_lock].
  unfold resume_check, do_write, fs_writeFile. cbn [store set_loop].
  rewrite He, Hd. cbn [option_map heap set_store set_loop]. rewrite Hn.
  unfold check_save_running, check_remove_pending, saveTaskToFolder,
    removeTaskFromFolder. rewrite Hid.
  destruct f; eexists; (split; [reflexivity|]); simpl; conj; auto.
Qed.

Lemma check_unlink_done (q : queue) (r name : string) (o : nat)
    (c : content) (rest : list (frame * pc)) (e : env) :
  crashed q = None ->
  take (TCheck r) (loop q)
    = Some (CheckFrame r (Some o), AwaitUnlink PendingFolder name, rest) ->
  io_fails e = false ->
  dir_lookup name (pending_dir (store q)) = Some c ->
  FileMutex.lockedBy (mutex q) = Some r ->
  FileMutex.queue (mutex q) = [] ->
  exists q',
    step q (EvFire (TCheck r) e) = Some q'
    /\ loop q' = rest ++ [(RunFrame o, AwaitDefer)]
    /\ FileMutex.lockedBy (mutex q') = None
    /\ store q' = set_dir PendingFolder
                    (dir_remove name (pending_dir (store q))) (store q)
    /\ initialized q' = initialized q
    /\ deferred q' = deferred q /\ crashed q' = None
    /\ heap q' = heap q /\ runningTasks q' = runningTasks q.
Proof.
  intros Hc Ht He Hf Hl Hq.
  unfold step, fire. rewrite Hc, Ht. unfold resume. cbn [resume_lock].
  unfold resume_check, do_unlink, fs_unlink. cbn [store set_loop get_dir].
  rewrite He, Hf. cbn [option_map].
  unfold check_final, unlock, FileMutex.unlock.
  cbn [mutex set_store set_loop]. rewrite Hl, Hq.
  unfold owner_differs. rewrite String.eqb_refl. cbn [negb].
  eexists; (split; [reflexivity|]); simpl; conj; auto.
Qed.

Lemma check_read_failed (q : queue) (r file : string)
    (rest : list (frame * pc)) (e : env) :
  crashed q = None ->
  take (TCheck r) (loop q)
    = Some (CheckFrame r None, AwaitReadFile file, rest) ->
  io_fails e = false ->
  dir_lookup file (pending_dir (store q)) = Some Garbage ->
  FileMutex.lockedBy (mutex q) = Some r ->
  FileMutex.queue (mutex q) = [] ->
  exists q',
    step q (EvFire (TCheck r) e) = Some q'
    /\ loop q' = rest
    /\ FileMutex.lockedBy (mutex q') = None
    /\ store q' = store q /\ initialized q' = initialized q
    /\ deferred q' = deferred q /\ crashed q' = None
    /\ heap q' = heap q /\ runningTasks q' = runningTasks q.
Proof.
  intros Hc Ht He Hf Hl Hq.
  unfold step, fire. rewrite Hc, Ht. unfold resume. cbn [resume_lock].
  unfold resume_check, do_readFile, fs_readFile.
  cbn [store set_loop get_dir].
  rewrite He, Hf.
  unfold check_final, unlock, FileMutex.unlock.
  cbn [mutex set_store set_loop]. rewrite Hl, Hq.
  unfold owner_differs. rewrite String.eqb_refl. cbn [negb].
  eexists; (split; [reflexivity|]); simpl; conj; auto.
Qed.

(** X19.  A [checkNextTask] on a ready queue that is below [maxItems],
    whose lock is free and whose disk answers, when the first [.json] file
    of the pending folder holds a task filed under its own id: once its
    six requests have completed, the task is a new task object of status
    ['running'], listed in [runningTasks]; it reads back with that status
    from the index and from the running folder; its file is gone from the
    pending folder; the lock is free again, and its [runTask] has been
    deferred. *)
Theorem checkNextTask_moves_the_task_to_running (q : queue) (u : string)
    (n : nat) (parsed : Task.t) (e1 e2 e3 e4 e5 e6 : env) :
  crashed q = None -> deferred q = S n ->
  (maxItems q >? 0)%Z && (getNbRunningTasks q >=? maxItems q)%Z = false ->
  initialized q = true -> folders_exist (store q) = true ->
  FileMutex.lockedBy (mutex q) = None -> FileMutex.queue (mutex q) = [] ->
  take (TCheck ("runner-" ^^ u)) (loop q) = None ->
  find is_json (map fst (pending_dir (store q)))
    = Some (file_of (Task.id parsed)) ->
  dir_lookup (file_of (Task.id parsed)) (pending_dir (store q))
    = Some (Json parsed) ->
  str_truthy (Task.id parsed) = true ->
  io_fails e1 = false -> io_fails e2 = false -> io_fails e3 = false ->
  io_fails e4 = false -> io_fails e5 = false -> io_fails e6 = false ->
  exists q',
    run [EvCheck u;
         EvFire (TCheck ("runner-" ^^ u)) e1;
         EvFire (TCheck ("runner-" ^^ u)) e2;
         EvFire (TCheck ("runner-" ^^ u)) e3;
         EvFire (TCheck ("runner-" ^^ u)) e4;
         EvFire (TCheck ("runner-" ^^ u)) e5;
         EvFire (TCheck ("runner-" ^^ u)) e6] q = Some q'
    /\ heap q' = heap q ++ [Task.set_status running parsed]
    /\ runningTasks q' = runningTasks q ++ [length (heap q)]
    /\ fs_readFile IdFolder (file_of (Task.id parsed)) (store q')
       = Some (Json (Task.set_status running parsed))
    /\ fs_readFile RunningFolder (file_of (Task.id parsed)) (store q')
       = Some (Json (Task.set_status running parsed))
    /\ pending_dir (store q')
       = dir_remove (file_of (Task.id parsed)) (pending_dir (store q))
    /\ loop q' = loop q ++ [(RunFrame (length (heap q)), AwaitDefer)]
    /\ FileMutex.lockedBy (mutex q') = None
    /\ deferred q' = n /\ crashed q' = None.
Proof.
  intros Hc Hn Hg Hi Hd Hl Hq Ht Hfind Hfile Hid He1 He2 He3 He4 He5 He6.
  pose (r := "runner-" ^^ u). fold r in Ht. fold r.
  pose (task := Task.set_status running parsed).
  pose (file := file_of (Task.id parsed)). fold file in Hfind, Hfile. fold file.
  destruct (check_called q u n)
    as (q0 & H0 & Hl0 & Ho0 & Hq0 & Hs0 & Hi0 & Hd0 & Hc0 & Hh0 & Hr0); auto.
  { unfold FileMutex.held. now rewrite Hl. }
  fold r in Hl0.
  destruct (check_flock_done q0 r (loop q) e1)
    as (q1 & H1 & Hl1 & Ho1 & Hq1 & Hs1 & Hi1 & Hd1 & Hc1 & Hh1 & Hr1); auto.
  { rewrite Hl0. apply take_snoc; [exact Ht|reflexivity]. }
  { congruence. }
  destruct (check_readdir_done q1 r file (loop q) e2)
    as (q2 & H2 & Hl2 & Hm2 & Hs2 & Hi2 & Hd2 & Hc2 & Hh2 & Hr2); auto.
  { rewrite Hl1. apply take_snoc; [exact Ht|reflexivity]. }
  { congruence. }
  { congruence. }
  destruct (check_read_done q2 r file parsed (loop q) e3)
    as (q3 & H3 & Hl3 & Hm3 & Hs3 & Hi3 & Hd3 & Hc3 & Hh3 & Hr3); auto.
  { rewrite Hl2. apply take_snoc; [exact Ht|reflexivity]. }
  { congruence. }
  fold task in Hl3, Hh3. fold file in Hl3.
  assert (Hlen : length (heap q2) = length (heap q)) by congruence.
  rewrite Hlen in Hl3, Hr3.
  assert (Hn3 : nth_error (heap q3) (length (heap q)) = Some task).
  { rewrite Hh3, Hh2, Hh1, Hh0, nth_error_app2, Nat.sub_diag; [reflexivity|].
    lia. }
  destruct (check_write_done q3 r file (length (heap q)) IdFolder task task
              (loop q) e4)
    as (q4 & H4 & Hl4 & Hm4 & Hs4 & Hi4 & Hd4 & Hc4 & Hh4 & Hr4); auto.
  { rewrite Hl3. apply take_snoc; [exact Ht|reflexivity]. }
  { congruence. }
  change (file_of (Task.id task)) with file in Hl4.
  destruct (check_write_done q4 r file (length (heap q)) RunningFolder task
              task (loop q) e5)
    as (q5 & H5 & Hl5 & Hm5 & Hs5 & Hi5 & Hd5 & Hc5 & Hh5 & Hr5); auto.
  { rewrite Hl4. apply take_snoc; [exact Ht|reflexivity]. }
  { rewrite Hs4. simpl. congruence. }
  { congruence. }
  change (file_of (Task.id task)) with file in Hl5.
  assert (Hp5 : pending_dir (store q5) = pending_dir (store q)).
  { rewrite Hs5, Hs4. simpl. congruence. }
  destruct (check_unlink_done q5 r file (length (heap q)) (Json parsed)
              (loop q) e6)
    as (q6 & H6 & Hl6 & Ho6 & Hs6 & Hi6 & Hd6 & Hc6 & Hh6 & Hr6); auto.
  { rewrite Hl5. apply take_snoc; [exact Ht|reflexivity]. }
  { rewrite Hp5. exact Hfile. }
  { rewrite Hm5, Hm4, Hm3, Hm2. exact Ho1. }
  { rewrite Hm5, Hm4, Hm3, Hm2, Hq1, Hq0. exact Hq. }
  exists q6. cbn [run]. rewrite H0, H1, H2, H3, H4, H5, H6.
  conj; try assumption; try reflexivity; try congruence.
  - rewrite Hh6, Hh5, Hh4, Hh3, Hh2, Hh1, Hh0. reflexivity.
  - rewrite Hs6, Hs5, Hs4. unfold fs_readFile. simpl. apply dir_lookup_write.
  - rewrite Hs6, Hs5. unfold fs_readFile. simpl. apply dir_lookup_write.
  - rewrite Hs6. simpl. now rewrite Hp5.
Qed.

(** X20.  A [checkNextTask] that reads a file [JSON.parse] throws on, on a
    ready queue whose lock is free: it ends without a word.  The lock is
    released and nothing crashes; no task is dequeued; the file is left
    where it is, so that the next [checkNextTask] finds it again; and no
    [checkNextTask] is deferred. *)
Theorem checkNextTask_leaves_an_unparsable_file (q : queue) (u file : string)
    (n : nat) (e1 e2 e3 : env) :
  crashed q = None -> deferred q = S n ->
  (maxItems q >? 0)%Z && (getNbRunningTasks q >=? maxItems q)%Z = false ->
  initialized q = true -> folders_exist (store q) = true ->
  FileMutex.lockedBy (mutex q) = None -> FileMutex.queue (mutex q) = [] ->
  take (TCheck ("runner-" ^^ u)) (loop q) = None ->
  find is_json (map fst (pending_dir (store q))) = Some file ->
  dir_lookup file (pending_dir (store q)) = Some Garbage ->
  io_fails e1 = false -> io_fails e2 = false -> io_fails e3 = false ->
  exists q',
    run [EvCheck u;
         EvFire (TCheck ("runner-" ^^ u)) e1;
         EvFire (TCheck ("runner-" ^^ u)) e2;
         EvFire (TCheck ("runner-" ^^ u)) e3] q = Some q'
    /\ store q' = store q
    /\ heap q' = heap q /\ runningTasks q' = runningTasks q
    /\ loop q' = loop q
    /\ FileMutex.lockedBy (mutex q') = None
    /\ deferred q' = n /\ crashed q' = None.
Proof.
  intros Hc Hn Hg Hi Hd Hl Hq Ht Hfind Hfile He1 He2 He3.
  pose (r := "runner-" ^^ u). fold r in Ht. fold r.
  destruct (check_called q u n)
    as (q0 & H0 & Hl0 & Ho0 & Hq0 & Hs0 & Hi0 & Hd0 & Hc0 & Hh0 & Hr0); auto.
  { unfold FileMutex.held. now rewrite Hl. }
  fold r in Hl0.
  destruct (check_flock_done q0 r (loop q) e1)
    as (q1 & H1 & Hl1 & Ho1 & Hq1 & Hs1 & Hi1 & Hd1 & Hc1 & Hh1 & Hr1); auto.
  { rewrite Hl0. apply take_snoc; [exact Ht|reflexivity]. }
  { congruence. }
  destruct (check_readdir_done q1 r file (loop q) e2)
    as (q2 & H2 & Hl2 & Hm2 & Hs2 & Hi2 & Hd2 & Hc2 & Hh2 & Hr2); auto.
  { rewrite Hl1. apply take_snoc; [exact Ht|reflexivity]. }
  { congruence. }
  { congruence. }
  destruct (check_read_failed q2 r file (loop q) e3)
    as (q3 & H3 & Hl3 & Ho3 & Hs3 & Hi3 & Hd3 & Hc3 & Hh3 & Hr3); auto.
  { rewrite Hl2. apply take_snoc; [exact Ht|reflexivity]. }
  { congruence. }
  { rewrite Hm2. exact Ho1. }
  { rewrite Hm2, Hq1, Hq0. exact Hq. }
  exists q3. cbn [run]. rewrite H0, H1, H2, H3.
  conj; try assumption; try reflexivity; try congruence.
Qed.

(** ** The task queue and the file mutex: what goes wrong *)

Lemma take_app (t : tid) (k : frame) (p : pc) (l' : list (frame * pc)) :
  forall l, take t l = None -> tid_of k = t ->
            take t (l ++ (k, p) :: l') = Some (k, p, l ++ l').
Proof.
  induction l as [|[k0 p0] l IH]; simpl; intros Hn Ht.
  - now rewrite Ht, tid_eqb_refl.
  - destruct (tid_eqb (tid_of k0) t); [discriminate|].
    destruct (take t l) as [[[k1 p1] r1]|]; [discriminate|].
    now rewrite IH.
Qed.

Lemma take_app_none (t : tid) (l l' : list (frame * pc)) :
  take t l = None -> take t l' = None -> take t (l ++ l') = None.
Proof.
  induction l as [|[k0 p0] l IH]; simpl; intros Hn Hn'; [exact Hn'|].
  destruct (tid_eqb (tid_of k0) t); [discriminate|].
  destruct (take t l) as [[[k1 p1] r1]|]; [discriminate|].
  now rewrite IH.
Qed.

Lemma push_issues (q q' : queue) (params : jsval) (u date : string) :
  crashed q = None -> fresh u q = true -> truthy params = true ->
  step q (EvPush params u date) = Some q' ->
  issued q' = u :: issued q.
Proof.
  intros Hc Hf Hp. unfold step. rewrite Hc, Hf. unfold push. rewrite Hp.
  cbn [negb]. unfold lock.
  destruct (FileMutex.lock _ _ _ _) as [[m [w|]]|x y];
    intros [= <-]; reflexivity.
Qed.

Lemma push_flock_failed (q : queue) (task : Task.t) (rest : list (frame * pc))
    (e : env) :
  crashed q = None ->
  take (TPush (Task.id task)) (loop q) = Some (PushFrame task, AwaitFlock, rest) ->
  io_fails e = true ->
  exists q',
    step q (EvFire (TPush (Task.id task)) e) = Some q'
    /\ loop q' = rest
    /\ FileMutex.lockedBy (mutex q') = FileMutex.lockedBy (mutex q)
    /\ FileMutex.queue (mutex q')
       = FileMutex.queue (mutex q)
         ++ [Waiter (Task.id task) (Some (PushFrame task))]
    /\ store q' = store q /\ deferred q' = deferred q /\ crashed q' = None.
Proof.
  intros Hc Ht He.
  unfold step, fire. rewrite Hc, Ht. unfold resume, resume_lock.
  rewrite He. unfold FileMutex.flock_callback.
  eexists; (split; [reflexivity|]); simpl; conj; auto.
Qed.

Lemma push_ends_without_the_lock (q : queue) (task : Task.t) (other : string)
    (rest : list (frame * pc)) (e : env) :
  crashed q = None ->
  take (TPush (Task.id task)) (loop q)
    = Some (PushFrame task,
            AwaitWrite PendingFolder (file_of (Task.id task)) task, rest) ->
  FileMutex.lockedBy (mutex q) = Some other -> other <> Task.id task ->
  exists q',
    step q (EvFire (TPush (Task.id task)) e) = Some q'
    /\ crashed q' = Some (not_owner_error (Some other) (Task.id task)).
Proof.
  intros Hc Ht Hl Hne.
  unfold step, fire. rewrite Hc, Ht. unfold resume. cbn [resume_lock].
  unfold resume_push, do_write, fs_writeFile, push_final, unlock,
    FileMutex.unlock.
  assert (Hd : owner_differs (Some other) (Task.id task) = true).
  { unfold owner_differs. destruct (String.eqb_spec other (Task.id task));
      [contradiction|reflexivity]. }
  destruct (io_fails e); [|destruct (folders_exist (store (set_loop rest q)))];
    cbn [option_map mutex set_store set_loop save_callback]; rewrite Hl, Hd;
    eexists; (split; [reflexivity|]); reflexivity.
Qed.

(** X22.  A [push] whose [fs.flock] fails while the lock is free is left
    waiting in the queue of a mutex that nobody holds: nothing is in
    flight for it any more, no task is written and no [checkNextTask] is
    deferred, and only the [unlock] of some later operation can wake it
    up. *)
Theorem flock_error_strands_the_push (q : queue) (params : jsval)
    (u date : string) (e : env) :
  crashed q = None -> fresh u q = true -> truthy params = true ->
  folders_exist (store q) = true ->
  FileMutex.lockedBy (mutex q) = None -> FileMutex.queue (mutex q) = [] ->
  take (TPush u) (loop q) = None ->
  io_fails e = true ->
  exists q',
    run [EvPush params u date; EvFire (TPush u) e] q = Some q'
    /\ FileMutex.lockedBy (mutex q') = None
    /\ waiting q' = [PushFrame (pushed params u date)]
    /\ loop q' = loop q
    /\ store q' = store q /\ deferred q' = deferred q /\ crashed q' = None.
Proof.
  intros Hc Hf Hp Hd Hl Hq Ht He.
  pose (task := pushed params u date).
  destruct (push_called q params u date)
    as (q0 & H0 & Hl0 & Ho0 & Hq0 & Hs0 & Hi0 & Hd0 & Hc0 & Hh0 & Hr0); auto.
  { unfold FileMutex.held. now rewrite Hl. }
  fold task in Hl0.
  destruct (push_flock_failed q0 task (loop q) e)
    as (q1 & H1 & Hl1 & Ho1 & Hq1 & Hs1 & Hd1 & Hc1); auto.
  { rewrite Hl0. apply take_snoc; [exact Ht|reflexivity]. }
  exists q1. cbn [run].
  change (TPush u) with (TPush (Task.id task)).
  rewrite H0, H1.
  conj; try assumption; try reflexivity; try congruence.
  unfold waiting. rewrite Hq1, Hq0, Hq. reflexivity.
Qed.

(** ** The task queue: a push that has been overtaken *)

#[local] Hint Rewrite list_sum_cons : counting.

Lemma writing_le_named (u : string) (l : list (frame * pc)) :
  list_sum (map (writing u) l)
  <= list_sum (map (fun kp => named u (fst kp)) l).
Proof.
  induction l as [|[k p] l IH]; [simpl; lia|].
  cbn [map]. rewrite !list_sum_cons.
  assert (H : writing u (k, p) <= named u (fst (k, p))).
  { unfold named, writing. cbn [fst].
    destruct k as [|task|r rt|o]; try lia.
    destruct p; destruct (String.eqb (Task.id task) u); lia. }
  lia.
Qed.

Lemma fresh_other (a u : string) (q : queue) :
  fresh a q = true -> existsb (String.eqb u) (issued q) = true ->
  String.eqb a u = false.
Proof.
  unfold fresh. intros Hf Hu. apply andb_prop in Hf. destruct Hf as [_ Hf].
  apply negb_true_iff in Hf.
  destruct (String.eqb_spec a u) as [->|]; [congruence|reflexivity].
Qed.

Lemma step_overtaken (u : string) (q q' : queue) (ev : event) :
  str_truthy u = true -> (forall x, u <> "runner-" ^^ x) ->
  overtaken u q -> step q ev = Some q' ->
  crashed q' = None -> overtaken u q'.
Proof.
  unfold overtaken.
  intros Hu Hr (Hm & Hw & Hc & Hq & Ho & Hi) H. open_step H.
  all: use_take (take_sum nat (fun kp => named u (fst kp))).
  all: use_take (take_sum nat (writing u)).
  all: tidy.
  all: over_tac u fresh_other writing_le_named.
Qed.

Lemma run_not_crashed (evs : list event) (q q' : queue) :
  run evs q = Some q' -> crashed q' = None -> crashed q = None.
Proof.
  destruct evs as [|ev evs]; simpl.
  - now intros [= <-].
  - unfold step. destruct (crashed q); [discriminate|reflexivity].
Qed.

Lemma run_overtaken (u : string) (evs : list event) :
  str_truthy u = true -> (forall x, u <> "runner-" ^^ x) ->
  forall q q', overtaken u q -> run evs q = Some q' ->
               crashed q' = None -> overtaken u q'.
Proof.
  intros Hu Hr.
  induction evs as [|ev evs IH]; intros q q' HO; simpl.
  - now intros [= <-].
  - destruct (step q ev) as [q1|] eqn:Hs; [|discriminate].
    intros Hrun Hc. apply (IH q1 q'); try assumption.
    apply (step_overtaken u q q1 ev Hu Hr HO Hs).
    exact (run_not_crashed evs q1 q' Hrun Hc).
Qed.

Lemma take_none_named (u : string) (l : list (frame * pc)) :
  take (TPush u) l = None -> take (TCheck u) l = None ->
  list_sum (map (fun kp => named u (fst kp)) l) = 0.
Proof.
  induction l as [|[k p] l IH]; [reflexivity|].
  cbn [map take]. rewrite list_sum_cons.
  destruct (tid_eqb (tid_of k) (TPush u)) eqn:E1; [discriminate|].
  destruct (tid_eqb (tid_of k) (TCheck u)) eqn:E2; [discriminate|].
  destruct (take (TPush u) l) as [[[k1 p1] r1]|]; [discriminate|].
  destruct (take (TCheck u) l) as [[[k2 p2] r2]|]; [discriminate|].
  intros _ _. rewrite IH by reflexivity.
  destruct k as [|task|r rt|o]; cbn [fst named tid_of tid_eqb] in *;
    try rewrite E1; try rewrite E2; reflexivity.
Qed.

Lemma writer_found (u : string) (l : list (frame * pc)) :
  list_sum (map (writing u) l) = 1 ->
  exists task f name data,
    In (PushFrame task, AwaitWrite f name data) l /\ Task.id task = u.
Proof.
  induction l as [|[k p] l IH]; [simpl; discriminate|].
  cbn [map]. rewrite list_sum_cons. intros H.
  destruct (writing u (k, p)) as [|n] eqn:Hk.
  - destruct IH as (task & f & name & data & Hin & Hid); [lia|].
    exists task, f, name, data. split; [now right|exact Hid].
  - unfold writing in Hk.
    destruct k as [|task|r rt|o]; try discriminate.
    destruct p; try discriminate.
    destruct (String.eqb_spec (Task.id task) u); [|discriminate].
    exists task, f, name, data. split; [now left|assumption].
Qed.

Lemma fire_keeps_issued (q q' : queue) (t : tid) (e : env) :
  step q (EvFire t e) = Some q' -> issued q' = issued q.
Proof.
  intros H. open_step H. all: reflexivity.
Qed.

(** X21.  Two [push] calls made in the same turn of the event loop, on a
    ready queue whose lock is free and whose disk answers: both are given
    the lock by [fs.flock].  From then on the push that was given the
    lock first cannot release it: whatever happens next, in whatever
    order, as long as the process has not crashed this push is still
    waiting for one of its two writes; and if its two writes complete
    right away, [unlock] throws out of the callback and the process ends
    with an uncaught [InternalError]. *)
Theorem two_pushes_in_one_turn_end_the_process (q : queue)
    (p1 p2 : jsval) (u1 u2 d1 d2 : string) (e1 e2 : env) :
  crashed q = None -> fresh u1 q = true -> u2 <> u1 ->
  str_truthy u2 = true -> existsb (String.eqb u2) (issued q) = false ->
  (forall x, u1 <> "runner-" ^^ x) ->
  truthy p1 = true -> truthy p2 = true ->
  initialized q = true -> folders_exist (store q) = true ->
  FileMutex.lockedBy (mutex q) = None -> FileMutex.queue (mutex q) = [] ->
  take (TPush u1) (loop q) = None -> take (TPush u2) (loop q) = None ->
  take (TCheck u1) (loop q) = None ->
  io_fails e1 = false -> io_fails e2 = false ->
  exists q4,
    run [EvPush p1 u1 d1; EvPush p2 u2 d2;
         EvFire (TPush u1) e1; EvFire (TPush u2) e2] q = Some q4
    /\ crashed q4 = None
    /\ (forall evs q',
          run evs q4 = Some q' -> crashed q' = None ->
          exists task f name data,
            In (PushFrame task, AwaitWrite f name data) (loop q')
            /\ Task.id task = u1)
    /\ (forall e3 e4,
          io_fails e3 = false ->
          exists q',
            run [EvFire (TPush u1) e3; EvFire (TPush u1) e4] q4 = Some q'
            /\ crashed q' = Some (not_owner_error (Some u2) u1)).
Proof.
  intros Hc Hf1 Hne Hu2 Hi2 Hrn Hp1 Hp2 Hi Hd Hl Hq Ht1 Ht2 Htc He1 He2.
  assert (Hu1 : str_truthy u1 = true).
  { unfold fresh in Hf1. now apply andb_prop in Hf1. }
  pose (t1 := pushed p1 u1 d1). pose (t2 := pushed p2 u2 d2).
  assert (Hneb : String.eqb u2 u1 = false)
    by (destruct (String.eqb_spec u2 u1); [contradiction|reflexivity]).
  destruct (push_called q p1 u1 d1)
    as (q0 & H0 & Hl0 & Ho0 & Hq0 & Hs0 & Hi0 & Hd0 & Hc0 & Hh0 & Hr0); auto.
  { unfold FileMutex.held. now rewrite Hl. }
  fold t1 in Hl0.
  pose proof (push_issues q q0 p1 u1 d1 Hc Hf1 Hp1 H0) as Hiss0.
  assert (Hf2 : fresh u2 q0 = true).
  { unfold fresh. rewrite Hu2. cbn [andb]. rewrite Hiss0.
    cbn [existsb]. now rewrite Hneb, Hi2. }
  destruct (push_called q0 p2 u2 d2)
    as (q1 & H1 & Hl1 & Ho1 & Hq1 & Hs1 & Hi1 & Hd1 & Hc1 & Hh1 & Hr1); auto.
  { unfold FileMutex.held. now rewrite Ho0, Hl. }
  { congruence. }
  pose proof (push_issues q0 q1 p2 u2 d2 Hc0 Hf2 Hp2 H1) as Hiss1.
  fold t2 in Hl1. rewrite Hl0 in Hl1. rewrite <- app_assoc in Hl1.
  cbn [app] in Hl1.
  destruct (push_flock_done q1 t1 (loop q ++ [(PushFrame t2, AwaitFlock)]) e1)
    as (q2 & H2 & Hl2 & Ho2 & Hq2 & Hs2 & Hi2' & Hd2 & Hc2 & Hh2 & Hr2); auto.
  { rewrite Hl1. apply take_app; [exact Ht1|reflexivity]. }
  { congruence. }
  rewrite <- app_assoc in Hl2. cbn [app] in Hl2.
  destruct (push_flock_done q2 t2
              (loop q ++ [(PushFrame t1,
                           AwaitWrite IdFolder (file_of (Task.id t1)) t1)])
              e2)
    as (q3 & H3 & Hl3 & Ho3 & Hq3 & Hs3 & Hi3 & Hd3 & Hc3 & Hh3 & Hr3); auto.
  { rewrite Hl2. apply take_app; [exact Ht2|reflexivity]. }
  { congruence. }
  rewrite <- app_assoc in Hl3. cbn [app] in Hl3.
  change (TPush (Task.id t1)) with (TPush u1) in H2.
  change (TPush (Task.id t2)) with (TPush u2) in H3.
  assert (HO : overtaken u1 q3).
  { unfold overtaken, waiting.
    rewrite Hl3, Hq3, Hq2, Hq1, Hq0, Hq, Ho3.
    rewrite (fire_keeps_issued q2 q3 _ _ H3),
      (fire_keeps_issued q1 q2 _ _ H2), Hiss1, Hiss0.
    rewrite !map_app, !list_sum_app.
    rewrite (take_none_named u1 (loop q) Ht1 Htc).
    pose proof (writing_le_named u1 (loop q)) as Hle.
    rewrite (take_none_named u1 (loop q) Ht1 Htc) in Hle.
    assert (Hw0 : list_sum (map (writing u1) (loop q)) = 0) by lia.
    rewrite Hw0. unfold owner_differs. cbn. rewrite Hneb.
    rewrite !String.eqb_refl. cbn. rewrite orb_true_r. conj; reflexivity. }
  exists q3. cbn [run]. rewrite H0, H1, H2, H3.
  split; [reflexivity|]. split; [exact Hc3|]. split.
  - intros evs q' Hrun Hc'.
    destruct (run_overtaken u1 evs Hu1 Hrn q3 q' HO Hrun Hc')
      as (_ & Hw & _).
    exact (writer_found u1 (loop q') Hw).
  - intros e3 e4 He3.
    destruct (push_id_written q3 t1
                (loop q ++ [(PushFrame t2,
                             AwaitWrite IdFolder (file_of (Task.id t2)) t2)])
                e3)
      as (q4 & H4 & Hl4 & Hm4 & Hs4 & Hi4 & Hd4 & Hc4 & Hh4 & Hr4); auto.
    { rewrite Hl3. apply take_app; [exact Ht1|reflexivity]. }
    { congruence. }
    destruct (push_ends_without_the_lock q4 t1 u2
                (loop q ++ [(PushFrame t2,
                             AwaitWrite IdFolder (file_of (Task.id t2)) t2)])
                e4)
      as (q5 & H5 & Hc5); auto.
    { rewrite Hl4. apply take_snoc; [|reflexivity].
      apply take_app_none; [exact Ht1|].
      unfold t1, t2. simpl. now rewrite Hneb. }
    { rewrite Hm4. exact Ho3. }
    exists q5. cbn [run].
    change (TPush u1) with (TPush (Task.id t1)).
    rewrite H4, H5. split; [reflexivity|exact Hc5].
Qed.

(** ** The further properties at work on concrete inputs *)

Lemma Mutex_fifo_and_exclusive_witness :
  Mutex.granted (Mutex.run [Mutex.Lock "a" (Some 1); Mutex.Lock "b" (Some 2);
                            Mutex.Unlock "a"; Mutex.Lock "c" (Some 3)])
    ++ Mutex.queue (Mutex.mutex
                      (Mutex.run [Mutex.Lock "a" (Some 1);
                                  Mutex.Lock "b" (Some 2);
                                  Mutex.Unlock "a"; Mutex.Lock "c" (Some 3)]))
  = [Waiter "a" (Some 1); Waiter "b" (Some 2); Waiter "c" (Some 3)]
  /\ Mutex.active (Mutex.run [Mutex.Lock "a" (Some 1); Mutex.Lock "b" (Some 2);
                              Mutex.Unlock "a"; Mutex.Lock "c" (Some 3)]) <= 1.
Proof.
  apply (Mutex_fifo_and_exclusive
           [Mutex.Lock "a" (Some 1); Mutex.Lock "b" (Some 2);
            Mutex.Unlock "a"; Mutex.Lock "c" (Some 3)]).
  repeat constructor.
Defined.

Lemma Mutex_serves_everyone_in_turn_witness :
  Mutex.run (lock_all [Waiter "a" (Some 1); Waiter "b" None; Waiter "a" (Some 3)]
             ++ unlock_all [Waiter "a" (Some 1); Waiter "b" None;
                            Waiter "a" (Some 3)])
  = {| Mutex.mutex := Mutex.create;
       Mutex.granted := [Waiter "a" (Some 1); Waiter "b" None;
                         Waiter "a" (Some 3)];
       Mutex.released := ["a"; "b"; "a"];
       Mutex.timers := [1; 3] |}.
Proof.
  apply (Mutex_serves_everyone_in_turn
           [Waiter "a" (Some 1); Waiter "b" None; Waiter "a" (Some 3)]).
  repeat constructor.
Defined.

Lemma FileMutex_acts_as_Mutex_witness :
  Mutex.unlock "a" (project (FileMutex.Make nat None (Some "a")
                               [Waiter "b" (Some 2)] true))
  = Return (project (FileMutex.Make nat None (Some "b") [] false),
            Some (Waiter "b" (Some 2)))
  /\ Mutex.lock "c" (Some 3)
       (project (FileMutex.Make nat None (Some "a") [Waiter "b" (Some 2)] true))
     = (project (FileMutex.Make nat None (Some "a")
                   [Waiter "b" (Some 2); Waiter "c" (Some 3)] true), None).
Proof.
  apply (FileMutex_acts_as_Mutex
           (FileMutex.Make nat None (Some "a") [Waiter "b" (Some 2)] true)
           "a" "c" (Some 3) (Some 3)).
  right. discriminate.
Defined.

Lemma task_is_run_at_most_once_witness :
  files_named (file_of "A") (pending_dir (store after_one_job))
  + workers_on "A" after_one_job + ends "A" (history after_one_job) <= 1.
Proof.
  apply (task_is_run_at_most_once 1 after_one_job "A").
  exists empty_disk, one_job_until_callback. vm_compute. split; reflexivity.
Defined.



Lemma leaked_slot_is_never_released_witness :
  In 0 (runningTasks after_failed_dequeue_and_push)
  /\ ~ In 0 (working after_failed_dequeue_and_push).
Proof.
  apply (leaked_slot_is_never_released 0 push_after_failed_dequeue
           after_failed_dequeue after_failed_dequeue_and_push).
  - vm_compute. split; [now left|split; [constructor|reflexivity]].
  - vm_compute. reflexivity.
Defined.

Lemma wedged_queue_runs_nothing_more_witness :
  runningTasks after_failed_dequeue_and_push = runningTasks after_failed_dequeue
  /\ heap after_failed_dequeue_and_push = heap after_failed_dequeue
  /\ working after_failed_dequeue_and_push = []
  /\ busy after_failed_dequeue_and_push = 0.
Proof.
  apply (wedged_queue_runs_nothing_more push_after_failed_dequeue
           after_failed_dequeue after_failed_dequeue_and_push).
  - vm_compute. split; [reflexivity|split; [discriminate|reflexivity]].
  - vm_compute. reflexivity.
Defined.

Lemma whenReady_forgets_the_initialization_error_witness :
  whenReady (PushFrame (pushed build "A" "t1")) "u1" after_failed_mkdirp
  = ready (PushFrame (pushed build "A" "t1")) None "u1" after_failed_mkdirp.
Proof.
  apply (whenReady_forgets_the_initialization_error 1 empty_disk
           [EvFire TStart (Env true "" "" None JUndefined)]
           after_failed_mkdirp).
  - vm_compute. reflexivity.
  - vm_compute. discriminate.
Defined.

Lemma lock_holder_is_in_progress_witness :
  exists k p, In (k, p) (loop while_push_holds_the_lock)
              /\ lock_id k = "A" /\ p <> AwaitFlock.
Proof.
  apply (lock_holder_is_in_progress 1 empty_disk push_holds_the_lock
           while_push_holds_the_lock "A").
  - vm_compute. reflexivity.
  - vm_compute. reflexivity.
Defined.

Lemma runTask_always_moves_on_witness :
  exists q',
    run [EvFire (TRun 0) (worker_says None JUndefined "t2");
         EvFire (TRun 0) fine;
         EvFire (TRun 0) (Env true "" "" None JUndefined)]
        with_worker_at_work = Some q'
    /\ loop q' = []
    /\ runningTasks q' = without 0 (runningTasks with_worker_at_work)
    /\ nth_error (heap q') 0
       = Some (worker_callback
                 (worker_err (worker_says None JUndefined "t2"))
                 (worker_result (worker_says None JUndefined "t2"))
                 (now (worker_says None JUndefined "t2"))
                 (Task.Make "A" build running "t1" None None None None))
    /\ deferred q' = S (deferred with_worker_at_work)
    /\ mutex q' = mutex with_worker_at_work
    /\ crashed q' = None.
Proof.
  apply (runTask_always_moves_on with_worker_at_work 0
           (Task.Make "A" build running "t1" None None None None) []
           (worker_says None JUndefined "t2") fine
           (Env true "" "" None JUndefined)).
  - vm_compute. reflexivity.
  - vm_compute. reflexivity.
  - reflexivity.
  - vm_compute. reflexivity.
  - vm_compute. reflexivity.
Defined.

Lemma push_persists_the_task_witness :
  exists q',
    run [EvPush build "A" "t1"; EvFire (TPush "A") fine;
         EvFire (TPush "A") fine; EvFire (TPush "A") fine] after_startup
      = Some q'
    /\ fs_readFile IdFolder (file_of "A") (store q')
       = Some (Json (pushed build "A" "t1"))
    /\ fs_readFile PendingFolder (file_of "A") (store q')
       = Some (Json (pushed build "A" "t1"))
    /\ FileMutex.lockedBy (mutex q') = None
    /\ deferred q' = S (deferred after_startup)
    /\ loop q' = loop after_startup /\ heap q' = heap after_startup
    /\ runningTasks q' = runningTasks after_startup /\ crashed q' = None.
Proof.
  apply (push_persists_the_task after_startup build "A" "t1" fine fine fine);
    vm_compute; reflexivity.
Defined.

Lemma push_failed_write_leaves_the_task_in_the_index_witness :
  exists q',
    run [EvPush build "A" "t1"; EvFire (TPush "A") fine;
         EvFire (TPush "A") fine;
         EvFire (TPush "A") (Env true "" "" None JUndefined)] after_startup
      = Some q'
    /\ fs_readFile IdFolder (file_of "A") (store q')
       = Some (Json (pushed build "A" "t1"))
    /\ pending_dir (store q') = pending_dir (store after_startup)
    /\ FileMutex.lockedBy (mutex q') = None
    /\ deferred q' = deferred after_startup
    /\ loop q' = loop after_startup /\ heap q' = heap after_startup
    /\ runningTasks q' = runningTasks after_startup /\ crashed q' = None.
Proof.
  apply (push_failed_write_leaves_the_task_in_the_index after_startup build
           "A" "t1" fine fine (Env true "" "" None JUndefined));
    vm_compute; reflexivity.
Defined.


Lemma gitaction_answer_follows_the_exit_code_witness :
  (exists st,
     GitAction.gitaction (fun s => s)
       (JObj [("origin", "git@host:repo.git"); ("script", "make");
              ("privatekey", "KEY_MAIN"); ("dataFolder", "data")])
       [(GitAction.Stdout, String "o" (String "k" (String GitAction.newline "")));
        (GitAction.Stderr, "warning")]
       (Some 2%Z)
     = Return (st, Some (GitAction.InternalErr
                           "git action script reported an error"
                           (Some 2%Z))))
  /\ forall m c date task,
       Task.errorCode
         (worker_callback
            (Some (GitAction.to_worker_error (GitAction.InternalErr m c)))
            JUndefined date task) = Some 500%Z.
Proof.
  apply (gitaction_answer_follows_the_exit_code (fun s => s)
           (JObj [("origin", "git@host:repo.git"); ("script", "make");
                  ("privatekey", "KEY_MAIN"); ("dataFolder", "data")])
           [(GitAction.Stdout,
             String "o" (String "k" (String GitAction.newline "")));
            (GitAction.Stderr, "warning")]
           (Some 2%Z)).
  - vm_compute. reflexivity.
  - intros _. vm_compute. discriminate.
  - vm_compute. reflexivity.
Defined.

Lemma gitaction_close_throws_when_both_streams_end_mid_line_witness :
  (exists e st,
     GitAction.gitaction (fun s => s)
       (JObj [("origin", "git@host:repo.git"); ("script", "make")])
       [(GitAction.Stdout, "done"); (GitAction.Stderr, "warning")]
       (Some 0%Z) = Throw e st)
  <-> str_truthy (GitAction.tail_of GitAction.Stdout
                    [(GitAction.Stdout, "done"); (GitAction.Stderr, "warning")])
      && str_truthy (GitAction.tail_of GitAction.Stderr
                       [(GitAction.Stdout, "done");
                        (GitAction.Stderr, "warning")]) = true.
Proof.
  apply (gitaction_close_throws_when_both_streams_end_mid_line (fun s => s)
           (JObj [("origin", "git@host:repo.git"); ("script", "make")])
           [(GitAction.Stdout, "done"); (GitAction.Stderr, "warning")]
           (Some 0%Z)).
  - vm_compute. reflexivity.
  - vm_compute. discriminate.
Defined.

Lemma gitaction_throws_on_privatekey_without_dataFolder_witness :
  GitAction.gitaction (fun s => s)
    (JObj [("origin", "git@host:repo.git"); ("script", "make");
           ("privatekey", "KEY_MAIN")])
    [(GitAction.Stdout, "never run")] (Some 0%Z)
  = Throw GitAction.not_a_string (GitAction.init, None).
Proof.
  apply (gitaction_throws_on_privatekey_without_dataFolder (fun s => s)
           (JObj [("origin", "git@host:repo.git"); ("script", "make");
                  ("privatekey", "KEY_MAIN")])
           [(GitAction.Stdout, "never run")] (Some 0%Z));
    vm_compute; reflexivity.
Defined.

Lemma checkNextTask_moves_the_task_to_running_witness :
  exists q',
    run [EvCheck "u1";
         EvFire (TCheck ("runner-" ^^ "u1")) fine;
         EvFire (TCheck ("runner-" ^^ "u1")) fine;
         EvFire (TCheck ("runner-" ^^ "u1")) fine;
         EvFire (TCheck ("runner-" ^^ "u1")) fine;
         EvFire (TCheck ("runner-" ^^ "u1")) fine;
         EvFire (TCheck ("runner-" ^^ "u1")) fine] after_one_push = Some q'
    /\ heap q' = heap after_one_push
                 ++ [Task.set_status running (pushed build "A" "t1")]
    /\ runningTasks q'
       = runningTasks after_one_push ++ [length (heap after_one_push)]
    /\ fs_readFile IdFolder (file_of (Task.id (pushed build "A" "t1")))
                   (store q')
       = Some (Json (Task.set_status running (pushed build "A" "t1")))
    /\ fs_readFile RunningFolder (file_of (Task.id (pushed build "A" "t1")))
                   (store q')
       = Some (Json (Task.set_status running (pushed build "A" "t1")))
    /\ pending_dir (store q')
       = dir_remove (file_of (Task.id (pushed build "A" "t1")))
                    (pending_dir (store after_one_push))
    /\ loop q' = loop after_one_push
                 ++ [(RunFrame (length (heap after_one_push)), AwaitDefer)]
    /\ FileMutex.lockedBy (mutex q') = None
    /\ deferred q' = 0 /\ crashed q' = None.
Proof.
  apply (checkNextTask_moves_the_task_to_running after_one_push "u1" 0
           (pushed build "A" "t1") fine fine fine fine fine fine);
    vm_compute; reflexivity.
Defined.

Lemma checkNextTask_leaves_an_unparsable_file_witness :
  exists q',
    run [EvCheck "u1";
         EvFire (TCheck ("runner-" ^^ "u1")) fine;
         EvFire (TCheck ("runner-" ^^ "u1")) fine;
         EvFire (TCheck ("runner-" ^^ "u1")) fine] behind_garbage = Some q'
    /\ store q' = store behind_garbage
    /\ heap q' = heap behind_garbage
    /\ runningTasks q' = runningTasks behind_garbage
    /\ loop q' = loop behind_garbage
    /\ FileMutex.lockedBy (mutex q') = None
    /\ deferred q' = 0 /\ crashed q' = None.
Proof.
  apply (checkNextTask_leaves_an_unparsable_file behind_garbage "u1" "x.json"
           0 fine fine fine);
    vm_compute; reflexivity.
Defined.

Lemma two_pushes_in_one_turn_end_the_process_witness :
  exists q4,
    run [EvPush build "A" "t1"; EvPush build "B" "t1";
         EvFire (TPush "A") fine; EvFire (TPush "B") fine] after_startup
      = Some q4
    /\ crashed q4 = None
    /\ (forall evs q',
          run evs q4 = Some q' -> crashed q' = None ->
          exists task f name data,
            In (PushFrame task, AwaitWrite f name data) (loop q')
            /\ Task.id task = "A")
    /\ (forall e3 e4,
          io_fails e3 = false ->
          exists q',
            run [EvFire (TPush "A") e3; EvFire (TPush "A") e4] q4 = Some q'
            /\ crashed q' = Some (not_owner_error (Some "B") "A")).
Proof.
  apply (two_pushes_in_one_turn_end_the_process after_startup build build
           "A" "B" "t1" "t1" fine fine);
    try (vm_compute; reflexivity).
  - discriminate.
  - intros x. simpl. discriminate.
Defined.

Lemma flock_error_strands_the_push_witness :
  exists q',
    run [EvPush build "A" "t1";
         EvFire (TPush "A") (Env true "" "" None JUndefined)] after_startup
      = Some q'
    /\ FileMutex.lockedBy (mutex q') = None
    /\ waiting q' = [PushFrame (pushed build "A" "t1")]
    /\ loop q' = loop after_startup
    /\ store q' = store after_startup
    /\ deferred q' = deferred after_startup /\ crashed q' = None.
Proof.
  apply (flock_error_strands_the_push after_startup build "A" "t1"
           (Env true "" "" None JUndefined));
    vm_compute; reflexivity.
Defined.
